(** * Gio text widgets: the editor, the label iterator and the JNI shim

    A shallow embedding of [widget/editor.go], [widget/label.go] and
    [app/internal/window/os_android.c], and the properties of them that
    the specification states.

    Conventions.  A Go [int] is a 64-bit two's complement integer and a
    [fixed.Int26_6] a 32-bit one; both are carried by [Z], and every
    arithmetic operation of the source that can leave the range is
    followed by the wrap-around the hardware performs.  Counters that the
    source only moves along a slice or a string (line and rune indices)
    stay inside the length of that slice and are not wrapped.  A Go
    [string] is its sequence of bytes.  A run-time panic is a result of
    its own, [Panic]. *)

From Stdlib Require Import Strings.Byte Strings.String ZArith List Bool Lia.
From ITree Require ITree ITreeFacts.
Import ListNotations.
Local Open Scope Z_scope.

(* ================================================================== *)
(** * Part I: the model *)
(* ================================================================== *)

(** ** The Go run time: panics, integers, slices *)

Module go.

(** What a panic carries. *)
Inductive panic : Type :=
| UnknownAlignment (a : Z)   (* panic(fmt.Errorf("unknown alignment %v", align)) *)
| IndexOutOfRange            (* runtime error: index out of range *)
| SliceOutOfRange.           (* runtime error: slice bounds out of range *)

(** The result of running a piece of Go code: it returns, it panics,
    or the model ran out of the iterations it was given. *)
Inductive outcome (A : Type) : Type :=
| Done (a : A)
| Panic (p : panic)
| OutOfFuel.
Arguments Done {A} a.
Arguments Panic {A} p.
Arguments OutOfFuel {A}.

Definition bind {A B : Type} (m : outcome A) (k : A -> outcome B) : outcome B :=
  match m with
  | Done a => k a
  | Panic p => Panic p
  | OutOfFuel => OutOfFuel
  end.

(** Two's complement wrap-around to [w] bits. *)
Definition wrap (w : Z) (x : Z) : Z := (x + 2 ^ (w - 1)) mod 2 ^ w - 2 ^ (w - 1).
Definition wrap32 : Z -> Z := wrap 32.
Definition wrap64 : Z -> Z := wrap 64.

(** [byte(x)], [uint32(x)]: conversion to an unsigned type. *)
Definition to_byte (x : Z) : Z := x mod 256.
Definition to_uint32 (x : Z) : Z := x mod 2 ^ 32.

(** A string is its bytes. *)
Definition string : Type := list byte.
Definition str (s : String.string) : string := list_byte_of_string s.
Definition byte_val (b : byte) : Z := Z.of_N (Byte.to_N b).
Definition byte_of (x : Z) : byte :=
  match Byte.of_N (Z.to_N (to_byte x)) with
  | Some b => b
  | None => x00
  end.

Definition len {A : Type} (xs : list A) : Z := Z.of_nat (List.length xs).

(** [xs[i]]. *)
Definition index {A : Type} (xs : list A) (i : Z) : outcome A :=
  if (i <? 0) || (len xs <=? i) then Panic IndexOutOfRange
  else match nth_error xs (Z.to_nat i) with
       | Some x => Done x
       | None => Panic IndexOutOfRange
       end.

(** [xs[lo:hi]] on a string, and on a slice whose capacity is its
    length. *)
Definition slice {A : Type} (xs : list A) (lo hi : Z) : outcome (list A) :=
  if (lo <? 0) || (hi <? lo) || (len xs <? hi) then Panic SliceOutOfRange
  else Done (firstn (Z.to_nat (hi - lo)) (skipn (Z.to_nat lo) xs)).
Definition slice_from {A : Type} (xs : list A) (lo : Z) : outcome (list A) :=
  slice xs lo (len xs).
Definition slice_to {A : Type} (xs : list A) (hi : Z) : outcome (list A) :=
  slice xs 0 hi.

End go.

Notation "'do' x <- m ; k" := (go.bind m (fun x => k))
  (at level 10, x pattern, m at level 100, k at level 200).

(** ** Package image *)

Module image.
Record Point : Type := Pt { X : Z; Y : Z }.
Record Rectangle : Type := Rect { Min : Point; Max : Point }.
Definition ZP : Point := Pt 0 0.
Definition ZR : Rectangle := Rect ZP ZP.
End image.

(** ** Package golang.org/x/image/math/fixed *)

Module fixed.
(** [Int26_6] is an [int32] holding a multiple of 1/64. *)
Definition Int26_6 : Type := Z.
Record Point26_6 : Type := Pt { X : Int26_6; Y : Int26_6 }.
Record Rectangle26_6 : Type := Rect { Min : Point26_6; Max : Point26_6 }.

Definition add (a b : Int26_6) : Int26_6 := go.wrap32 (a + b).
Definition sub (a b : Int26_6) : Int26_6 := go.wrap32 (a - b).
(** [a / 2]: Go's integer division truncates toward zero. *)
Definition half (a : Int26_6) : Int26_6 := Z.quot a 2.
(** [func I(i int) Int26_6 { return Int26_6(i << 6) }] *)
Definition I (i : Z) : Int26_6 := go.wrap32 (i * 64).
(** [func (x Int26_6) Floor() int { return int((x + 0x00) >> 6) }] *)
Definition Floor (x : Int26_6) : Z := Z.shiftr x 6.
(** [func (x Int26_6) Ceil() int { return int((x + 0x3f) >> 6) }] *)
Definition Ceil (x : Int26_6) : Z := Z.shiftr (go.wrap32 (x + 63)) 6.
End fixed.

(** ** Package gioui.org/text (the declarations the widgets use) *)

Module text.
(** Modelled from the spec: package [gioui.org/text] of the toolkit is
    not among the sources.  [type Alignment uint8] has the three values
    [Start], [End] and [Middle], declared in this order by [iota]; any
    other value of the type is an alignment that [align] does not
    know. *)
Definition Alignment : Type := Z.
Definition Start : Alignment := 0.
Definition End_ : Alignment := 1.
Definition Middle : Alignment := 2.

(** Modelled from the spec: [text.Layout], a piece of shaped text; of
    its fields the widgets use the text and the advance of each of its
    runes. *)
Record Layout : Type := mkLayout {
  Text : go.string;
  Advances : list fixed.Int26_6 }.

(** Modelled from the spec: [text.Line], a line of a laid out text,
    with the fields the widgets read. *)
Record Line : Type := mkLine {
  Layout_ : Layout;
  Width : fixed.Int26_6;
  Ascent : fixed.Int26_6;
  Descent : fixed.Int26_6;
  Bounds : fixed.Rectangle26_6 }.
End text.

(** ** Package unicode/utf8 *)

Module utf8.
Definition RuneError : Z := 65533.
Definition MaxRune : Z := 1114111.
Definition UTFMax : Z := 4.

(** The table [first]: information about the first byte of an
    encoding.  [0xF0] is ASCII, [0xF1] an invalid first byte; otherwise
    the low three bits give the size and the high four the row of
    [acceptRanges] that the second byte must lie in. *)
Definition first (b : Z) : Z :=
  if b <? 128 then 240
  else if b <? 194 then 241
  else if b <? 224 then 2
  else if b =? 224 then 19
  else if b <? 237 then 3
  else if b =? 237 then 35
  else if b <? 240 then 3
  else if b =? 240 then 52
  else if b <? 244 then 4
  else if b =? 244 then 68
  else 241.

Definition acceptRanges (i : Z) : Z * Z :=
  if i =? 0 then (128, 191)
  else if i =? 1 then (160, 191)
  else if i =? 2 then (128, 159)
  else if i =? 3 then (144, 191)
  else (128, 143).

(** [func DecodeRuneInString(s string) (rune, int)] *)
Definition DecodeRuneInString (s : go.string) : Z * Z :=
  match s with
  | [] => (RuneError, 0)
  | b0 :: t0 =>
    let s0 := go.byte_val b0 in
    let x := first s0 in
    if 240 <=? x then ((if x =? 240 then s0 else RuneError), 1)
    else
      let sz := Z.land x 7 in
      let '(lo, hi) := acceptRanges (Z.shiftr x 4) in
      if go.len s <? sz then (RuneError, 1)
      else match t0 with
      | [] => (RuneError, 1)
      | b1 :: t1 =>
        let s1 := go.byte_val b1 in
        if (s1 <? lo) || (hi <? s1) then (RuneError, 1)
        else if sz <=? 2 then
          (Z.lor (Z.shiftl (Z.land s0 31) 6) (Z.land s1 63), 2)
        else match t1 with
        | [] => (RuneError, 1)
        | b2 :: t2 =>
          let s2 := go.byte_val b2 in
          if (s2 <? 128) || (191 <? s2) then (RuneError, 1)
          else if sz <=? 3 then
            (Z.lor (Z.lor (Z.shiftl (Z.land s0 15) 12) (Z.shiftl (Z.land s1 63) 6))
                   (Z.land s2 63), 3)
          else match t2 with
          | [] => (RuneError, 1)
          | b3 :: _ =>
            let s3 := go.byte_val b3 in
            if (s3 <? 128) || (191 <? s3) then (RuneError, 1)
            else
              (Z.lor (Z.lor (Z.lor (Z.shiftl (Z.land s0 7) 18)
                                   (Z.shiftl (Z.land s1 63) 12))
                            (Z.shiftl (Z.land s2 63) 6))
                     (Z.land s3 63), 4)
          end
        end
      end
  end.

(** [func EncodeRune(p []byte, r rune) int]: the bytes written to the
    front of [p]; their number is the result. *)
Definition EncodeRune (r : Z) : list byte :=
  let i := go.to_uint32 r in
  let three (r : Z) :=
    [ go.byte_of (Z.lor 224 (go.to_byte (Z.shiftr r 12)));
      go.byte_of (Z.lor 128 (Z.land (go.to_byte (Z.shiftr r 6)) 63));
      go.byte_of (Z.lor 128 (Z.land (go.to_byte r) 63)) ] in
  if i <=? 127 then [ go.byte_of r ]
  else if i <=? 2047 then
    [ go.byte_of (Z.lor 192 (go.to_byte (Z.shiftr r 6)));
      go.byte_of (Z.lor 128 (Z.land (go.to_byte r) 63)) ]
  else if (MaxRune <? i) || ((55296 <=? i) && (i <=? 57343)) then three RuneError
  else if i <=? 65535 then three r
  else
    [ go.byte_of (Z.lor 240 (go.to_byte (Z.shiftr r 18)));
      go.byte_of (Z.lor 128 (Z.land (go.to_byte (Z.shiftr r 12)) 63));
      go.byte_of (Z.lor 128 (Z.land (go.to_byte (Z.shiftr r 6)) 63));
      go.byte_of (Z.lor 128 (Z.land (go.to_byte r) 63)) ].

(** The sizes of the successive runes of [s], as [for n := range s]
    steps through them: the index [n] of a rune is the sum of the
    sizes before it. *)
Fixpoint runeSizes_from (fuel : nat) (s : go.string) : list Z :=
  match fuel with
  | O => []
  | S fuel' =>
    match s with
    | [] => []
    | _ :: _ =>
      let sz := snd (DecodeRuneInString s) in
      sz :: runeSizes_from fuel' (skipn (Z.to_nat sz) s)
    end
  end.
Definition runeSizes (s : go.string) : list Z := runeSizes_from (List.length s) s.

End utf8.

(** ** Package gioui.org/layout (the declarations the widgets use) *)

Module layout.
(** Modelled from the spec: [layout.Dimensions] of package
    [gioui.org/layout], which is not among the sources. *)
Record Dimensions : Type := mkDimensions {
  Size : image.Point;
  Baseline : Z }.
Definition zero : Dimensions := mkDimensions image.ZP 0.
End layout.

(** ** widget/label.go *)

(** [type Point image.Point] *)
Module Point.
Definition t : Type := image.Point.
Definition LessOrEqual (p1 p2 : t) : bool :=
  (image.Y p1 <? image.Y p2)
  || ((image.Y p1 =? image.Y p2) && (image.X p1 <=? image.X p2)).
Definition Less (p1 p2 : t) : bool :=
  (image.Y p1 <? image.Y p2)
  || ((image.Y p1 =? image.Y p2) && (image.X p1 <? image.X p2)).
Definition eqb (p1 p2 : t) : bool :=
  (image.X p1 =? image.X p2) && (image.Y p1 =? image.Y p2).
End Point.

(** [func align(align text.Alignment, width fixed.Int26_6, maxWidth int)] *)
Definition align (a : text.Alignment) (width : fixed.Int26_6) (maxWidth : Z)
  : go.outcome fixed.Int26_6 :=
  let mw := fixed.I maxWidth in
  if a =? text.Middle then
    go.Done (fixed.I (fixed.Floor (fixed.half (fixed.sub mw width))))
  else if a =? text.End_ then
    go.Done (fixed.I (fixed.Floor (fixed.sub mw width)))
  else if a =? text.Start then
    go.Done 0
  else
    go.Panic (go.UnknownAlignment a).

Module segmentIterator.

Record t : Type := mk {
  Lines : list text.Line;
  Clip : image.Rectangle;
  Alignment : text.Alignment;
  Width : Z;
  Offset : image.Point;
  StartSel : Point.t;
  EndSel : Point.t;
  pos : Point.t;              (* current position *)
  line : text.Line;           (* current line *)
  layout : text.Layout;       (* current line's Layout *)
  off : fixed.Point26_6;      (* pixel positions *)
  x : fixed.Int26_6;
  y : fixed.Int26_6;
  prevDesc : fixed.Int26_6 }.

Definition set_pos (l : t) (p : Point.t) : t :=
  mk (Lines l) (Clip l) (Alignment l) (Width l) (Offset l) (StartSel l) (EndSel l)
     p (line l) (layout l) (off l) (x l) (y l) (prevDesc l).
Definition set_layout (l : t) (la : text.Layout) : t :=
  mk (Lines l) (Clip l) (Alignment l) (Width l) (Offset l) (StartSel l) (EndSel l)
     (pos l) (line l) la (off l) (x l) (y l) (prevDesc l).
Definition set_off (l : t) (o : fixed.Point26_6) : t :=
  mk (Lines l) (Clip l) (Alignment l) (Width l) (Offset l) (StartSel l) (EndSel l)
     (pos l) (line l) (layout l) o (x l) (y l) (prevDesc l).
Definition set_line (l : t) (ln : text.Line) (x' y' d : fixed.Int26_6) : t :=
  mk (Lines l) (Clip l) (Alignment l) (Width l) (Offset l) (StartSel l) (EndSel l)
     (pos l) ln (layout l) (off l) x' y' d.

Definition zeroLayout : text.Layout := text.mkLayout [] [].
Definition zeroLine : text.Line :=
  text.mkLine zeroLayout 0 0 0 (fixed.Rect (fixed.Pt 0 0) (fixed.Pt 0 0)).

(** The composite literal [segmentIterator{Lines: .., Clip: .., ..}]:
    the unexported fields start at their zero values. *)
Definition new (lines : list text.Line) (clip : image.Rectangle)
    (a : text.Alignment) (width : Z) (offset : image.Point)
    (startSel endSel : Point.t) : t :=
  mk lines clip a width offset startSel endSel
     image.ZP zeroLine zeroLayout (fixed.Pt 0 0) 0 0 0.

(** What [Next] returns. *)
Record ret : Type := mkRet {
  r_layout : text.Layout;
  r_off : image.Point;
  r_selected : bool;
  r_yOffs : Z;
  r_dims : layout.Dimensions;
  r_ok : bool }.

(** [return text.Layout{}, image.Point{}, false, 0, layout.Dimensions{}, false] *)
Definition stop : ret := mkRet zeroLayout image.ZP false 0 layout.zero false.

Definition inSelection (l : t) : bool :=
  Point.LessOrEqual (StartSel l) (pos l) && Point.Less (pos l) (EndSel l).

(** Lines 55 to 64 of [Next]: take up the line [ln] and place its
    left edge and its baseline on the pixel grid. *)
Definition startLine (l : t) (ln : text.Line) : go.outcome t :=
  do a <- align (Alignment l) (text.Width ln) (Width l);
  let x1 := fixed.add a (fixed.I (image.X (Offset l))) in
  let y1 := fixed.add (y l) (fixed.add (prevDesc l) (text.Ascent ln)) in
  let off1 := fixed.Pt (fixed.I (fixed.Floor x1)) (fixed.I (fixed.Ceil y1)) in
  let y2 := fixed.Y off1 in
  let off2 := fixed.Pt (fixed.X off1) (fixed.add (fixed.Y off1) (fixed.I (image.Y (Offset l)))) in
  go.Done (set_off (set_line l ln x1 y2 (text.Descent ln)) off2).

(** Lines 76 to 86: drop the runes that end left of the clip area.
    [advances] is [l.layout.Advances], which the loop runs down. *)
Fixpoint skipClipped (advances : list fixed.Int26_6) (l : t) : t :=
  match advances with
  | [] => l
  | adv :: rest =>
    let n := snd (utf8.DecodeRuneInString (text.Text (layout l))) in
    if fixed.Ceil (fixed.sub (fixed.add (fixed.add (fixed.X (off l)) adv)
                                        (fixed.X (fixed.Max (text.Bounds (line l)))))
                             (text.Width (line l)))
       >=? image.X (image.Min (Clip l))
    then l
    else
      let l1 := set_off l (fixed.Pt (fixed.add (fixed.X (off l)) adv) (fixed.Y (off l))) in
      let l2 := set_layout l1 (text.mkLayout (skipn (Z.to_nat n) (text.Text (layout l1))) rest) in
      let l3 := set_pos l2 (image.Pt (image.X (pos l2) + 1) (image.Y (pos l2))) in
      skipClipped rest l3
  end.

(** Lines 94 to 110: the loop [for n := range l.layout.Text], given
    the sizes of the runes still to visit and the index [n] of the
    first of them.  The result is the iterator, [endx], [retLayout]
    and [nextLine]. *)
Fixpoint rangeText (sizes : list Z) (n : Z) (selected : bool) (l : t)
    (endx : fixed.Int26_6) (rune : Z) (retLayout : text.Layout)
    : go.outcome (t * fixed.Int26_6 * text.Layout * bool) :=
  match sizes with
  | [] => go.Done (l, endx, retLayout, true)
  | sz :: rest =>
    let selChanged := negb (Bool.eqb selected (inSelection l)) in
    if (fixed.Floor (fixed.add endx (fixed.X (fixed.Min (text.Bounds (line l)))))
          >? image.X (image.Max (Clip l))) || selChanged
    then
      do advs <- go.slice_to (text.Advances (layout l)) rune;
      do txt <- go.slice_to (text.Text (layout l)) n;
      let retLayout1 := text.mkLayout txt advs in
      if selChanged then
        (* Save the rest of the line *)
        do advs' <- go.slice_from (text.Advances (layout l)) rune;
        do txt' <- go.slice_from (text.Text (layout l)) n;
        go.Done (set_layout l (text.mkLayout txt' advs'), endx, retLayout1, false)
      else go.Done (l, endx, retLayout1, true)
    else
      do adv <- go.index (text.Advances (layout l)) rune;
      rangeText rest (n + sz) selected
                (set_pos l (image.Pt (image.X (pos l) + 1) (image.Y (pos l))))
                (fixed.add endx adv) (rune + 1) retLayout
  end.

(** Lines 89 to 132: cut the next segment off the current layout. *)
Definition segment (l : t) : go.outcome (ret * t) :=
  let selected := inSelection l in
  let retLayout := layout l in
  do (l1, endx, retLayout1, nextLine) <-
     rangeText (utf8.runeSizes (text.Text (layout l))) 0 selected l
               (fixed.X (off l)) 0 retLayout;
  let offf := image.Pt (fixed.Floor (fixed.X (off l1))) (fixed.Floor (fixed.Y (off l1))) in
  (* Calculate the width & height if the returned text. *)
  let d := fold_left fixed.add (text.Advances retLayout1) 0 in
  let dims := layout.mkDimensions
                (image.Pt (fixed.Ceil d)
                          (go.wrap64 (- fixed.Ceil (fixed.add (text.Ascent (line l1))
                                                             (text.Descent (line l1))))))
                0 in
  let l2 := if nextLine
            then set_pos l1 (image.Pt 0 (image.Y (pos l1) + 1))
            else set_off l1 (fixed.Pt endx (fixed.Y (off l1))) in
  go.Done (mkRet retLayout1 offf selected (fixed.Ceil (text.Descent (line l1))) dims true, l2).

(** The loop [for l.pos.Y < len(l.Lines)] of [Next]; [fuel] bounds
    the number of times its body is entered. *)
Fixpoint Next_loop (fuel : nat) (l : t) : go.outcome (ret * t) :=
  if negb (image.Y (pos l) <? go.len (Lines l)) then go.Done (stop, l)
  else match fuel with
  | O => go.OutOfFuel
  | S fuel' =>
    if image.X (pos l) =? 0 then
      do ln <- go.index (Lines l) (image.Y (pos l));
      do l1 <- startLine l ln;
      if fixed.Floor (fixed.add (fixed.Y (off l1)) (fixed.Y (fixed.Min (text.Bounds (line l1)))))
         >? image.Y (image.Max (Clip l1))
      then go.Done (stop, l1)                                  (* break *)
      else if fixed.Ceil (fixed.add (fixed.Y (off l1)) (fixed.Y (fixed.Max (text.Bounds (line l1)))))
              <? image.Y (image.Min (Clip l1))
      then
        (* This line is outside/before the clip area; go on to the next line. *)
        Next_loop fuel' (set_pos l1 (image.Pt (image.X (pos l1)) (image.Y (pos l1) + 1)))
      else
        let l2 := set_layout l1 (text.Layout_ (line l1)) in
        segment (skipClipped (text.Advances (layout l2)) l2)
    else segment l
  end.

(** [func (l *segmentIterator) Next()].  The body of the loop is
    entered once per line it passes over, and once more at most. *)
Definition Next (l : t) : go.outcome (ret * t) :=
  Next_loop (S (List.length (Lines l))) l.

(** An upper bound on the calls of [Next] that can still return
    [ok = true]: one per byte of text not yet handed out, and one per
    line not yet finished. *)
Definition textLen (ln : text.Line) : nat := List.length (text.Text (text.Layout_ ln)).
Definition remaining (l : t) : nat :=
  if image.Y (pos l) <? go.len (Lines l) then
    (if image.X (pos l) =? 0
     then match nth_error (Lines l) (Z.to_nat (image.Y (pos l))) with
          | Some ln => S (textLen ln)
          | None => 1%nat
          end
     else S (List.length (text.Text (layout l))))
    + list_sum (map (fun ln => S (textLen ln))
                    (skipn (S (Z.to_nat (image.Y (pos l)))) (Lines l)))
  else 0%nat.

(** What a caller's loop [for { .., ok := it.Next(); if !ok { break } .. }]
    sees: the segments returned with [ok = true], up to the call that
    returns [ok = false]. *)
Fixpoint drain (fuel : nat) (l : t) : go.outcome (list ret * t) :=
  match fuel with
  | O => go.OutOfFuel
  | S fuel' =>
    do (r, l1) <- Next l;
    if r_ok r then
      do (rs, l2) <- drain fuel' l1;
      go.Done (r :: rs, l2)
    else go.Done ([], l1)
  end.

End segmentIterator.

(** [func textPadding(lines []text.Line) (padding image.Rectangle)] *)
Definition textPadding (lines : list text.Line) : image.Rectangle :=
  match lines with
  | [] => image.ZR
  | first :: _ =>
    let last := List.last lines first in
    let minY :=
      let d := fixed.add (text.Ascent first) (fixed.Y (fixed.Min (text.Bounds first))) in
      if d <? 0 then fixed.Ceil d else 0 in
    let maxY :=
      let d := fixed.sub (fixed.Y (fixed.Max (text.Bounds last))) (text.Descent last) in
      if d >? 0 then fixed.Ceil d else 0 in
    let minX :=
      let d := fixed.X (fixed.Min (text.Bounds first)) in
      if d <? 0 then fixed.Ceil d else 0 in
    let maxX :=
      let d := fixed.sub (fixed.X (fixed.Max (text.Bounds first))) (text.Width first) in
      if d >? 0 then fixed.Ceil d else 0 in
    image.Rect (image.Pt minX minY) (image.Pt maxX maxY)
  end.

(** [func linesDimens(lines []text.Line) layout.Dimensions] *)
Definition linesDimens (lines : list text.Line) : layout.Dimensions :=
  let '(width, h, baseline) :=
    match lines with
    | [] => (0, 0, 0)
    | first :: _ =>
      let baseline := fixed.Ceil (text.Ascent first) in
      let '(width, h, prevDesc) :=
        fold_left (fun '(width, h, prevDesc) l =>
                     (if text.Width l >? width then text.Width l else width,
                      go.wrap64 (h + fixed.Ceil (fixed.add prevDesc (text.Ascent l))),
                      text.Descent l))
                  lines (0, 0, 0) in
      (width, go.wrap64 (h + fixed.Ceil (text.Descent (List.last lines first))), baseline)
    end in
  layout.mkDimensions (image.Pt (fixed.Ceil width) h) (go.wrap64 (h - baseline)).

(** [func (p Point) Add(q Point) Point] of package image. *)
Definition Point_Add (p q : image.Point) : image.Point :=
  image.Pt (go.wrap64 (image.X p + image.X q)) (go.wrap64 (image.Y p + image.Y q)).

Module Label.
Record t : Type := mk {
  Alignment : text.Alignment;
  MaxLines : Z }.

(** [func (l Label) Layout(gtx, s, font, size, txt)].  [Constrain]
    stands for [gtx.Constraints.Constrain] and [shaped] for the lines
    [s.LayoutString(font, textSize, cs.Max.X, txt)] that the shaper
    returns; the result is the list of the segments handed to the
    shaper and painted, with their offsets, and the dimensions. *)
Definition Layout (l : t) (Constrain : image.Point -> image.Point)
    (shaped : list text.Line)
    : go.outcome (list segmentIterator.ret * layout.Dimensions) :=
  let max := MaxLines l in
  do lines <- (if (max >? 0) && (go.len shaped >? max)
               then go.slice_to shaped max else go.Done shaped);
  let dims := linesDimens lines in
  let dims := layout.mkDimensions (Constrain (layout.Size dims)) (layout.Baseline dims) in
  let cl := textPadding lines in
  let cl := image.Rect (image.Min cl) (Point_Add (image.Max cl) (layout.Size dims)) in
  let it := segmentIterator.new lines cl (Alignment l) (image.X (layout.Size dims))
                                image.ZP image.ZP image.ZP in
  do (drawn, _) <- segmentIterator.drain (S (segmentIterator.remaining it)) it;
  go.Done (drawn, dims).
End Label.

(** ** widget/editor.go *)

Module editBuffer.
(** Modelled from the spec: [editBuffer], the type of the field [rr]
    that holds the contents of the editor; its declaration and its
    methods are not among the sources.  The comments of the editor fix
    what is modelled: [Text] and [Len] give the contents and their
    length, [SetText] replaces the contents, [Insert] puts text at the
    caret and moves the caret past it by adding [len(s)] to [rr.caret]
    after [prepend(s)], so that [prepend] puts [s] at the caret and
    leaves the caret before it.  [caret] is a byte offset. *)
Record t : Type := mk {
  text : go.string;
  caret : Z;
  changed : bool }.

(** Modelled from the spec: the zero value [editBuffer{}], an empty
    buffer with the caret at its start. *)
Definition zero : t := mk [] 0 false.

(** Modelled from the spec: [len], [String] and [prepend] of the
    buffer, as described above. *)
Definition len (e : t) : Z := go.len (text e).
Definition String (e : t) : go.string := text e.
Definition prepend (e : t) (s : go.string) : t :=
  mk (firstn (Z.to_nat (caret e)) (text e) ++ s ++ skipn (Z.to_nat (caret e)) (text e))
     (caret e)
     (changed e || (go.len s >? 0)).
Definition set_caret (e : t) (c : Z) : t := mk (text e) c (changed e).
End editBuffer.

Module maskReader.
(** Where the bytes of a slice live: in the array [maskBuf] of the
    reader, or in the array of a literal [[]byte{'\n'}]. *)
Inductive backing : Type := InMaskBuf | InNewline.
(** The slice [base[lo:hi]]. *)
Record bytes : Type := mkBytes { base : backing; lo : nat; hi : nat }.

Record t : Type := mk {
  rr : list Z;          (* the runes the underlying reader has yet to deliver *)
  maskBuf : list byte;  (* [utf8.UTFMax]byte *)
  mask : bytes;         (* the utf-8 encoded mask rune *)
  overflow : bytes }.   (* excess mask bytes left over after the last Read call *)

Definition nil : bytes := mkBytes InMaskBuf 0 0.
Definition zero : t := mk [] [x00; x00; x00; x00] nil nil.

Definition array (m : t) (b : backing) : list byte :=
  match b with
  | InMaskBuf => maskBuf m
  | InNewline => [x0a]
  end.
Definition contents (m : t) (s : bytes) : list byte :=
  firstn (hi s - lo s) (skipn (lo s) (array m (base s))).
Definition length (m : t) (s : bytes) : nat := List.length (contents m s).

(** [func (m *maskReader) Reset(r io.RuneReader, mr rune)] *)
Definition Reset (m : t) (r : list Z) (mr : Z) : t :=
  let enc := utf8.EncodeRune mr in
  let n := List.length enc in
  mk r (enc ++ skipn n (maskBuf m)) (mkBytes InMaskBuf 0 n) (overflow m).

(** The loop of [Read]: [room] is [len(b)], [out] the bytes copied
    to [b] so far and [err] whether the last [ReadRune] failed. *)
Fixpoint Read_loop (fuel : nat) (m : t) (room : nat) (out : list byte) (err : bool)
    : go.outcome (list byte * bool * t) :=
  match room with
  | O => go.Done (out, err, m)
  | S _ =>
    match fuel with
    | O => go.OutOfFuel
    | S fuel' =>
      let step (m1 : t) (replacement : bytes) (err1 : bool) :=
        let nn := Nat.min room (length m1 replacement) in
        let m2 := mk (rr m1) (maskBuf m1) (mask m1)
                     (mkBytes (base replacement) (lo replacement + nn) (hi replacement)) in
        Read_loop fuel' m2 (room - nn) (out ++ firstn nn (contents m1 replacement)) err1 in
      if (0 <? length m (overflow m))%nat then step m (overflow m) err
      else
        match rr m with
        | [] => go.Done (out, true, m)                          (* err != nil: break *)
        | r :: rest =>
          let m1 := mk rest (maskBuf m) (mask m) (overflow m) in
          step m1 (if r =? 10 then mkBytes InNewline 0 1 else mask m1) false
        end
    end
  end.

(** [func (m *maskReader) Read(b []byte) (n int, err error)], for a
    buffer of [room] bytes: the bytes written to the front of [b]
    (their number is [n]), whether [err] is set, and the reader
    afterwards.  Every pass through the loop fills a byte of [b] or
    takes a rune from the underlying reader. *)
Definition Read (m : t) (room : nat) : go.outcome (list byte * bool * t) :=
  Read_loop (S (room + List.length (rr m))) m room [] false.

(** A caller that reads with buffers of the given sizes, one call
    after the other. *)
Fixpoint Reads (m : t) (rooms : list nat) : go.outcome (list (list byte * bool) * t) :=
  match rooms with
  | [] => go.Done ([], m)
  | room :: rest =>
    do (out, err, m1) <- Read m room;
    do (outs, m2) <- Reads m1 rest;
    go.Done ((out, err) :: outs, m2)
  end.
End maskReader.

(** ** Packages gioui.org/io/pointer and gioui.org/gesture (the
    declarations the editor uses) *)

Module pointer.
(** Modelled from the spec: the event types and sources of package
    [gioui.org/io/pointer], which is not among the sources; the editor
    tells [Press], [Drag] and [Release] and [Mouse] and [Touch] apart. *)
Inductive Type_ : Type := Cancel | Press | Release | Move | Drag | Enter | Leave | Scroll.
Inductive Source : Type := Mouse | Touch.
(** Modelled from the spec: [pointer.Event], with the fields the editor
    reads.  [Position] holds the coordinates after the editor has rounded
    them, [int(math.Round(float64(..)))]. *)
Record Event : Type := mkEvent {
  Type__ : Type_;
  Source_ : Source;
  Position : image.Point }.
End pointer.

Module gesture.
(** Modelled from the spec: the click events of package
    [gioui.org/gesture], which is not among the sources, with the fields
    the editor reads. *)
Inductive ClickType : Type := TypePress | TypeClick | TypeCancel.
Record ClickEvent : Type := mkClickEvent {
  Type__ : ClickType;
  Source_ : pointer.Source;
  Position : image.Point }.
End gesture.

(** [func sortPoints(a, b Point) (a2, b2 Point)] *)
Definition sortPoints (a b : Point.t) : Point.t * Point.t :=
  if Point.Less b a then (b, a) else (a, b).

(** [type EditorEvent interface], with its three implementations. *)
Inductive EditorEvent : Type :=
| ChangeEvent
| SubmitEvent (Text : go.string)
| SelectEvent (Text : go.string).

Module Editor.

(** [type line struct]; the clip path of a shape is determined by
    the layout it was shaped from, which stands for it. *)
Record line : Type := mkLine {
  offset : image.Point;
  clip : text.Layout;
  selected : bool;
  yOffs : Z;
  l_dims : layout.Dimensions }.

Record caret_t : Type := mkCaret {
  on : bool;
  scroll : bool;
  xoff : fixed.Int26_6;   (* offset to the current caret position when moving between lines *)
  c_line : Z;             (* line: the caret line position as an index into lines *)
  col : Z;                (* the caret column measured in runes *)
  c_x : fixed.Int26_6;    (* (x, y) are the caret coordinates *)
  c_y : Z }.

(** [type Editor struct].  The handles to the shaper, the font, the
    clock and the gesture recognisers are left out: what they deliver
    is an argument of the functions that ask them. *)
Record t : Type := mk {
  Alignment : text.Alignment;
  SingleLine : bool;
  Submit : bool;
  Mask : Z;
  focused : bool;
  rr : editBuffer.t;
  maskReader_ : maskReader.t;
  lastMask : Z;
  maxWidth : Z;
  viewSize : image.Point;
  valid : bool;
  lines : list text.Line;
  shapes : list line;
  dims : layout.Dimensions;
  requestFocus : bool;
  caret : caret_t;
  startDrag : Point.t;
  endDrag : Point.t;
  dragging : bool;
  scrollOff : image.Point;
  events : list EditorEvent;
  prevEvents : Z }.

Definition set_rr (e : t) (v_rr : editBuffer.t) : t :=
  mk (Alignment e) (SingleLine e) (Submit e) (Mask e) (focused e) v_rr (maskReader_ e)
     (lastMask e) (maxWidth e) (viewSize e) (valid e) (lines e) (shapes e) (dims e)
     (requestFocus e) (caret e) (startDrag e) (endDrag e) (dragging e) (scrollOff e)
     (events e) (prevEvents e).
Definition set_valid (e : t) (v_valid : bool) : t :=
  mk (Alignment e) (SingleLine e) (Submit e) (Mask e) (focused e) (rr e) (maskReader_ e)
     (lastMask e) (maxWidth e) (viewSize e) v_valid (lines e) (shapes e) (dims e)
     (requestFocus e) (caret e) (startDrag e) (endDrag e) (dragging e) (scrollOff e)
     (events e) (prevEvents e).
Definition set_lines_dims (e : t) (v_lines : list text.Line) (v_dims : layout.Dimensions) : t :=
  mk (Alignment e) (SingleLine e) (Submit e) (Mask e) (focused e) (rr e) (maskReader_ e)
     (lastMask e) (maxWidth e) (viewSize e) (valid e) v_lines (shapes e) v_dims
     (requestFocus e) (caret e) (startDrag e) (endDrag e) (dragging e) (scrollOff e)
     (events e) (prevEvents e).
Definition set_shapes (e : t) (v_shapes : list line) : t :=
  mk (Alignment e) (SingleLine e) (Submit e) (Mask e) (focused e) (rr e) (maskReader_ e)
     (lastMask e) (maxWidth e) (viewSize e) (valid e) (lines e) v_shapes (dims e)
     (requestFocus e) (caret e) (startDrag e) (endDrag e) (dragging e) (scrollOff e)
     (events e) (prevEvents e).
Definition set_requestFocus (e : t) (v_requestFocus : bool) : t :=
  mk (Alignment e) (SingleLine e) (Submit e) (Mask e) (focused e) (rr e) (maskReader_ e)
     (lastMask e) (maxWidth e) (viewSize e) (valid e) (lines e) (shapes e) (dims e)
     v_requestFocus (caret e) (startDrag e) (endDrag e) (dragging e) (scrollOff e)
     (events e) (prevEvents e).
Definition set_caret (e : t) (v_caret : caret_t) : t :=
  mk (Alignment e) (SingleLine e) (Submit e) (Mask e) (focused e) (rr e) (maskReader_ e)
     (lastMask e) (maxWidth e) (viewSize e) (valid e) (lines e) (shapes e) (dims e)
     (requestFocus e) v_caret (startDrag e) (endDrag e) (dragging e) (scrollOff e)
     (events e) (prevEvents e).
Definition set_startDrag_endDrag (e : t) (v_startDrag : Point.t) (v_endDrag : Point.t) : t :=
  mk (Alignment e) (SingleLine e) (Submit e) (Mask e) (focused e) (rr e) (maskReader_ e)
     (lastMask e) (maxWidth e) (viewSize e) (valid e) (lines e) (shapes e) (dims e)
     (requestFocus e) (caret e) v_startDrag v_endDrag (dragging e) (scrollOff e) (events e)
     (prevEvents e).
Definition set_endDrag (e : t) (v_endDrag : Point.t) : t :=
  mk (Alignment e) (SingleLine e) (Submit e) (Mask e) (focused e) (rr e) (maskReader_ e)
     (lastMask e) (maxWidth e) (viewSize e) (valid e) (lines e) (shapes e) (dims e)
     (requestFocus e) (caret e) (startDrag e) v_endDrag (dragging e) (scrollOff e)
     (events e) (prevEvents e).
Definition set_dragging (e : t) (v_dragging : bool) : t :=
  mk (Alignment e) (SingleLine e) (Submit e) (Mask e) (focused e) (rr e) (maskReader_ e)
     (lastMask e) (maxWidth e) (viewSize e) (valid e) (lines e) (shapes e) (dims e)
     (requestFocus e) (caret e) (startDrag e) (endDrag e) v_dragging (scrollOff e)
     (events e) (prevEvents e).
Definition set_scrollOff (e : t) (v_scrollOff : image.Point) : t :=
  mk (Alignment e) (SingleLine e) (Submit e) (Mask e) (focused e) (rr e) (maskReader_ e)
     (lastMask e) (maxWidth e) (viewSize e) (valid e) (lines e) (shapes e) (dims e)
     (requestFocus e) (caret e) (startDrag e) (endDrag e) (dragging e) v_scrollOff
     (events e) (prevEvents e).
Definition set_events (e : t) (v_events : list EditorEvent) : t :=
  mk (Alignment e) (SingleLine e) (Submit e) (Mask e) (focused e) (rr e) (maskReader_ e)
     (lastMask e) (maxWidth e) (viewSize e) (valid e) (lines e) (shapes e) (dims e)
     (requestFocus e) (caret e) (startDrag e) (endDrag e) (dragging e) (scrollOff e)
     v_events (prevEvents e).
Definition set_events_prevEvents (e : t) (v_events : list EditorEvent) (v_prevEvents : Z) : t :=
  mk (Alignment e) (SingleLine e) (Submit e) (Mask e) (focused e) (rr e) (maskReader_ e)
     (lastMask e) (maxWidth e) (viewSize e) (valid e) (lines e) (shapes e) (dims e)
     (requestFocus e) (caret e) (startDrag e) (endDrag e) (dragging e) (scrollOff e)
     v_events v_prevEvents.
Definition set_viewSize (e : t) (v_viewSize : image.Point) : t :=
  mk (Alignment e) (SingleLine e) (Submit e) (Mask e) (focused e) (rr e) (maskReader_ e)
     (lastMask e) (maxWidth e) v_viewSize (valid e) (lines e) (shapes e) (dims e)
     (requestFocus e) (caret e) (startDrag e) (endDrag e) (dragging e) (scrollOff e)
     (events e) (prevEvents e).

Definition set_xoff (c : caret_t) (v : fixed.Int26_6) : caret_t :=
  mkCaret (on c) (scroll c) v (c_line c) (col c) (c_x c) (c_y c).
Definition set_scroll (c : caret_t) (v : bool) : caret_t :=
  mkCaret (on c) v (xoff c) (c_line c) (col c) (c_x c) (c_y c).
Definition set_on (c : caret_t) (v : bool) : caret_t :=
  mkCaret v (scroll c) (xoff c) (c_line c) (col c) (c_x c) (c_y c).

(** The zero value [Editor{}], and [Editor{SingleLine: .., Mask: ..}]. *)
Definition zero : t :=
  mk text.Start false false 0 false editBuffer.zero maskReader.zero 0 0 image.ZP false
     [] [] layout.zero false (mkCaret false false 0 0 0 0 0) image.ZP image.ZP false
     image.ZP [] 0.
Definition configured (singleLine : bool) (mask : Z) : t :=
  mk text.Start singleLine false mask false editBuffer.zero maskReader.zero 0 0 image.ZP false
     [] [] layout.zero false (mkCaret false false 0 0 0 0 0) image.ZP image.ZP false
     image.ZP [] 0.

(** [func (e *Editor) Events() []EditorEvent] *)
Definition Events (e : t) : list EditorEvent * t :=
  let events := events e in
  (events, set_events_prevEvents e [] 0).

(** The first three lines of [processEvents]: flush events from
    before the previous Layout. *)
Definition flushEvents (e : t) : go.outcome t :=
  do rest <- go.slice_from (events e) (prevEvents e);
  let n := go.len rest in
  let copied := rest ++ skipn (List.length rest) (events e) in
  do kept <- go.slice_to copied n;
  go.Done (set_events_prevEvents e kept n).

(** [func (e *Editor) invalidate()] *)
Definition invalidate (e : t) : t := set_valid e false.

(** [strings.ReplaceAll(s, "\n", " ")] *)
Definition ReplaceAll_newline_space (s : go.string) : go.string :=
  map (fun b => if Byte.eqb b x0a then x20 else b) s.

(** [func (e *Editor) prepend(s string)] *)
Definition prepend (e : t) (s : go.string) : t :=
  let s := if SingleLine e then ReplaceAll_newline_space s else s in
  let e := set_rr e (editBuffer.prepend (rr e) s) in
  let e := set_caret e (set_xoff (caret e) 0) in
  invalidate e.

(** [func (e *Editor) append(s string)] *)
Definition append (e : t) (s : go.string) : t :=
  let e := prepend e s in
  set_rr e (editBuffer.set_caret (rr e) (go.wrap64 (editBuffer.caret (rr e) + go.len s))).

(** [func (e *Editor) Insert(s string)] *)
Definition Insert (e : t) (s : go.string) : t :=
  let e := append e s in
  let e := set_caret e (set_scroll (caret e) true) in
  invalidate e.

(** [func (e *Editor) Len() int] *)
Definition Len (e : t) : Z := editBuffer.len (rr e).

(** [func (e *Editor) Text() string] *)
Definition Text (e : t) : go.string := editBuffer.String (rr e).

(** [func (e *Editor) SetText(s string)] *)
Definition SetText (e : t) (s : go.string) : t :=
  let e := set_rr e editBuffer.zero in
  let e := set_caret e (set_xoff (caret e) 0) in
  prepend e s.

(** [func (e *Editor) scrollBounds() image.Rectangle] *)
Definition scrollBounds (e : t) : go.outcome image.Rectangle :=
  if SingleLine e then
    do minX <- match lines e with
               | [] => go.Done 0
               | l0 :: _ =>
                 do a <- align (Alignment e) (text.Width l0) (image.X (viewSize e));
                 let minX := fixed.Floor a in
                 go.Done (if minX >? 0 then 0 else minX)
               end;
    let maxX := go.wrap64 (go.wrap64 (image.X (layout.Size (dims e)) + minX)
                           - image.X (viewSize e)) in
    go.Done (image.Rect (image.Pt minX 0) (image.Pt maxX 0))
  else
    let maxY := go.wrap64 (image.Y (layout.Size (dims e)) - image.Y (viewSize e)) in
    go.Done (image.Rect (image.Pt 0 0) (image.Pt 0 maxY)).

(** [func (e *Editor) scrollAbs(x, y int)] *)
Definition scrollAbs (e : t) (x y : Z) : go.outcome t :=
  let e := set_scrollOff e (image.Pt x y) in
  do b <- scrollBounds e;
  let e := if image.X (scrollOff e) >? image.X (image.Max b)
           then set_scrollOff e (image.Pt (image.X (image.Max b)) (image.Y (scrollOff e)))
           else e in
  let e := if image.X (scrollOff e) <? image.X (image.Min b)
           then set_scrollOff e (image.Pt (image.X (image.Min b)) (image.Y (scrollOff e)))
           else e in
  let e := if image.Y (scrollOff e) >? image.Y (image.Max b)
           then set_scrollOff e (image.Pt (image.X (scrollOff e)) (image.Y (image.Max b)))
           else e in
  let e := if image.Y (scrollOff e) <? image.Y (image.Min b)
           then set_scrollOff e (image.Pt (image.X (scrollOff e)) (image.Y (image.Min b)))
           else e in
  go.Done e.

(** [func (e *Editor) scrollRel(dx, dy int)] *)
Definition scrollRel (e : t) (dx dy : Z) : go.outcome t :=
  scrollAbs e (go.wrap64 (image.X (scrollOff e) + dx)) (go.wrap64 (image.Y (scrollOff e) + dy)).

(** The loop [for i := e.startDrag.Y + 1; i < e.endDrag.Y; i++] of
    [processPointer], writing whole lines to the builder [b]. *)
Fixpoint writeLines (lines : list text.Line) (i : Z) (count : nat) (b : go.string)
    : go.outcome go.string :=
  match count with
  | O => go.Done b
  | S count' =>
    do ln <- go.index lines i;
    writeLines lines (i + 1) count' (b ++ text.Text (text.Layout_ ln))
  end.

(** Lines 294 to 305 of [processPointer]: grab the selected text. *)
Definition selection (e : t) : go.outcome go.string :=
  let a := startDrag e in
  let b := endDrag e in
  if image.Y a =? image.Y b then
    do ln <- go.index (lines e) (image.Y a);
    go.slice (text.Text (text.Layout_ ln)) (image.X a) (image.X b)
  else
    do ln <- go.index (lines e) (image.Y a);
    do s0 <- go.slice_from (text.Text (text.Layout_ ln)) (image.X a);
    do s1 <- writeLines (lines e) (image.Y a + 1)
                        (Z.to_nat (image.Y b - (image.Y a + 1))) s0;
    do ln <- go.index (lines e) (image.Y b);
    do s2 <- go.slice_to (text.Text (text.Layout_ ln)) (image.X b);
    go.Done (s1 ++ s2).

Section Pointer.
(** [func (e *Editor) moveCoord(pos image.Point)] moves the caret to
    the rune nearest to [pos].  It lays the text out again when the
    layout is not valid, which is the shaper's work, and it walks
    the buffer rune by rune; the handlers below take it as given. *)
Variable moveCoord : t -> image.Point -> go.outcome t.

Definition caretPoint (e : t) : Point.t := image.Pt (col (caret e)) (c_line (caret e)).

(** Lines 281 to 312: what the release of the mouse does once
    [moveCoord] has moved the caret. *)
Definition released (e : t) : go.outcome t :=
  let e := set_endDrag e (caretPoint e) in
  let e := set_caret e (set_scroll (caret e) true) in
  let e := set_dragging e false in
  (* If they dragged back to where they started, abort. *)
  if Point.eqb (startDrag e) (endDrag e) then go.Done e
  else
    (* Start must be <= end. *)
    let '(a, b) := sortPoints (startDrag e) (endDrag e) in
    let e := set_startDrag_endDrag e a b in
    do sel <- selection e;
    match sel with
    | [] => go.Done e
    | _ :: _ => go.Done (set_events e (events e ++ [SelectEvent sel]))
    end.

(** The body of the loop over [e.dragger.Events(..)]. *)
Definition dragEvent (e : t) (evt : pointer.Event) : go.outcome t :=
  match pointer.Type__ evt, pointer.Source_ evt with
  | pointer.Press, pointer.Mouse =>
    if dragging e then go.Done e
    else
      let e := set_startDrag_endDrag e (caretPoint e) (caretPoint e) in
      go.Done (set_dragging e true)
  | pointer.Drag, pointer.Mouse =>
    if negb (dragging e) then go.Done e
    else
      do e <- moveCoord e (pointer.Position evt);
      let e := set_endDrag e (caretPoint e) in
      go.Done (set_caret e (set_scroll (caret e) true))
  | pointer.Release, pointer.Mouse =>
    if negb (dragging e) then go.Done e
    else
      do e <- moveCoord e (pointer.Position evt);
      released e
  | _, _ => go.Done e
  end.

(** The body of the loop over [e.clicker.Events(gtx)]; [flinging]
    is [e.scroller.State() == gesture.StateFlinging]. *)
Definition clickEvent (flinging : bool) (e : t) (evt : gesture.ClickEvent) : go.outcome t :=
  match gesture.Type__ evt, gesture.Source_ evt with
  | gesture.TypePress, pointer.Mouse
  | gesture.TypeClick, pointer.Touch =>
    do e <- moveCoord e (gesture.Position evt);
    let e := set_requestFocus e true in
    go.Done (if negb flinging then set_caret e (set_scroll (caret e) true) else e)
  | _, _ => go.Done e
  end.

Fixpoint forEach {A : Type} (f : t -> A -> go.outcome t) (e : t) (xs : list A)
    : go.outcome t :=
  match xs with
  | [] => go.Done e
  | x :: rest => do e <- f e x; forEach f e rest
  end.

(** [func (e *Editor) processPointer(gtx layout.Context)], given
    what the gesture recognisers report in this frame: the scroll
    distance, the clicks and the drag events. *)
Definition processPointer (sdist : Z) (flinging : bool)
    (clicks : list gesture.ClickEvent) (drags : list pointer.Event) (e : t)
    : go.outcome t :=
  do _ <- scrollBounds e;
  do e <- (if SingleLine e then scrollRel e sdist 0 else scrollRel e 0 sdist);
  do e <- forEach (clickEvent flinging) e clicks;
  forEach dragEvent e drags.
End Pointer.

Section Layout.
(** [func (e *Editor) makeValid()] lays the text out again when the
    layout is not valid; the lines are the shaper's. *)
Variable makeValid : t -> go.outcome t.

(** [func (e *Editor) scrollToCaret()] *)
Definition scrollToCaret (e : t) : go.outcome t :=
  do e <- makeValid e;
  do l <- go.index (lines e) (c_line (caret e));
  if SingleLine e then
    let d1 := go.wrap64 (fixed.Floor (c_x (caret e)) - image.X (scrollOff e)) in
    let d2 := go.wrap64 (fixed.Ceil (c_x (caret e))
                         - go.wrap64 (image.X (scrollOff e) + image.X (viewSize e))) in
    let dist := if d1 <? 0 then d1 else if d2 >? 0 then d2 else 0 in
    scrollRel e dist 0
  else
    let miny := go.wrap64 (c_y (caret e) - fixed.Ceil (text.Ascent l)) in
    let maxy := go.wrap64 (c_y (caret e) + fixed.Ceil (text.Descent l)) in
    let d1 := go.wrap64 (miny - image.Y (scrollOff e)) in
    let d2 := go.wrap64 (maxy - go.wrap64 (image.Y (scrollOff e) + image.Y (viewSize e))) in
    let dist := if d1 <? 0 then d1 else if d2 >? 0 then d2 else 0 in
    scrollRel e 0 dist.

(** [func (e *Editor) layout(gtx layout.Context) layout.Dimensions];
    [blinkOn] is what the clock decides for a focused editor,
    [!blinking || dt%timePerBlink < timePerBlink/2]. *)
Definition layout (blinkOn : bool) (e : t) : go.outcome (layout.Dimensions * t) :=
  (* Adjust scrolling for new viewport and layout. *)
  do e <- scrollRel e 0 0;
  do e <- (if scroll (caret e)
           then scrollToCaret (set_caret e (set_scroll (caret e) false))
           else go.Done e);
  let off := image.Pt (go.wrap64 (- image.X (scrollOff e)))
                      (go.wrap64 (- image.Y (scrollOff e))) in
  let clip := textPadding (lines e) in
  let clip := image.Rect (image.Min clip) (Point_Add (image.Max clip) (viewSize e)) in
  let '(startSel, endSel) := sortPoints (startDrag e) (endDrag e) in
  let it := segmentIterator.new (lines e) clip (Alignment e) (image.X (viewSize e))
                                off startSel endSel in
  do (segs, _) <- segmentIterator.drain (S (segmentIterator.remaining it)) it;
  let e := set_shapes e
             (map (fun r => mkLine (segmentIterator.r_off r) (segmentIterator.r_layout r)
                                   (segmentIterator.r_selected r) (segmentIterator.r_yOffs r)
                                   (segmentIterator.r_dims r)) segs) in
  let e := set_requestFocus e false in
  let e := set_caret e (set_on (caret e) (focused e && blinkOn)) in
  go.Done (layout.mkDimensions (viewSize e) (layout.Baseline (dims e)), e).
End Layout.

Definition set_c_line (c : caret_t) (v : Z) : caret_t :=
  mkCaret (on c) (scroll c) (xoff c) v (col c) (c_x c) (c_y c).
Definition set_col (c : caret_t) (v : Z) : caret_t :=
  mkCaret (on c) (scroll c) (xoff c) (c_line c) v (c_x c) (c_y c).
Definition set_c_x (c : caret_t) (v : fixed.Int26_6) : caret_t :=
  mkCaret (on c) (scroll c) (xoff c) (c_line c) (col c) v (c_y c).
Definition set_c_y (c : caret_t) (v : Z) : caret_t :=
  mkCaret (on c) (scroll c) (xoff c) (c_line c) (col c) (c_x c) v.

(** [e.maskReader = v] *)
Definition set_maskReader (e : t) (v : maskReader.t) : t :=
  mk (Alignment e) (SingleLine e) (Submit e) (Mask e) (focused e) (rr e) v
     (lastMask e) (maxWidth e) (viewSize e) (valid e) (lines e) (shapes e) (dims e)
     (requestFocus e) (caret e) (startDrag e) (endDrag e) (dragging e) (scrollOff e)
     (events e) (prevEvents e).

(** [e.rr.caret = v] *)
Definition set_rr_caret (e : t) (v : Z) : t := set_rr e (editBuffer.set_caret (rr e) v).

Section Caret.
(** [e.rr.runeAt(idx)] and [e.rr.runeBefore(idx)]: the rune that
    starts, and the rune that ends, at the byte offset [idx] of the
    buffer, each with its size in bytes.  The editor moves the caret by
    these sizes; the functions below take the two lookups as given. *)
Variable runeAt : editBuffer.t -> Z -> Z * Z.
Variable runeBefore : editBuffer.t -> Z -> Z * Z.
(** Lines 681 to 692 of [layoutText]: the lines that the shaper
    returns, [s.Layout(e.font, e.textSize, e.maxWidth, r)], or
    [nullLayout(r)] where there is no shaper, for the text of the editor
    as the reader [r] delivers it, masked when [e.Mask] is not zero. *)
Variable shape : t -> list text.Line.
(** The mask reader as these lines leave it where [e.Mask] is not zero:
    reset on the buffer, [e.maskReader.Reset(&e.rr, e.Mask)], and read
    by the shaper or by [nullLayout]. *)
Variable reader : t -> maskReader.t.

(** The loop of lines 694 to 704 of [layoutText]: to avoid layout
    flickering while editing, assume a soft newline takes up all
    available space. *)
Fixpoint layoutText_soft (maxWidth : Z) (lines : list text.Line) (dims : layout.Dimensions)
    : go.outcome layout.Dimensions :=
  match lines with
  | [] => go.Done dims
  | l :: rest =>
    match rest with
    | [] => go.Done dims                                   (* i < len(lines)-1 *)
    | _ :: _ =>
      let txt := text.Text (text.Layout_ l) in
      if go.len txt >? 0 then
        do r <- go.index txt (go.len txt - 1);
        if negb (Byte.eqb r x0a) then
          go.Done (layout.mkDimensions (image.Pt maxWidth (image.Y (layout.Size dims)))
                                       (layout.Baseline dims))       (* break *)
        else layoutText_soft maxWidth rest dims
      else layoutText_soft maxWidth rest dims
    end
  end.

(** [func (e *Editor) layoutText(s text.Shaper) ([]text.Line, layout.Dimensions)].
    The result holds, beside the two values returned, the editor as the
    call leaves it.  [e.rr.Reset()] and the reads through [&e.rr] move
    the place in the buffer from which it is read, which is no part of
    the buffer as modelled at [editBuffer]: what is said below of the
    editor after a layout is said of the fields modelled, and nothing of
    that place. *)
Definition layoutText (e : t) : go.outcome (list text.Line * layout.Dimensions * t) :=
  let lines := shape e in
  let e := if negb (Mask e =? 0) then set_maskReader e (reader e) else e in
  let dims := linesDimens lines in
  do dims <- layoutText_soft (maxWidth e) lines dims;
  go.Done (lines, dims, e).

(** The loop over the advances of a line in [layoutCaret]; the first
    component of the result tells whether it ended in [break loop]. *)
Fixpoint layoutCaret_line (advances : list fixed.Int26_6) (e : t) (idx col : Z)
    (x : fixed.Int26_6) : bool * Z * Z * fixed.Int26_6 :=
  match advances with
  | [] => (false, idx, col, x)
  | adv :: rest =>
    if idx =? editBuffer.caret (rr e) then (true, idx, col, x)
    else
      let x := fixed.add x adv in
      let s := snd (runeAt (rr e) idx) in
      layoutCaret_line rest e (go.wrap64 (idx + s)) (col + 1) x
  end.

(** The loop [loop: for { .. }] of [layoutCaret]; its body is entered
    once for each line it passes. *)
Fixpoint layoutCaret_loop (fuel : nat) (e : t) (line idx : Z) (prevDesc : fixed.Int26_6)
    (y : Z) : go.outcome (Z * Z * fixed.Int26_6 * Z) :=
  match fuel with
  | O => go.OutOfFuel
  | S fuel' =>
    do l <- go.index (lines e) line;
    let y := go.wrap64 (y + fixed.Ceil (fixed.add prevDesc (text.Ascent l))) in
    let prevDesc := text.Descent l in
    let '(found, idx, col, x) :=
      layoutCaret_line (text.Advances (text.Layout_ l)) e idx 0 0 in
    if found then go.Done (line, col, x, y)
    else if (line =? go.len (lines e) - 1) || (idx >? editBuffer.caret (rr e))
    then go.Done (line, col, x, y)
    else layoutCaret_loop fuel' e (line + 1) idx prevDesc y
  end.

(** [func (e *Editor) layoutCaret() (line, col int, x fixed.Int26_6, y int)] *)
Definition layoutCaret (e : t) : go.outcome (Z * Z * fixed.Int26_6 * Z) :=
  do (line, col, x, y) <- layoutCaret_loop (S (List.length (lines e))) e 0 0 0 0;
  do l <- go.index (lines e) line;
  do a <- align (Alignment e) (text.Width l) (image.X (viewSize e));
  go.Done (line, col, fixed.add x a, y).

(** [func (e *Editor) makeValid()] *)
Definition makeValid (e : t) : go.outcome t :=
  if valid e then go.Done e
  else
    do (lines, dims, e) <- layoutText e;
    let e := set_lines_dims e lines dims in
    do (line, col, x, y) <- layoutCaret e;
    let e := set_caret e (set_c_line (caret e) line) in
    let e := set_caret e (set_col (caret e) col) in
    let e := set_caret e (set_c_x (caret e) x) in
    let e := set_caret e (set_c_y (caret e) y) in
    go.Done (set_valid e true).

(** The loop [for i := e.caret.col - 1; i >= 0; i--] of [moveStart]. *)
Fixpoint moveStart_loop (count : nat) (advances : list fixed.Int26_6) (i : Z) (e : t)
    : go.outcome t :=
  match count with
  | O => go.Done e
  | S count' =>
    let s := snd (runeBefore (rr e) (editBuffer.caret (rr e))) in
    let e := set_rr_caret e (go.wrap64 (editBuffer.caret (rr e) - s)) in
    do adv <- go.index advances i;
    let e := set_caret e (set_c_x (caret e) (fixed.sub (c_x (caret e)) adv)) in
    moveStart_loop count' advances (i - 1) e
  end.

(** [func (e *Editor) moveStart()] *)
Definition moveStart (e : t) : go.outcome t :=
  do e <- makeValid e;
  do l <- go.index (lines e) (c_line (caret e));
  let layout := text.Layout_ l in
  do e <- moveStart_loop (Z.to_nat (col (caret e))) (text.Advances layout)
                         (col (caret e) - 1) e;
  let e := set_caret e (set_col (caret e) 0) in
  go.Done (set_caret e (set_xoff (caret e) (go.wrap32 (- c_x (caret e))))).

(** The loop [for i := e.caret.col; i < len(layout.Advances)-end; i++]
    of [moveEnd]. *)
Fixpoint moveEnd_loop (count : nat) (advances : list fixed.Int26_6) (i : Z) (e : t)
    : go.outcome t :=
  match count with
  | O => go.Done e
  | S count' =>
    do adv <- go.index advances i;
    let s := snd (runeAt (rr e) (editBuffer.caret (rr e))) in
    let e := set_rr_caret e (go.wrap64 (editBuffer.caret (rr e) + s)) in
    let e := set_caret e (set_c_x (caret e) (fixed.add (c_x (caret e)) adv)) in
    let e := set_caret e (set_col (caret e) (col (caret e) + 1)) in
    moveEnd_loop count' advances (i + 1) e
  end.

(** Only move past the end of the last line: [end] is 1 on every
    other line. *)
Definition lineEnd (e : t) (line : Z) : Z :=
  if line <? go.len (lines e) - 1 then 1 else 0.

(** [func (e *Editor) moveEnd()] *)
Definition moveEnd (e : t) : go.outcome t :=
  do e <- makeValid e;
  do l <- go.index (lines e) (c_line (caret e));
  let end_ := lineEnd e (c_line (caret e)) in
  let layout := text.Layout_ l in
  do e <- moveEnd_loop
            (Z.to_nat (go.len (text.Advances layout) - end_ - col (caret e)))
            (text.Advances layout) (col (caret e)) e;
  do a <- align (Alignment e) (text.Width l) (image.X (viewSize e));
  go.Done (set_caret e (set_xoff (caret e)
                          (fixed.sub (fixed.add (text.Width l) a) (c_x (caret e))))).

(** The loop [for e.caret.line < line] of [moveToLine], with
    [prevDesc]. *)
Fixpoint moveToLine_down (fuel : nat) (line : Z) (prevDesc : fixed.Int26_6) (e : t)
    : go.outcome (fixed.Int26_6 * t) :=
  if c_line (caret e) <? line then
    match fuel with
    | O => go.OutOfFuel
    | S fuel' =>
      do e <- moveEnd e;
      do l <- go.index (lines e) (c_line (caret e));
      let s := snd (runeAt (rr e) (editBuffer.caret (rr e))) in
      let e := set_rr_caret e (go.wrap64 (editBuffer.caret (rr e) + s)) in
      let e := set_caret e
                 (set_c_y (caret e)
                    (go.wrap64 (c_y (caret e) + fixed.Ceil (fixed.add prevDesc (text.Ascent l))))) in
      let e := set_caret e (set_col (caret e) 0) in
      let prevDesc := text.Descent l in
      let e := set_caret e (set_c_line (caret e) (c_line (caret e) + 1)) in
      moveToLine_down fuel' line prevDesc e
    end
  else go.Done (prevDesc, e).

(** The loop [for e.caret.line > line] of [moveToLine]. *)
Fixpoint moveToLine_up (fuel : nat) (line : Z) (prevDesc : fixed.Int26_6) (e : t)
    : go.outcome (fixed.Int26_6 * t) :=
  if c_line (caret e) >? line then
    match fuel with
    | O => go.OutOfFuel
    | S fuel' =>
      do e <- moveStart e;
      do l <- go.index (lines e) (c_line (caret e));
      let s := snd (runeBefore (rr e) (editBuffer.caret (rr e))) in
      let e := set_rr_caret e (go.wrap64 (editBuffer.caret (rr e) - s)) in
      let e := set_caret e
                 (set_c_y (caret e)
                    (go.wrap64 (c_y (caret e) - fixed.Ceil (fixed.add prevDesc (text.Ascent l))))) in
      let prevDesc := text.Descent l in
      let e := set_caret e (set_c_line (caret e) (c_line (caret e) - 1)) in
      do l <- go.index (lines e) (c_line (caret e));
      let e := set_caret e (set_col (caret e) (go.len (text.Advances (text.Layout_ l)) - 1)) in
      moveToLine_up fuel' line prevDesc e
    end
  else go.Done (prevDesc, e).

(** The last loop of [moveToLine]: move to rune closest to [x].
    [advances] are the advances [l.Layout.Advances[i]] for [i] below
    [len(l.Layout.Advances)-end]. *)
Fixpoint moveToLine_closest (advances : list fixed.Int26_6) (x : fixed.Int26_6) (e : t) : t :=
  match advances with
  | [] => e
  | adv :: rest =>
    if c_x (caret e) >=? x then e
    else if fixed.sub (fixed.add (c_x (caret e)) adv) x >=? fixed.sub x (c_x (caret e)) then e
    else
      let e := set_caret e (set_c_x (caret e) (fixed.add (c_x (caret e)) adv)) in
      let s := snd (runeAt (rr e) (editBuffer.caret (rr e))) in
      let e := set_rr_caret e (go.wrap64 (editBuffer.caret (rr e) + s)) in
      let e := set_caret e (set_col (caret e) (col (caret e) + 1)) in
      moveToLine_closest rest x e
  end.

(** [func (e *Editor) moveToLine(x fixed.Int26_6, line int)].  The
    loops over the lines step the caret line by one, up to the line asked
    for. *)
Definition moveToLine (e : t) (x : fixed.Int26_6) (line : Z) : go.outcome t :=
  do e <- makeValid e;
  let line := if line <? 0 then 0 else line in
  let line := if line >=? go.len (lines e) then go.len (lines e) - 1 else line in
  do l <- go.index (lines e) line;
  let prevDesc := text.Descent l in
  do (prevDesc, e) <- moveToLine_down (Z.to_nat (line - c_line (caret e))) line prevDesc e;
  do (_, e) <- moveToLine_up (Z.to_nat (c_line (caret e) - line)) line prevDesc e;
  do e <- moveStart e;
  do l <- go.index (lines e) line;
  do a <- align (Alignment e) (text.Width l) (image.X (viewSize e));
  let e := set_caret e (set_c_x (caret e) a) in
  let end_ := lineEnd e line in
  let advances := text.Advances (text.Layout_ l) in
  let e := moveToLine_closest (firstn (Z.to_nat (go.len advances - end_)) advances) x e in
  go.Done (set_caret e (set_xoff (caret e) (fixed.sub x (c_x (caret e))))).

(** [func (e *Editor) moveLines(distance int)] *)
Definition moveLines (e : t) (distance : Z) : go.outcome t :=
  moveToLine e (fixed.add (c_x (caret e)) (xoff (caret e)))
             (go.wrap64 (c_line (caret e) + distance)).

(** The loop [for ; distance < 0 && e.rr.caret > 0; distance++] of
    [Move]; [count] is what is left of the distance. *)
Fixpoint Move_backward (count : nat) (e : t) : go.outcome t :=
  match count with
  | O => go.Done e
  | S count' =>
    if editBuffer.caret (rr e) >? 0 then
      if col (caret e) =? 0 then
        (* Move to end of previous line. *)
        do e <- moveToLine e (fixed.I (maxWidth e)) (c_line (caret e) - 1);
        Move_backward count' e
      else
        do ln <- go.index (lines e) (c_line (caret e));
        let l := text.Layout_ ln in
        let s := snd (runeBefore (rr e) (editBuffer.caret (rr e))) in
        let e := set_rr_caret e (go.wrap64 (editBuffer.caret (rr e) - s)) in
        let e := set_caret e (set_col (caret e) (col (caret e) - 1)) in
        do adv <- go.index (text.Advances l) (col (caret e));
        let e := set_caret e (set_c_x (caret e) (fixed.sub (c_x (caret e)) adv)) in
        Move_backward count' e
    else go.Done e
  end.

(** The loop [for ; distance > 0 && e.rr.caret < e.rr.len(); distance--]
    of [Move]. *)
Fixpoint Move_forward (count : nat) (e : t) : go.outcome t :=
  match count with
  | O => go.Done e
  | S count' =>
    if editBuffer.caret (rr e) <? editBuffer.len (rr e) then
      do ln <- go.index (lines e) (c_line (caret e));
      let l := text.Layout_ ln in
      let end_ := lineEnd e (c_line (caret e)) in
      if col (caret e) >=? go.len (text.Advances l) - end_ then
        (* Move to start of next line. *)
        do e <- moveToLine e 0 (c_line (caret e) + 1);
        Move_forward count' e
      else
        do adv <- go.index (text.Advances l) (col (caret e));
        let e := set_caret e (set_c_x (caret e) (fixed.add (c_x (caret e)) adv)) in
        let s := snd (runeAt (rr e) (editBuffer.caret (rr e))) in
        let e := set_rr_caret e (go.wrap64 (editBuffer.caret (rr e) + s)) in
        let e := set_caret e (set_col (caret e) (col (caret e) + 1)) in
        Move_forward count' e
    else go.Done e
  end.

(** [func (e *Editor) Move(distance int)] *)
Definition Move (e : t) (distance : Z) : go.outcome t :=
  do e <- makeValid e;
  do e <- Move_backward (Z.to_nat (- distance)) e;
  do e <- Move_forward (Z.to_nat distance) e;
  go.Done (set_caret e (set_xoff (caret e) 0)).

(** The loop [for i := 1; i < len(e.lines); i++] of [movePages], over
    the lines after the first. *)
Fixpoint movePages_line (rest : list text.Line) (y : Z) (prevDesc : fixed.Int26_6)
    (carLine2 y2 : Z) : Z :=
  match rest with
  | [] => carLine2
  | l :: rest' =>
    if y2 >=? y then carLine2
    else
      let h := fixed.Ceil (fixed.add prevDesc (text.Ascent l)) in
      let prevDesc := text.Descent l in
      if go.wrap64 (go.wrap64 (y2 + h) - y) >=? go.wrap64 (y - y2) then carLine2
      else movePages_line rest' y prevDesc (carLine2 + 1) (go.wrap64 (y2 + h))
  end.

(** [func (e *Editor) movePages(pages int)] *)
Definition movePages (e : t) (pages : Z) : go.outcome t :=
  do e <- makeValid e;
  let y := go.wrap64 (c_y (caret e) + go.wrap64 (pages * image.Y (viewSize e))) in
  do l0 <- go.index (lines e) 0;
  let y2 := fixed.Ceil (text.Ascent l0) in
  let carLine2 := movePages_line (tl (lines e)) y 0 0 y2 in
  moveToLine e (fixed.add (c_x (caret e)) (xoff (caret e))) carLine2.

(** The loop [for _, l := range e.lines] of [moveCoord]: the line
    whose bottom is at or below [target], counted from the top. *)
Fixpoint moveCoord_line (lines : list text.Line) (target : Z) (prevDesc : fixed.Int26_6)
    (carLine y : Z) : Z :=
  match lines with
  | [] => carLine
  | l :: rest =>
    let y := go.wrap64 (y + fixed.Ceil (fixed.add prevDesc (text.Ascent l))) in
    let prevDesc := text.Descent l in
    if go.wrap64 (y + fixed.Ceil prevDesc) >=? target then carLine
    else moveCoord_line rest target prevDesc (carLine + 1) y
  end.

(** [func (e *Editor) moveCoord(pos image.Point)] *)
Definition moveCoord (e : t) (pos : image.Point) : go.outcome t :=
  let carLine := moveCoord_line (lines e) (go.wrap64 (image.Y pos + image.Y (scrollOff e)))
                                0 0 0 in
  let x := fixed.I (go.wrap64 (image.X pos + image.X (scrollOff e))) in
  do e <- moveToLine e x carLine;
  go.Done (set_caret e (set_xoff (caret e) 0)).

(** [func (e *Editor) CaretPos() (line, col int)] *)
Definition CaretPos (e : t) : go.outcome (Z * Z * t) :=
  do e <- makeValid e;
  go.Done (c_line (caret e), col (caret e), e).

(** [func (e *Editor) NumLines() int] *)
Definition NumLines (e : t) : go.outcome (Z * t) :=
  do e <- makeValid e;
  go.Done (go.len (lines e), e).
End Caret.

End Editor.

(** The loop of [nullLayout]: [n] counts the bytes read and [buf]
    collects the runes.  [reads] are the runes and the sizes that the
    calls of [rr.ReadRune()] return without an error and [last] is what
    the call that fails returns beside its error: its rune is written
    like the others before the error is looked at. *)
Fixpoint nullLayout_loop (reads : list (Z * nat)) (last : Z * nat) (n : Z) (buf : go.string)
    : Z * go.string :=
  match reads with
  | [] =>                                                        (* err != nil: break *)
    (go.wrap64 (n + Z.of_nat (snd last)), buf ++ utf8.EncodeRune (fst last))
  | (r, s) :: rest =>
    nullLayout_loop rest last (go.wrap64 (n + Z.of_nat s)) (buf ++ utf8.EncodeRune r)
  end.

(** [func nullLayout(r io.Reader) ([]text.Line, error)]; the error
    returned is the one that ended the loop.  [make] panics on a
    negative length: there is no result then. *)
Definition nullLayout (reads : list (Z * nat)) (last : Z * nat) : option (list text.Line) :=
  let '(n, buf) := nullLayout_loop reads last 0 [] in
  if n <? 0 then None
  else Some [ text.mkLine (text.mkLayout buf (repeat 0 (Z.to_nat n))) 0 0 0
                          (fixed.Rect (fixed.Pt 0 0) (fixed.Pt 0 0)) ].

(** ** app/internal/window/os_android.c *)

(** The C functions of the shim call into the Java virtual machine
    through the function tables of [JavaVM] and [JNIEnv].  Such a call
    is an event [JNI R] that the virtual machine answers with an [R],
    and a C function is the interaction tree of the calls it makes.
    Pointers, references and IDs are machine words; a [jfloat] is
    carried by its 32 bits. *)
Module jni.
Import ITree.ITree.

Definition ptr : Type := Z.
Definition jint : Type := Z.
Definition jsize : Type := Z.
Definition jfloat : Type := Z.
Definition jobject : Type := Z.
Definition jclass : Type := Z.
Definition jmethodID : Type := Z.
Definition jbyteArray : Type := Z.
Definition jstring : Type := Z.

Definition NULL : ptr := 0.
(** [#define JNI_ABORT 2] of jni.h. *)
Definition JNI_ABORT : jint := 2.

(** The entries of the two function tables that the shim uses, with
    the arguments of a call. *)
Variant JNI : Type -> Type :=
| GetEnv (vm : ptr) (env : ptr) (version : jint) : JNI jint
| GetJavaVM (env : ptr) (jvm : ptr) : JNI jint
| AttachCurrentThread (vm : ptr) (p_env : ptr) (thr_args : ptr) : JNI jint
| DetachCurrentThread (vm : ptr) : JNI jint
| NewGlobalRef (env : ptr) (obj : jobject) : JNI jobject
| DeleteGlobalRef (env : ptr) (obj : jobject) : JNI unit
| GetObjectClass (env : ptr) (obj : jobject) : JNI jclass
| GetMethodID (env : ptr) (clazz : jclass) (name : ptr) (sig : ptr) : JNI jmethodID
| GetStaticMethodID (env : ptr) (clazz : jclass) (name : ptr) (sig : ptr) : JNI jmethodID
| CallFloatMethod (env : ptr) (obj : jobject) (methodID : jmethodID) : JNI jfloat
| CallIntMethod (env : ptr) (obj : jobject) (methodID : jmethodID) : JNI jint
| CallVoidMethodA (env : ptr) (obj : jobject) (methodID : jmethodID) (args : ptr) : JNI unit
| GetByteArrayElements (env : ptr) (arr : jbyteArray) (isCopy : ptr) : JNI ptr
| ReleaseByteArrayElements (env : ptr) (arr : jbyteArray) (bytes : ptr) (mode : jint) : JNI unit
| GetArrayLength (env : ptr) (arr : jbyteArray) : JNI jsize
| NewString (env : ptr) (unicodeChars : ptr) (len : jsize) : JNI jstring.

(** [return f(..);] and, in a function returning void, [f(..);]. *)
Definition ret_call {R : Type} (c : JNI R) : itree JNI R :=
  ITree.bind (ITree.trigger c) (fun r => Ret r).
Definition void_call (c : JNI unit) : itree JNI unit :=
  ITree.bind (ITree.trigger c) (fun _ => Ret tt).

Definition gio_jni_GetEnv (vm env : ptr) (version : jint) : itree JNI jint :=
  ret_call (GetEnv vm env version).
Definition gio_jni_GetJavaVM (env jvm : ptr) : itree JNI jint :=
  ret_call (GetJavaVM env jvm).
Definition gio_jni_AttachCurrentThread (vm p_env thr_args : ptr) : itree JNI jint :=
  ret_call (AttachCurrentThread vm p_env thr_args).
Definition gio_jni_DetachCurrentThread (vm : ptr) : itree JNI jint :=
  ret_call (DetachCurrentThread vm).
Definition gio_jni_NewGlobalRef (env : ptr) (obj : jobject) : itree JNI jobject :=
  ret_call (NewGlobalRef env obj).
Definition gio_jni_DeleteGlobalRef (env : ptr) (obj : jobject) : itree JNI unit :=
  void_call (DeleteGlobalRef env obj).
Definition gio_jni_GetObjectClass (env : ptr) (obj : jobject) : itree JNI jclass :=
  ret_call (GetObjectClass env obj).
Definition gio_jni_GetMethodID (env : ptr) (clazz : jclass) (name sig : ptr)
  : itree JNI jmethodID :=
  ret_call (GetMethodID env clazz name sig).
Definition gio_jni_GetStaticMethodID (env : ptr) (clazz : jclass) (name sig : ptr)
  : itree JNI jmethodID :=
  ret_call (GetStaticMethodID env clazz name sig).
Definition gio_jni_CallFloatMethod (env : ptr) (obj : jobject) (methodID : jmethodID)
  : itree JNI jfloat :=
  ret_call (CallFloatMethod env obj methodID).
Definition gio_jni_CallIntMethod (env : ptr) (obj : jobject) (methodID : jmethodID)
  : itree JNI jint :=
  ret_call (CallIntMethod env obj methodID).
Definition gio_jni_CallVoidMethod (env : ptr) (obj : jobject) (methodID : jmethodID)
    (args : ptr) : itree JNI unit :=
  void_call (CallVoidMethodA env obj methodID args).
Definition gio_jni_GetByteArrayElements (env : ptr) (arr : jbyteArray) : itree JNI ptr :=
  ret_call (GetByteArrayElements env arr NULL).
Definition gio_jni_ReleaseByteArrayElements (env : ptr) (arr : jbyteArray) (bytes : ptr)
  : itree JNI unit :=
  void_call (ReleaseByteArrayElements env arr bytes JNI_ABORT).
Definition gio_jni_GetArrayLength (env : ptr) (arr : jbyteArray) : itree JNI jsize :=
  ret_call (GetArrayLength env arr).
Definition gio_jni_NewString (env : ptr) (unicodeChars : ptr) (len : jsize)
  : itree JNI jstring :=
  ret_call (NewString env unicodeChars len).

(** The functions the file exports, each with the arguments of a
    call to it. *)
Variant gio : Type -> Type :=
| c_GetEnv (vm env : ptr) (version : jint) : gio jint
| c_GetJavaVM (env jvm : ptr) : gio jint
| c_AttachCurrentThread (vm p_env thr_args : ptr) : gio jint
| c_DetachCurrentThread (vm : ptr) : gio jint
| c_NewGlobalRef (env : ptr) (obj : jobject) : gio jobject
| c_DeleteGlobalRef (env : ptr) (obj : jobject) : gio unit
| c_GetObjectClass (env : ptr) (obj : jobject) : gio jclass
| c_GetMethodID (env : ptr) (clazz : jclass) (name sig : ptr) : gio jmethodID
| c_GetStaticMethodID (env : ptr) (clazz : jclass) (name sig : ptr) : gio jmethodID
| c_CallFloatMethod (env : ptr) (obj : jobject) (methodID : jmethodID) : gio jfloat
| c_CallIntMethod (env : ptr) (obj : jobject) (methodID : jmethodID) : gio jint
| c_CallVoidMethod (env : ptr) (obj : jobject) (methodID : jmethodID) (args : ptr) : gio unit
| c_GetByteArrayElements (env : ptr) (arr : jbyteArray) : gio ptr
| c_ReleaseByteArrayElements (env : ptr) (arr : jbyteArray) (bytes : ptr) : gio unit
| c_GetArrayLength (env : ptr) (arr : jbyteArray) : gio jsize
| c_NewString (env : ptr) (unicodeChars : ptr) (len : jsize) : gio jstring.

(** Calling an exported function runs its body. *)
Definition body {R : Type} (c : gio R) : itree JNI R :=
  match c with
  | c_GetEnv vm env version => gio_jni_GetEnv vm env version
  | c_GetJavaVM env jvm => gio_jni_GetJavaVM env jvm
  | c_AttachCurrentThread vm p_env thr_args => gio_jni_AttachCurrentThread vm p_env thr_args
  | c_DetachCurrentThread vm => gio_jni_DetachCurrentThread vm
  | c_NewGlobalRef env obj => gio_jni_NewGlobalRef env obj
  | c_DeleteGlobalRef env obj => gio_jni_DeleteGlobalRef env obj
  | c_GetObjectClass env obj => gio_jni_GetObjectClass env obj
  | c_GetMethodID env clazz name sig => gio_jni_GetMethodID env clazz name sig
  | c_GetStaticMethodID env clazz name sig => gio_jni_GetStaticMethodID env clazz name sig
  | c_CallFloatMethod env obj methodID => gio_jni_CallFloatMethod env obj methodID
  | c_CallIntMethod env obj methodID => gio_jni_CallIntMethod env obj methodID
  | c_CallVoidMethod env obj methodID args => gio_jni_CallVoidMethod env obj methodID args
  | c_GetByteArrayElements env arr => gio_jni_GetByteArrayElements env arr
  | c_ReleaseByteArrayElements env arr bytes => gio_jni_ReleaseByteArrayElements env arr bytes
  | c_GetArrayLength env arr => gio_jni_GetArrayLength env arr
  | c_NewString env unicodeChars len => gio_jni_NewString env unicodeChars len
  end.

(** The specification of the shim, in its own words: every function
    is the table entry of its name on its own arguments, with NULL for
    [isCopy] and [JNI_ABORT] for [mode] where the entry wants them.
    [gio_jni_CallVoidMethod] takes its arguments as an array, which is
    the entry [CallVoidMethodA]. *)
Definition corresponding {R : Type} (c : gio R) : JNI R :=
  match c with
  | c_GetEnv vm env version => GetEnv vm env version
  | c_GetJavaVM env jvm => GetJavaVM env jvm
  | c_AttachCurrentThread vm p_env thr_args => AttachCurrentThread vm p_env thr_args
  | c_DetachCurrentThread vm => DetachCurrentThread vm
  | c_NewGlobalRef env obj => NewGlobalRef env obj
  | c_DeleteGlobalRef env obj => DeleteGlobalRef env obj
  | c_GetObjectClass env obj => GetObjectClass env obj
  | c_GetMethodID env clazz name sig => GetMethodID env clazz name sig
  | c_GetStaticMethodID env clazz name sig => GetStaticMethodID env clazz name sig
  | c_CallFloatMethod env obj methodID => CallFloatMethod env obj methodID
  | c_CallIntMethod env obj methodID => CallIntMethod env obj methodID
  | c_CallVoidMethod env obj methodID args => CallVoidMethodA env obj methodID args
  | c_GetByteArrayElements env arr => GetByteArrayElements env arr 0
  | c_ReleaseByteArrayElements env arr bytes => ReleaseByteArrayElements env arr bytes 2
  | c_GetArrayLength env arr => GetArrayLength env arr
  | c_NewString env unicodeChars len => NewString env unicodeChars len
  end.
Definition passthrough {R : Type} (c : gio R) : itree JNI R :=
  ITree.trigger (corresponding c).
End jni.

(** ** Specification vocabulary *)

(** [align] as the specification words it, in whole pixels: [0] for
    [Start], the floor of [maxWidth - width] for [End] and the floor of
    half of it for [Middle], with [width] a number of 64ths. *)
Definition align_stated (a : text.Alignment) (width maxWidth : Z) : option Z :=
  if a =? text.Start then Some 0
  else if a =? text.End_ then Some ((64 * maxWidth - width) / 64)
  else if a =? text.Middle then Some ((64 * maxWidth - width) / 128)
  else None.

(** An offset [p] lies inside the bounds [b], read as the clamps of
    [scrollAbs] leave it: never below [Min], not above [Max] where the
    bounds are in order, and at [Min] where they are not. *)
Definition clamped (b : image.Rectangle) (p : image.Point) : Prop :=
  image.X (image.Min b) <= image.X p /\
  image.Y (image.Min b) <= image.Y p /\
  (image.X (image.Min b) <= image.X (image.Max b) -> image.X p <= image.X (image.Max b)) /\
  (image.Y (image.Min b) <= image.Y (image.Max b) -> image.Y p <= image.Y (image.Max b)) /\
  (image.X (image.Max b) < image.X (image.Min b) -> image.X p = image.X (image.Min b)) /\
  (image.Y (image.Max b) < image.Y (image.Min b) -> image.Y p = image.Y (image.Min b)).

Definition known_alignment (a : text.Alignment) : Prop :=
  a = text.Start \/ a = text.End_ \/ a = text.Middle.

(** What a scrolling call on [e] may end in: the editor with its
    offset inside its scroll bounds, or the panic of [align] that
    [scrollBounds] runs into for a single-line editor with text and an
    alignment that is none of the three. *)
Definition scrolled_within_bounds (e : Editor.t) (r : go.outcome Editor.t) : Prop :=
  match r with
  | go.Done e' =>
    exists b, Editor.scrollBounds e = go.Done b /\ Editor.scrollBounds e' = go.Done b /\
              clamped b (Editor.scrollOff e')
  | go.Panic p =>
    p = go.UnknownAlignment (Editor.Alignment e) /\ Editor.SingleLine e = true /\
    Editor.lines e <> [] /\ ~ known_alignment (Editor.Alignment e)
  | go.OutOfFuel => False
  end.

(** The text between two end points as the specification words it:
    between two sorted end points, the text of the first line from the
    start column, the whole texts of the lines strictly between, and the
    text of the last line up to the end column; on one line, the text
    between the two columns.  A column counts runes, as [caret.col]
    does, from which the end points of a drag are taken:
    [column_offset] is the place of a column among the bytes of a
    text, the sizes of the runes before it. *)
Definition lineText (lines : list text.Line) (i : Z) : go.string :=
  match nth_error lines (Z.to_nat i) with
  | Some ln => text.Text (text.Layout_ ln)
  | None => []
  end.
Definition column_offset (s : go.string) (col : Z) : nat :=
  Z.to_nat (fold_right Z.add 0 (firstn (Z.to_nat col) (utf8.runeSizes s))).
Definition text_between (lines : list text.Line) (a b : Point.t) : go.string :=
  let from (p : Point.t) := column_offset (lineText lines (image.Y p)) (image.X p) in
  if image.Y a =? image.Y b then
    firstn (from b - from a) (skipn (from a) (lineText lines (image.Y a)))
  else
    skipn (from a) (lineText lines (image.Y a))
    ++ concat (List.map (fun ln => text.Text (text.Layout_ ln))
                 (firstn (Z.to_nat (image.Y b - (image.Y a + 1)))
                         (skipn (Z.to_nat (image.Y a + 1)) lines)))
    ++ firstn (from b) (lineText lines (image.Y b)).

(** [e.events = append(e.events, ev)], as [processPointer] and
    [processKey] queue an event. *)
Definition enqueue (e : Editor.t) (ev : EditorEvent) : Editor.t :=
  Editor.set_events e (Editor.events e ++ [ev]).

(** What the mask reader may depend on: where the newlines are among
    the runes; and what it is to produce: the newlines as they are and
    the encoded mask rune in place of every other rune. *)
Definition newlines (rs : list Z) : list bool := List.map (fun r => r =? 10) rs.
Definition masked (mask : list byte) (rs : list Z) : list byte :=
  flat_map (fun r => if r =? 10 then [x0a] else mask) rs.
(** The bytes a reader has yet to hand out: the overflow of the last
    call, then the replacements of the runes to come. *)
Definition pending (m : maskReader.t) : list byte :=
  maskReader.contents m (maskReader.overflow m)
  ++ masked (maskReader.contents m (maskReader.mask m)) (maskReader.rr m).

(** The results [(bytes, err != nil)] of successive calls of [Read]
    with buffers of the given sizes on a reader with [p] pending. *)
Fixpoint chunks (rooms : list nat) (p : list byte) : list (list byte * bool) :=
  match rooms with
  | [] => []
  | room :: rest => (firstn room p, (List.length p <? room)%nat) :: chunks rest (skipn room p)
  end.

(** The reader after [m.overflow = replacement[nn:]], after
    [ReadRune] has taken a rune, and the replacement of a rune. *)
Definition advance (m : maskReader.t) (s : maskReader.bytes) (nn : nat) : maskReader.t :=
  maskReader.mk (maskReader.rr m) (maskReader.maskBuf m) (maskReader.mask m)
    (maskReader.mkBytes (maskReader.base s) (maskReader.lo s + nn)%nat (maskReader.hi s)).
Definition take_rune (m : maskReader.t) (rest : list Z) : maskReader.t :=
  maskReader.mk rest (maskReader.maskBuf m) (maskReader.mask m) (maskReader.overflow m).
Definition replacement (m : maskReader.t) (r : Z) : maskReader.bytes :=
  if (r =? 10)%Z then maskReader.mkBytes maskReader.InNewline 0 1 else maskReader.mask m.

(** Sample data for the drag handlers: each rune of a line is a byte,
    10 pixels wide; the caret is put where the pointer is, its column
    and line being the coordinates of the pointer. *)
Definition sample_line (s : go.string) : text.Line :=
  text.mkLine (text.mkLayout s (List.map (fun _ => 640) s)) (640 * go.len s) 640 128
              (fixed.Rect (fixed.Pt 0 (-640)) (fixed.Pt (640 * go.len s) 128)).
Definition sample_moveCoord (e : Editor.t) (p : image.Point) : go.outcome Editor.t :=
  go.Done (Editor.set_caret e
             (Editor.mkCaret (Editor.on (Editor.caret e)) (Editor.scroll (Editor.caret e)) 0
                             (image.Y p) (image.X p) 0 0)).
Definition sample_editor : Editor.t :=
  Editor.set_dragging
    (Editor.set_startDrag_endDrag
       (Editor.set_lines_dims (Editor.set_valid Editor.zero true)
          [sample_line (go.str "hello"); sample_line (go.str "world")] layout.zero)
       (image.Pt 1 0) (image.Pt 1 0))
    true.
Definition sample_release : pointer.Event :=
  pointer.mkEvent pointer.Release pointer.Mouse (image.Pt 3 1).

(** A sample of text that is not ASCII: the line [h], [e] with an acute
    accent, [l], [l], [o], five runes in six bytes, each rune 10 pixels
    wide, in a view of 100 by 40 pixels.  The buffer holds the text of
    the line and its runes are looked up by decoding it. *)
Definition accent_text : go.string := [x68; xc3; xa9; x6c; x6c; x6f].
Definition accent_line : text.Line :=
  text.mkLine (text.mkLayout accent_text [640; 640; 640; 640; 640]) 3200 640 128
              (fixed.Rect (fixed.Pt 0 (-640)) (fixed.Pt 3200 128)).
Definition decode_at (b : editBuffer.t) (idx : Z) : Z * Z :=
  utf8.DecodeRuneInString (skipn (Z.to_nat idx) (editBuffer.text b)).
Definition decode_before (b : editBuffer.t) (idx : Z) : Z * Z :=
  let size := List.last (utf8.runeSizes (firstn (Z.to_nat idx) (editBuffer.text b))) 0 in
  (fst (utf8.DecodeRuneInString (skipn (Z.to_nat (idx - size)) (editBuffer.text b))), size).
Definition accent_editor : Editor.t :=
  Editor.set_viewSize
    (Editor.set_lines_dims
       (Editor.set_valid (Editor.set_rr Editor.zero (editBuffer.mk accent_text 0 false)) true)
       [accent_line] (layout.mkDimensions (image.Pt 50 12) 10))
    (image.Pt 100 40).
Definition accent_moveCoord : Editor.t -> image.Point -> go.outcome Editor.t :=
  Editor.moveCoord decode_at decode_before Editor.lines Editor.maskReader_.
Definition accent_press : pointer.Event :=
  pointer.mkEvent pointer.Press pointer.Mouse (image.Pt 0 5).
Definition accent_release : pointer.Event :=
  pointer.mkEvent pointer.Release pointer.Mouse (image.Pt 20 5).

(** A sample editor for scrolling: one line, a layout of 50 by 12
    pixels in a view of 30 by 40. *)
Definition sample_scrolling (singleLine : bool) : Editor.t :=
  Editor.set_viewSize
    (Editor.set_lines_dims (Editor.configured singleLine 0)
       [sample_line (go.str "hello")] (layout.mkDimensions (image.Pt 50 12) 10))
    (image.Pt 30 40).

(** ** Vocabulary for the iterator *)

Module SI := segmentIterator.

(** The fields of the iterator that [Next] reads and never writes,
    as far as the proofs need them. *)
Definition same_config (l l' : SI.t) : Prop :=
  SI.Lines l' = SI.Lines l /\ SI.Alignment l' = SI.Alignment l.

(** The position [pos] of [l'] lies strictly after that of [l]: on a
    later line, or on the same line at a later rune. *)
Definition advanced (l l' : SI.t) : Prop :=
  image.Y (SI.pos l) < image.Y (SI.pos l')
  \/ (image.Y (SI.pos l) = image.Y (SI.pos l') /\ image.X (SI.pos l) < image.X (SI.pos l')).

(** One per byte of text and one per line, from line [Y] on. *)
Definition tailsum (lines : list text.Line) (Y : Z) : nat :=
  list_sum (List.map (fun ln => S (SI.textLen ln)) (skipn (Z.to_nat Y) lines)).

(** A layout has an advance for each of its runes, as a shaper
    returns it; an iterator is well formed when its alignment is one of
    the three and its lines, and the rest of the line it is in, are such
    layouts. *)
Definition layout_wf (la : text.Layout) : Prop :=
  (List.length (utf8.runeSizes (text.Text la)) <= List.length (text.Advances la))%nat.
Definition well_formed (l : SI.t) : Prop :=
  known_alignment (SI.Alignment l)
  /\ Forall (fun ln => layout_wf (text.Layout_ ln)) (SI.Lines l)
  /\ (image.X (SI.pos l) <> 0 -> layout_wf (SI.layout l)).

(** After [n] calls of [Next] that return [ok = true], the next call
    returns [ok = false], or panics. *)
Inductive stops_after : SI.t -> nat -> SI.t -> Prop :=
| stops_now (l l' : SI.t) (r : SI.ret) :
    SI.Next l = go.Done (r, l') -> SI.r_ok r = false -> stops_after l 0 l'
| stops_later (l l1 l' : SI.t) (r : SI.ret) (n : nat) :
    SI.Next l = go.Done (r, l1) -> SI.r_ok r = true -> stops_after l1 n l' ->
    stops_after l (S n) l'.
Inductive panics_after : SI.t -> nat -> go.panic -> Prop :=
| panics_now (l : SI.t) (p : go.panic) :
    SI.Next l = go.Panic p -> panics_after l 0 p
| panics_later (l l1 : SI.t) (r : SI.ret) (n : nat) (p : go.panic) :
    SI.Next l = go.Done (r, l1) -> SI.r_ok r = true -> panics_after l1 n p ->
    panics_after l (S n) p.

Definition sample_iterator (a : text.Alignment) : SI.t :=
  SI.new [sample_line (go.str "abc"); sample_line (go.str "de")]
         (image.Rect image.ZP (image.Pt 100 100)) a 100 image.ZP (image.Pt 1 0) (image.Pt 1 1).

Ltac bool_to_Z :=
  rewrite ?orb_true_iff, ?orb_false_iff, ?andb_true_iff, ?andb_false_iff,
          ?Z.ltb_lt, ?Z.ltb_ge, ?Z.leb_le, ?Z.leb_gt, ?Z.eqb_eq, ?Z.eqb_neq,
          ?Z.gtb_ltb, ?Z.geb_leb in *.

(** ** Vocabulary for the further properties *)

(** The values of the types [int] and [fixed.Int26_6]. *)
Definition int64 (x : Z) : Prop := - 2 ^ 63 <= x < 2 ^ 63.
Definition int32 (x : Z) : Prop := - 2 ^ 31 <= x < 2 ^ 31.

(** The count of the events of the previous frame names a place in
    the queue. *)
Definition queue_ok (e : Editor.t) : Prop :=
  0 <= Editor.prevEvents e <= go.len (Editor.events e).

(** A slice of the mask reader lies inside the array it points into,
    and [maskBuf] is an array of [utf8.UTFMax] bytes. *)
Definition bytes_ok (s : maskReader.bytes) : Prop :=
  (maskReader.lo s <= maskReader.hi s
   /\ maskReader.hi s <= match maskReader.base s with
                         | maskReader.InMaskBuf => 4
                         | maskReader.InNewline => 1
                         end)%nat.
Definition reader_ok (m : maskReader.t) : Prop :=
  List.length (maskReader.maskBuf m) = 4%nat
  /\ bytes_ok (maskReader.mask m) /\ bytes_ok (maskReader.overflow m).

(** Where the newlines are in a masked text: at the newlines of the
    runes, every other rune taking [n] bytes that are no newline. *)
Definition is_newline (b : byte) : bool := Byte.eqb b x0a.
Definition newline_map (n : nat) (rs : list Z) : list bool :=
  flat_map (fun r => if r =? 10 then [true] else repeat false n) rs.

(** Measures of a size that no arithmetic on them overflows, as those
    of any text that fits a screen: at most [2^29] 64ths of a pixel. *)
Definition small (x : Z) : Prop := - 2 ^ 29 <= x <= 2 ^ 29.
Definition small_line (ln : text.Line) : Prop :=
  small (text.Width ln) /\ small (text.Ascent ln) /\ small (text.Descent ln)
  /\ small (fixed.X (fixed.Min (text.Bounds ln))) /\ small (fixed.Y (fixed.Min (text.Bounds ln)))
  /\ small (fixed.X (fixed.Max (text.Bounds ln))) /\ small (fixed.Y (fixed.Max (text.Bounds ln))).

(** A number of 64ths rounded up to whole pixels. *)
Definition ceil64 (d : Z) : Z := (d + 63) / 64.

(** The height of lines stacked under a line of descent [prevDesc]:
    from baseline to baseline, each distance rounded up to whole
    pixels. *)
Fixpoint heights (prevDesc : fixed.Int26_6) (lines : list text.Line) : Z :=
  match lines with
  | [] => 0
  | l :: rest =>
    fixed.Ceil (fixed.add prevDesc (text.Ascent l)) + heights (text.Descent l) rest
  end.

(** What the caller of an iterator sets and [Next] only reads. *)
Definition config (l : SI.t)
  : list text.Line * image.Rectangle * text.Alignment * Z * image.Point * Point.t * Point.t :=
  (SI.Lines l, SI.Clip l, SI.Alignment l, SI.Width l, SI.Offset l, SI.StartSel l, SI.EndSel l).

(** Whether the rune in column [x] of line [y] lies in the selection
    of the iterator, and the number of runes of a layout. *)
Definition selected_at (l : SI.t) (x y : Z) : bool :=
  Point.LessOrEqual (SI.StartSel l) (image.Pt x y) && Point.Less (image.Pt x y) (SI.EndSel l).
Definition runes (la : text.Layout) : Z :=
  Z.of_nat (List.length (utf8.runeSizes (text.Text la))).
Definition sumZ (xs : list Z) : Z := fold_right Z.add 0 xs.

(** The selection of an iterator is empty: its end is not after its
    start. *)
Definition no_selection (l : SI.t) : Prop :=
  Point.LessOrEqual (SI.EndSel l) (SI.StartSel l) = true.

(** The bytes that the calls of [ReadRune] have read, and the text of
    the runes they returned. *)
Definition bytes_read (reads : list (Z * nat)) : Z :=
  sumZ (List.map (fun p => Z.of_nat (snd p)) reads).
Definition runes_read (reads : list (Z * nat)) : go.string :=
  flat_map (fun p => utf8.EncodeRune (fst p)) reads.

(** ** Vocabulary for the caret *)

(** The caret stands on a line of the layout: [line] names a line and
    [col] one of its runes, or the place behind the last of them. *)
Definition on_line (e : Editor.t) (line : Z) (ln : text.Line) : Prop :=
  0 <= line /\ nth_error (Editor.lines e) (Z.to_nat line) = Some ln.
Definition caret_ok (e : Editor.t) : Prop :=
  exists ln, on_line e (Editor.c_line (Editor.caret e)) ln
             /\ 0 <= Editor.col (Editor.caret e) <= go.len (text.Advances (text.Layout_ ln)).

(** The state between two moves of the caret: the layout is valid,
    the alignment is one of the three and the caret stands on the
    layout. *)
Definition laid_out (e : Editor.t) : Prop :=
  Editor.valid e = true /\ known_alignment (Editor.Alignment e) /\ caret_ok e.

(** The top and the bottom of the line of the caret, in pixels from
    the top of the text: [miny] and [maxy] of [scrollToCaret]. *)
Definition caret_top (e : Editor.t) (l : text.Line) : Z :=
  Editor.c_y (Editor.caret e) - fixed.Ceil (text.Ascent l).
Definition caret_bottom (e : Editor.t) (l : text.Line) : Z :=
  Editor.c_y (Editor.caret e) + fixed.Ceil (text.Descent l).

(** [e'] is [e] but for the caret and the place of the caret in the
    buffer. *)
Definition only_caret (e e' : Editor.t) : Prop :=
  e' = Editor.set_rr_caret (Editor.set_caret e (Editor.caret e'))
                           (editBuffer.caret (Editor.rr e')).

(** The line [moveToLine] goes to when asked for [line]. *)
Definition clamp_line (e : Editor.t) (line : Z) : Z :=
  Z.max 0 (Z.min line (go.len (Editor.lines e) - 1)).

(** A line other than the last that holds text and does not end in a
    newline: the text was wrapped there. *)
Definition soft_wrapped (lines : list text.Line) : Prop :=
  exists (i : nat) (l : text.Line),
    (S i < List.length lines)%nat /\ nth_error lines i = Some l
    /\ text.Text (text.Layout_ l) <> []
    /\ List.last (text.Text (text.Layout_ l)) x00 <> x0a.

(* ================================================================== *)
(** * Part II: properties *)
(* ================================================================== *)

(** ** Integers *)

Lemma wrap_small (w x : Z) :
  0 < w -> - 2 ^ (w - 1) <= x < 2 ^ (w - 1) -> go.wrap w x = x.
Proof.
  intros Hw Hx. unfold go.wrap.
  assert (E : 2 ^ w = 2 * 2 ^ (w - 1)).
  { replace w with (Z.succ (w - 1)) at 1 by lia. apply Z.pow_succ_r. lia. }
  rewrite Z.mod_small; lia.
Qed.

Lemma wrap32_small (x : Z) : - 2 ^ 31 <= x < 2 ^ 31 -> go.wrap32 x = x.
Proof. intros H. apply wrap_small; [lia | exact H]. Qed.

Lemma wrap64_small (x : Z) : - 2 ^ 63 <= x < 2 ^ 63 -> go.wrap64 x = x.
Proof. intros H. apply wrap_small; [lia | exact H]. Qed.

Lemma Floor_div (x : Z) : fixed.Floor x = x / 64.
Proof. unfold fixed.Floor. rewrite Z.shiftr_div_pow2 by lia. reflexivity. Qed.

Lemma I_Floor_small (x : Z) :
  - 2 ^ 31 <= x < 2 ^ 31 -> fixed.I (fixed.Floor x) = 64 * (x / 64).
Proof.
  intros H. rewrite Floor_div. unfold fixed.I.
  rewrite wrap32_small; [lia |].
  pose proof (Z.mul_div_le x 64 ltac:(lia)).
  pose proof (Z.mod_pos_bound x 64 ltac:(lia)).
  pose proof (Z.div_mod x 64 ltac:(lia)).
  change (2 ^ 31) with 2147483648 in *. lia.
Qed.

(** ** Indexing and slicing *)

Lemma index_Done {A : Type} (xs : list A) (i : Z) (x : A) :
  0 <= i -> nth_error xs (Z.to_nat i) = Some x -> go.index xs i = go.Done x.
Proof.
  intros Hi Hx. unfold go.index, go.len.
  assert (Z.to_nat i < List.length xs)%nat by (apply nth_error_Some; congruence).
  destruct (Z.ltb_spec i 0); [lia |].
  destruct (Z.leb_spec (Z.of_nat (List.length xs)) i); [lia |].
  cbn. rewrite Hx. reflexivity.
Qed.

Lemma index_Panic {A : Type} (xs : list A) (i : Z) :
  i < 0 \/ go.len xs <= i -> go.index xs i = go.Panic go.IndexOutOfRange.
Proof.
  intros H. unfold go.index.
  destruct (Z.ltb_spec i 0); [reflexivity |].
  destruct (Z.leb_spec (go.len xs) i); [reflexivity | lia].
Qed.

Lemma index_inv {A : Type} (xs : list A) (i : Z) (x : A) :
  go.index xs i = go.Done x ->
  0 <= i < go.len xs /\ nth_error xs (Z.to_nat i) = Some x.
Proof.
  unfold go.index.
  destruct (Z.ltb_spec i 0); [discriminate |].
  destruct (Z.leb_spec (go.len xs) i); [discriminate |]. cbn.
  destruct (nth_error xs (Z.to_nat i)); [| discriminate].
  intros [= ->]. split; [lia | reflexivity].
Qed.

Lemma index_fuel {A : Type} (xs : list A) (i : Z) : go.index xs i <> go.OutOfFuel.
Proof.
  unfold go.index. destruct ((i <? 0) || (go.len xs <=? i)); [discriminate |].
  destruct (nth_error xs (Z.to_nat i)); discriminate.
Qed.

Lemma index_total {A : Type} (xs : list A) (i : Z) :
  0 <= i < go.len xs -> exists x, go.index xs i = go.Done x.
Proof.
  intros H. destruct (nth_error xs (Z.to_nat i)) as [x |] eqn:E.
  - exists x. apply index_Done; [lia | exact E].
  - apply nth_error_None in E. unfold go.len in H. lia.
Qed.

Lemma index_head {A : Type} (x : A) (xs : list A) : go.index (x :: xs) 0 = go.Done x.
Proof.
  unfold go.index, go.len. cbn [List.length].
  destruct (Z.ltb_spec 0 0); [lia |].
  destruct (Z.leb_spec (Z.of_nat (S (List.length xs))) 0); [lia |]. reflexivity.
Qed.

Lemma slice_Done {A : Type} (xs : list A) (lo hi : Z) :
  0 <= lo <= hi -> hi <= go.len xs ->
  go.slice xs lo hi = go.Done (firstn (Z.to_nat (hi - lo)) (skipn (Z.to_nat lo) xs)).
Proof.
  intros H1 H2. unfold go.slice.
  destruct (Z.ltb_spec lo 0); [lia |].
  destruct (Z.ltb_spec hi lo); [lia |].
  destruct (Z.ltb_spec (go.len xs) hi); [lia |]. reflexivity.
Qed.

Lemma slice_Panic {A : Type} (xs : list A) (lo hi : Z) :
  lo < 0 \/ hi < lo \/ go.len xs < hi -> go.slice xs lo hi = go.Panic go.SliceOutOfRange.
Proof.
  intros H. unfold go.slice.
  destruct (Z.ltb_spec lo 0); [reflexivity |].
  destruct (Z.ltb_spec hi lo); [reflexivity |].
  destruct (Z.ltb_spec (go.len xs) hi); [reflexivity | lia].
Qed.

Lemma slice_from_Done {A : Type} (xs : list A) (lo : Z) :
  0 <= lo <= go.len xs -> go.slice_from xs lo = go.Done (skipn (Z.to_nat lo) xs).
Proof.
  intros H. unfold go.slice_from. rewrite slice_Done by lia. f_equal.
  apply firstn_all2. rewrite length_skipn. unfold go.len in *. lia.
Qed.

Lemma slice_to_Done {A : Type} (xs : list A) (hi : Z) :
  0 <= hi <= go.len xs -> go.slice_to xs hi = go.Done (firstn (Z.to_nat hi) xs).
Proof.
  intros H. unfold go.slice_to. rewrite slice_Done by lia.
  rewrite Z.sub_0_r. reflexivity.
Qed.

Lemma slice_inv {A : Type} (xs ys : list A) (lo hi : Z) :
  go.slice xs lo hi = go.Done ys ->
  0 <= lo <= hi /\ hi <= go.len xs
  /\ ys = firstn (Z.to_nat (hi - lo)) (skipn (Z.to_nat lo) xs).
Proof.
  unfold go.slice.
  destruct (Z.ltb_spec lo 0); [discriminate |].
  destruct (Z.ltb_spec hi lo); [discriminate |].
  destruct (Z.ltb_spec (go.len xs) hi); [discriminate |].
  cbn. intros [= <-]. repeat split; lia.
Qed.

Lemma slice_from_inv {A : Type} (xs ys : list A) (lo : Z) :
  go.slice_from xs lo = go.Done ys ->
  0 <= lo <= go.len xs /\ ys = skipn (Z.to_nat lo) xs.
Proof.
  unfold go.slice_from. intros H. apply slice_inv in H. destruct H as (H1 & H2 & ->).
  split; [lia |]. apply firstn_all2. rewrite length_skipn. unfold go.len. lia.
Qed.

Lemma slice_fuel {A : Type} (xs : list A) (lo hi : Z) : go.slice xs lo hi <> go.OutOfFuel.
Proof. unfold go.slice. destruct ((lo <? 0) || (hi <? lo) || (go.len xs <? hi)); discriminate. Qed.

Lemma skipn_nth_error {A : Type} (xs : list A) (n : nat) (x : A) :
  nth_error xs n = Some x -> skipn n xs = x :: skipn (S n) xs.
Proof.
  revert xs. induction n as [| n IH]; intros [| y ys]; cbn; try discriminate.
  - intros [= ->]. reflexivity.
  - intros H. rewrite (IH _ H). reflexivity.
Qed.

(** ** Runes *)

Lemma DecodeRuneInString_size (s : go.string) :
  s <> [] -> 1 <= snd (utf8.DecodeRuneInString s) <= go.len s.
Proof.
  destruct s as [| b0 t0]; [congruence | intros _].
  unfold utf8.DecodeRuneInString, go.len.
  destruct (240 <=? utf8.first (go.byte_val b0)); [cbn [snd List.length]; lia |].
  destruct (utf8.acceptRanges _) as [lo hi].
  repeat first
    [ match goal with
      | |- context [if ?c then _ else _] => destruct c
      end
    | match goal with
      | |- context [match ?t with [] => _ | _ :: _ => _ end] => destruct t
      end ];
    cbn [snd List.length]; lia.
Qed.

Lemma runeSizes_from_fuel (fuel1 : nat) :
  forall (fuel2 : nat) (s : go.string),
  (List.length s <= fuel1)%nat -> (List.length s <= fuel2)%nat ->
  utf8.runeSizes_from fuel1 s = utf8.runeSizes_from fuel2 s.
Proof.
  induction fuel1 as [| fuel1 IH]; intros fuel2 s H1 H2.
  - destruct s; [destruct fuel2; reflexivity | cbn in H1; lia].
  - destruct s as [| b t]; [destruct fuel2; reflexivity |].
    destruct fuel2 as [| fuel2]; [cbn in H2; lia |].
    cbn [utf8.runeSizes_from].
    pose proof (DecodeRuneInString_size (b :: t) ltac:(discriminate)) as Hsz.
    set (sz := snd (utf8.DecodeRuneInString (b :: t))) in *.
    assert (Hl : (List.length (skipn (Z.to_nat sz) (b :: t)) <= List.length t)%nat).
    { rewrite length_skipn. cbn [List.length]. lia. }
    cbn [List.length] in H1, H2.
    f_equal. apply IH; lia.
Qed.

Lemma runeSizes_from_enough (fuel : nat) (s : go.string) :
  (List.length s <= fuel)%nat -> utf8.runeSizes_from fuel s = utf8.runeSizes s.
Proof. intros H. apply runeSizes_from_fuel; [exact H | lia]. Qed.

Lemma runeSizes_cons (b : byte) (t : go.string) :
  utf8.runeSizes (b :: t)
  = snd (utf8.DecodeRuneInString (b :: t))
    :: utf8.runeSizes (skipn (Z.to_nat (snd (utf8.DecodeRuneInString (b :: t)))) (b :: t)).
Proof.
  unfold utf8.runeSizes at 1. cbn [List.length utf8.runeSizes_from]. f_equal.
  apply runeSizes_from_enough.
  pose proof (DecodeRuneInString_size (b :: t) ltac:(discriminate)) as Hsz.
  rewrite length_skipn. cbn [List.length]. lia.
Qed.

(** The sizes of the runes of the rest of a text, once [sz], the size
    of its first rune, is skipped. *)
Lemma runeSizes_step (s : go.string) (sz : Z) (rest : list Z) :
  utf8.runeSizes s = sz :: rest ->
  1 <= sz <= go.len s /\ utf8.runeSizes (skipn (Z.to_nat sz) s) = rest.
Proof.
  destruct s as [| b t]; [discriminate |].
  rewrite runeSizes_cons. intros H.
  pose proof (DecodeRuneInString_size (b :: t) ltac:(discriminate)) as Hsz.
  set (d := snd (utf8.DecodeRuneInString (b :: t))) in *. clearbody d.
  injection H as -> <-. split; [exact Hsz | reflexivity].
Qed.

Lemma runeSizes_from_positive (fuel : nat) :
  forall s : go.string, Forall (fun sz => 1 <= sz) (utf8.runeSizes_from fuel s).
Proof.
  induction fuel as [| fuel IH]; intros s; [constructor |].
  destruct s as [| b t]; [constructor |].
  cbn [utf8.runeSizes_from]. constructor; [| apply IH].
  apply DecodeRuneInString_size. discriminate.
Qed.

Lemma runeSizes_positive (s : go.string) : Forall (fun sz => 1 <= sz) (utf8.runeSizes s).
Proof. apply runeSizes_from_positive. Qed.

(** ** [align] *)

Example align_examples :
  align text.Start 100 10 = go.Done 0
  /\ align text.End_ 100 10 = go.Done 512
  /\ align text.Middle 100 10 = go.Done 256
  /\ align text.Middle 741 10 = go.Done (-64)
  /\ align 3 100 10 = go.Panic (go.UnknownAlignment 3).
Proof. repeat split. Qed.

Lemma align_unknown (a : text.Alignment) (width maxWidth : Z) :
  ~ known_alignment a -> align a width maxWidth = go.Panic (go.UnknownAlignment a).
Proof.
  unfold known_alignment, align. intros H.
  destruct (Z.eqb_spec a text.Middle); [tauto |].
  destruct (Z.eqb_spec a text.End_); [tauto |].
  destruct (Z.eqb_spec a text.Start); [tauto | reflexivity].
Qed.

Lemma align_known (a : text.Alignment) (width maxWidth : Z) :
  known_alignment a -> exists v, align a width maxWidth = go.Done v.
Proof.
  intros [-> | [-> | ->]]; unfold align; cbn; eauto.
Qed.

Lemma known_alignment_dec (a : text.Alignment) :
  known_alignment a \/ ~ known_alignment a.
Proof. unfold known_alignment, text.Start, text.End_, text.Middle. lia. Qed.

(** ** Scrolling *)

(** A single-line editor scrolls between 0 and 20 horizontally; an
    editor of several lines whose text is lower than the view has the
    bounds 0 and -28, in the wrong order, and stays at 0. *)
Example scrollAbs_examples :
  (do e <- Editor.scrollAbs (sample_scrolling true) 100 (-7); go.Done (Editor.scrollOff e))
  = go.Done (image.Pt 20 0)
  /\ (do e <- Editor.scrollAbs (sample_scrolling true) (-5) 3; go.Done (Editor.scrollOff e))
     = go.Done (image.Pt 0 0)
  /\ (do e <- Editor.scrollAbs (sample_scrolling false) 100 (-7); go.Done (Editor.scrollOff e))
     = go.Done (image.Pt 0 0).
Proof. repeat split; vm_compute; reflexivity. Qed.

Lemma scrollBounds_scrollOff (e : Editor.t) (p : image.Point) :
  Editor.scrollBounds (Editor.set_scrollOff e p) = Editor.scrollBounds e.
Proof. reflexivity. Qed.

Lemma scrollBounds_panics (e : Editor.t) (p : go.panic) :
  Editor.scrollBounds e = go.Panic p ->
  p = go.UnknownAlignment (Editor.Alignment e) /\ Editor.SingleLine e = true /\
  Editor.lines e <> [] /\ ~ known_alignment (Editor.Alignment e).
Proof.
  unfold Editor.scrollBounds.
  destruct (Editor.SingleLine e); [| discriminate].
  destruct (Editor.lines e) as [| l0 ls]; [discriminate |].
  destruct (known_alignment_dec (Editor.Alignment e)) as [K | K].
  - destruct (align_known _ (text.Width l0) (image.X (Editor.viewSize e)) K) as [v ->].
    discriminate.
  - rewrite (align_unknown _ _ _ K). cbn. intros [= <-].
    repeat split; [discriminate | exact K].
Qed.

Lemma scrollBounds_fuel (e : Editor.t) : Editor.scrollBounds e <> go.OutOfFuel.
Proof.
  unfold Editor.scrollBounds.
  destruct (Editor.SingleLine e); [| discriminate].
  destruct (Editor.lines e) as [| l0 ls]; [discriminate |].
  destruct (known_alignment_dec (Editor.Alignment e)) as [K | K].
  - destruct (align_known _ (text.Width l0) (image.X (Editor.viewSize e)) K) as [v ->].
    discriminate.
  - rewrite (align_unknown _ _ _ K). discriminate.
Qed.

Lemma scrollAbs_within_bounds (e : Editor.t) (x y : Z) :
  scrolled_within_bounds e (Editor.scrollAbs e x y).
Proof.
  unfold Editor.scrollAbs. rewrite scrollBounds_scrollOff.
  destruct (Editor.scrollBounds e) as [b | p |] eqn:Eb; cbn.
  - exists b. split; [exact Eb |].
    set (e0 := Editor.set_scrollOff e (image.Pt x y)).
    assert (S0 : image.X (Editor.scrollOff e0) = x /\ image.Y (Editor.scrollOff e0) = y)
      by (split; reflexivity).
    assert (B0 : Editor.scrollBounds e0 = go.Done b) by exact Eb.
    clearbody e0. revert S0 B0.
    destruct b as [[minX minY] [maxX maxY]]. unfold clamped. cbn.
    intros [Sx Sy] B0.
    repeat match goal with
           | |- context [if ?c then _ else _] =>
             let E := fresh "E" in destruct c eqn:E; cbn
           end;
      rewrite ?scrollBounds_scrollOff; (split; [exact B0 |]); cbn in *; lia.
  - apply scrollBounds_panics. exact Eb.
  - exact (scrollBounds_fuel e Eb).
Qed.

Lemma scrollAbs_frame (e e' : Editor.t) (x y : Z) :
  Editor.scrollAbs e x y = go.Done e' -> e' = Editor.set_scrollOff e (Editor.scrollOff e').
Proof.
  unfold Editor.scrollAbs. rewrite scrollBounds_scrollOff.
  destruct (Editor.scrollBounds e) as [b | p |]; cbn; try discriminate.
  intros [= <-].
  repeat match goal with
         | |- context [if ?c then _ else _] => destruct c; cbn
         end; reflexivity.
Qed.

Lemma scrollRel_cases (e : Editor.t) (dx dy : Z) :
  (exists p, Editor.scrollRel e dx dy = go.Panic p) \/
  (exists o, Editor.scrollRel e dx dy = go.Done (Editor.set_scrollOff e o)).
Proof.
  pose proof (scrollAbs_within_bounds e (go.wrap64 (image.X (Editor.scrollOff e) + dx))
                (go.wrap64 (image.Y (Editor.scrollOff e) + dy))) as H.
  unfold Editor.scrollRel.
  destruct (Editor.scrollAbs e _ _) as [e' | p |] eqn:E.
  - right. exists (Editor.scrollOff e'). f_equal. apply (scrollAbs_frame _ _ _ _ E).
  - left. eauto.
  - destruct H.
Qed.

(** C4.  After [scrollAbs(x, y)], and so after [scrollRel(dx, dy)], for
    every editor and all integers: the scroll offset is at least the
    [Min] of the scroll bounds on both axes, at most the [Max] on an axis
    where [Min <= Max], and equal to [Min] on an axis where the bounds are
    inverted.  The call returns unless [scrollBounds] panics, which is
    the panic of [align] on an alignment that is none of the three. *)
Theorem scroll_offset_stays_in_bounds (e : Editor.t) (x y dx dy : Z) :
  scrolled_within_bounds e (Editor.scrollAbs e x y) /\
  scrolled_within_bounds e (Editor.scrollRel e dx dy).
Proof.
  split; [| unfold Editor.scrollRel]; apply scrollAbs_within_bounds.
Qed.

(** ** The contents of the editor *)

Example SetText_examples :
  Editor.Text (Editor.SetText (Editor.configured false 42) [x61; x0a; x62]) = [x61; x0a; x62]
  /\ Editor.Text (Editor.SetText (Editor.configured true 0) (go.str "ab")) = go.str "ab".
Proof. split; reflexivity. Qed.

Lemma ReplaceAll_newline_space_id (s : go.string) :
  Editor.ReplaceAll_newline_space s = s <-> ~ In x0a s.
Proof.
  unfold Editor.ReplaceAll_newline_space.
  induction s as [| b s IH]; cbn.
  - tauto.
  - destruct (Byte.eqb b x0a) eqn:E.
    + apply Byte.byte_dec_bl in E. subst b. split; [discriminate | tauto].
    + assert (b <> x0a).
      { intros ->. vm_compute in E. discriminate. }
      split.
      * intros [= H1]. apply IH in H1. intros [H2 | H2]; [congruence | tauto].
      * intros H1. f_equal. apply IH. tauto.
Qed.

(** The claim of C1 fails for an editor that is set to a single line:
    [SetText("a\nb")] stores ["a b"], whatever the mask. *)
Lemma SetText_single_line_changes_text :
  Editor.Text (Editor.SetText (Editor.configured true 42) [x61; x0a; x62]) = [x61; x20; x62]
  /\ Editor.Text (Editor.SetText (Editor.configured true 42) [x61; x0a; x62]) <> [x61; x0a; x62].
Proof. split; [reflexivity | discriminate]. Qed.

(** C1, amended.  For every string [s] and every editor, whatever its
    mask: [SetText(s)] followed by [Text()] returns [s] with every newline
    replaced by a space when [SingleLine] is set, and [s] itself
    otherwise; so it returns exactly [s] if and only if [SingleLine] is
    not set or [s] holds no newline.  [Len()] is then the length of [s]. *)
Theorem SetText_then_Text (e : Editor.t) (s : go.string) :
  Editor.Text (Editor.SetText e s)
  = (if Editor.SingleLine e then Editor.ReplaceAll_newline_space s else s)
  /\ (Editor.Text (Editor.SetText e s) = s <-> Editor.SingleLine e = false \/ ~ In x0a s)
  /\ Editor.Len (Editor.SetText e s) = go.len s
  /\ Editor.Mask (Editor.SetText e s) = Editor.Mask e.
Proof.
  assert (T : Editor.Text (Editor.SetText e s)
              = (if Editor.SingleLine e then Editor.ReplaceAll_newline_space s else s)).
  { unfold Editor.Text, Editor.SetText, Editor.prepend, editBuffer.String. cbn.
    rewrite app_nil_r. reflexivity. }
  split; [exact T |]. split; [| split].
  - rewrite T. destruct (Editor.SingleLine e).
    + rewrite ReplaceAll_newline_space_id. split; [tauto | intros [H | H]; [discriminate | exact H]].
    + tauto.
  - unfold Editor.Len, editBuffer.len. change (editBuffer.text ?b) with (editBuffer.String b).
    change (editBuffer.String (Editor.rr ?x)) with (Editor.Text x). rewrite T.
    destruct (Editor.SingleLine e); [| reflexivity].
    unfold go.len, Editor.ReplaceAll_newline_space. rewrite length_map. reflexivity.
  - reflexivity.
Qed.

(** ** The event queue *)

Lemma events_enqueue (evs : list EditorEvent) (e : Editor.t) :
  Editor.events (fold_left enqueue evs e) = Editor.events e ++ evs.
Proof.
  revert e. induction evs as [| ev evs IH]; intros e; cbn.
  - rewrite app_nil_r. reflexivity.
  - rewrite IH. cbn. rewrite <- app_assoc. reflexivity.
Qed.

(** C7.  [Events] returns the queue as it stands, every queued event
    once and in the order of the appends, and leaves the queue empty with
    no events counted for the previous frame; a second call straight
    after it returns the empty list.  Events appended after a call are
    exactly what the next call returns, and the flush at the start of
    [processEvents] finds nothing to drop in a drained queue. *)
Theorem Events_drains_queue (e : Editor.t) (evs : list EditorEvent) :
  fst (Editor.Events (fold_left enqueue evs e)) = Editor.events e ++ evs
  /\ Editor.events (snd (Editor.Events e)) = []
  /\ Editor.prevEvents (snd (Editor.Events e)) = 0
  /\ fst (Editor.Events (snd (Editor.Events e))) = []
  /\ fst (Editor.Events (fold_left enqueue evs (snd (Editor.Events e)))) = evs
  /\ Editor.flushEvents (snd (Editor.Events e)) = go.Done (snd (Editor.Events e)).
Proof.
  repeat split.
  - unfold Editor.Events. cbn. apply events_enqueue.
  - unfold Editor.Events at 1. cbn [fst]. rewrite events_enqueue. reflexivity.
Qed.

(** ** The selection made by a drag *)

Lemma Point_eqb_eq (p q : Point.t) : Point.eqb p q = true <-> p = q.
Proof.
  destruct p as [px py], q as [qx qy]. unfold Point.eqb. cbn.
  rewrite andb_true_iff, !Z.eqb_eq. split; [intros [-> ->]; reflexivity | intros [= -> ->]; tauto].
Qed.

Lemma sortPoints_sorted (p q : Point.t) :
  Point.Less (snd (sortPoints p q)) (fst (sortPoints p q)) = false
  /\ Point.LessOrEqual (fst (sortPoints p q)) (snd (sortPoints p q)) = true
  /\ (p <> q -> fst (sortPoints p q) <> snd (sortPoints p q)).
Proof.
  destruct p as [px py], q as [qx qy].
  unfold sortPoints, Point.Less, Point.LessOrEqual. cbn [image.X image.Y].
  destruct ((qy <? py) || ((qy =? py) && (qx <? px))) eqn:E;
    cbn [fst snd image.X image.Y]; bool_to_Z.
  - split; [lia |]. split; [lia |]. intros H [= -> ->]. apply H. reflexivity.
  - split; [lia |]. split; [lia |]. intros H. exact H.
Qed.

(** C5.  The release of a drag cuts the selected text at bytes where
    its end points count runes.  In the sample editor, whose line is
    [h], [e] with an acute accent, [l], [l], [o], a press of the mouse at
    the start of the line and a release 20 pixels to the right leave the
    drag from column 0 to column 2, the caret standing behind the second
    rune, 3 bytes into the buffer; the text between these end points is
    the first two runes, and these are what the next [layout] shows as
    selected.  The event that the release queues holds the first two
    bytes of the line instead: [h] and the first half of the second
    rune. *)
Theorem release_cuts_the_selection_at_bytes :
  exists (e1 e2 e3 : Editor.t) (d : layout.Dimensions),
    Editor.dragEvent accent_moveCoord accent_editor accent_press = go.Done e1
    /\ Editor.dragEvent accent_moveCoord e1 accent_release = go.Done e2
    /\ Editor.startDrag e2 = image.Pt 0 0 /\ Editor.endDrag e2 = image.Pt 2 0
    /\ Editor.col (Editor.caret e2) = 2 /\ editBuffer.caret (Editor.rr e2) = 3
    /\ text_between (Editor.lines e2) (Editor.startDrag e2) (Editor.endDrag e2)
       = [x68; xc3; xa9]
    /\ Editor.events e2 = [SelectEvent [x68; xc3]]
    /\ Editor.layout (Editor.makeValid decode_at Editor.lines Editor.maskReader_) false e2
       = go.Done (d, e3)
    /\ List.map (fun s => (Editor.selected s, text.Text (Editor.clip s))) (Editor.shapes e3)
       = [(true, [x68; xc3; xa9]); (false, [x6c; x6c; x6f])].
Proof.
  destruct (Editor.dragEvent accent_moveCoord accent_editor accent_press)
    as [e1 | |] eqn:E1; [| vm_compute in E1; discriminate | vm_compute in E1; discriminate].
  destruct (Editor.dragEvent accent_moveCoord e1 accent_release)
    as [e2 | |] eqn:E2;
    [| vm_compute in E1; injection E1 as <-; vm_compute in E2; discriminate
     | vm_compute in E1; injection E1 as <-; vm_compute in E2; discriminate].
  destruct (Editor.layout (Editor.makeValid decode_at Editor.lines Editor.maskReader_) false e2)
    as [[d e3] | |] eqn:E3;
    [| vm_compute in E1; injection E1 as <-; vm_compute in E2; injection E2 as <-;
       vm_compute in E3; discriminate
     | vm_compute in E1; injection E1 as <-; vm_compute in E2; injection E2 as <-;
       vm_compute in E3; discriminate].
  exists e1, e2, e3, d.
  split; [reflexivity |]. split; [exact E2 |].
  vm_compute in E1. injection E1 as <-.
  vm_compute in E2. injection E2 as <-.
  do 6 (split; [vm_compute; reflexivity |]).
  split; [exact E3 |].
  vm_compute in E3. injection E3 as <- <-.
  vm_compute. reflexivity.
Qed.

(** ** The mask reader *)

Section MaskReader.
Local Open Scope nat_scope.

Lemma copy_firstn {A : Type} (c R : list A) (room : nat) :
let nn := Nat.min room (List.length c) in
firstn nn c ++ firstn (room - nn) (skipn nn c ++ R) = firstn room (c ++ R).
Proof.
cbv zeta. destruct (Nat.le_ge_cases room (List.length c)) as [H | H].
- rewrite Nat.min_l by exact H. rewrite Nat.sub_diag. cbn. rewrite app_nil_r.
  rewrite firstn_app. replace (room - List.length c) with 0 by lia.
  cbn. rewrite app_nil_r. reflexivity.
- rewrite Nat.min_r by exact H. rewrite firstn_all, skipn_all. cbn.
  rewrite firstn_app. f_equal. symmetry. apply firstn_all2. exact H.
Qed.

Lemma copy_skipn {A : Type} (c R : list A) (room : nat) :
let nn := Nat.min room (List.length c) in
skipn (room - nn) (skipn nn c ++ R) = skipn room (c ++ R).
Proof.
cbv zeta. destruct (Nat.le_ge_cases room (List.length c)) as [H | H].
- rewrite Nat.min_l by exact H. rewrite Nat.sub_diag. cbn.
  rewrite skipn_app. replace (room - List.length c) with 0 by lia. reflexivity.
- rewrite Nat.min_r by exact H. rewrite skipn_all. cbn.
  rewrite skipn_app, (skipn_all2 c) by exact H. reflexivity.
Qed.

Lemma contents_advance (m : maskReader.t) (s : maskReader.bytes) (nn : nat)
  (rr' : list Z) (ov : maskReader.bytes) :
nn <= maskReader.length m s ->
maskReader.contents (maskReader.mk rr' (maskReader.maskBuf m) (maskReader.mask m) ov)
  (maskReader.mkBytes (maskReader.base s) (maskReader.lo s + nn) (maskReader.hi s))
= skipn nn (maskReader.contents m s).
Proof.
intros H. unfold maskReader.contents, maskReader.array. cbn.
set (arr := match maskReader.base s with
            | maskReader.InMaskBuf => maskReader.maskBuf m
            | maskReader.InNewline => [x0a]
            end).
rewrite skipn_firstn_comm, skipn_skipn.
f_equal; [lia |]. f_equal. lia.
Qed.

Lemma Read_loop_S (fuel : nat) (m : maskReader.t) (room : nat) (out : list byte) (err : bool) :
maskReader.Read_loop (S fuel) m (S room) out err =
if 0 <? maskReader.length m (maskReader.overflow m) then
  let nn := Nat.min (S room) (maskReader.length m (maskReader.overflow m)) in
  maskReader.Read_loop fuel (advance m (maskReader.overflow m) nn) (S room - nn)
    (out ++ firstn nn (maskReader.contents m (maskReader.overflow m))) err
else match maskReader.rr m with
     | [] => go.Done (out, true, m)
     | r :: rest =>
       let m1 := take_rune m rest in
       let nn := Nat.min (S room) (maskReader.length m1 (replacement m1 r)) in
       maskReader.Read_loop fuel (advance m1 (replacement m1 r) nn) (S room - nn)
         (out ++ firstn nn (maskReader.contents m1 (replacement m1 r))) false
     end.
Proof. reflexivity. Qed.

Lemma contents_replacement (m : maskReader.t) (r : Z) :
maskReader.contents m (replacement m r)
= if (r =? 10)%Z then [x0a] else maskReader.contents m (maskReader.mask m).
Proof. unfold replacement. destruct (r =? 10)%Z; reflexivity. Qed.

Lemma Read_loop_spec (fuel : nat) :
forall (m : maskReader.t) (room : nat) (out : list byte),
room + List.length (maskReader.rr m) < fuel ->
exists m',
  maskReader.Read_loop fuel m room out false
  = go.Done (out ++ firstn room (pending m), List.length (pending m) <? room, m')
  /\ pending m' = skipn room (pending m)
  /\ maskReader.maskBuf m' = maskReader.maskBuf m
  /\ maskReader.mask m' = maskReader.mask m.
Proof.
induction fuel as [| fuel IH]; intros m room out Hf; [lia |].
destruct room as [| room].
- exists m. cbn. rewrite app_nil_r. auto.
- rewrite Read_loop_S.
  destruct (0 <? maskReader.length m (maskReader.overflow m)) eqn:Eo.
  + apply Nat.ltb_lt in Eo. cbv zeta.
    set (c := maskReader.contents m (maskReader.overflow m)) in *.
    set (nn := Nat.min (S room) (maskReader.length m (maskReader.overflow m))).
    set (m2 := advance m (maskReader.overflow m) nn).
    set (R := masked (maskReader.contents m (maskReader.mask m)) (maskReader.rr m)).
    assert (P2 : pending m2 = skipn nn c ++ R).
    { unfold pending. f_equal.
      apply (contents_advance m (maskReader.overflow m) nn). unfold nn. lia. }
    destruct (IH m2 (S room - nn) (out ++ firstn nn c)) as (m' & E & P' & B' & M').
    { unfold m2, advance. cbn [maskReader.rr]. unfold nn. lia. }
    exists m'. rewrite E, P', P2. unfold pending. fold c R.
    unfold nn, maskReader.length. fold c.
    rewrite <- app_assoc, copy_firstn, copy_skipn.
    split; [| split; [reflexivity | split; assumption]].
    do 2 f_equal. rewrite !length_app, length_skipn.
    unfold maskReader.length in Eo. fold c in Eo.
    destruct (Nat.ltb_spec (List.length c - Nat.min (S room) (List.length c) + List.length R)
                           (S room - Nat.min (S room) (List.length c)));
      destruct (Nat.ltb_spec (List.length c + List.length R) (S room)); try reflexivity; lia.
  + apply Nat.ltb_ge in Eo.
    assert (C0 : maskReader.contents m (maskReader.overflow m) = []).
    { unfold maskReader.length in Eo.
      destruct (maskReader.contents m (maskReader.overflow m)); [reflexivity | cbn in Eo; lia]. }
    destruct (maskReader.rr m) as [| r rest] eqn:Er.
    * exists m. unfold pending. rewrite C0, Er. cbn. rewrite app_nil_r. auto.
    * cbv zeta.
      set (m1 := take_rune m rest).
      set (c := maskReader.contents m1 (replacement m1 r)).
      set (nn := Nat.min (S room) (maskReader.length m1 (replacement m1 r))).
      set (m2 := advance m1 (replacement m1 r) nn).
      set (R := masked (maskReader.contents m (maskReader.mask m)) rest).
      assert (Pm : pending m = c ++ R).
      { unfold pending. rewrite C0, Er. cbn [app masked flat_map]. unfold c.
        rewrite contents_replacement. reflexivity. }
      assert (P2 : pending m2 = skipn nn c ++ R).
      { unfold pending. f_equal.
        apply (contents_advance m1 (replacement m1 r) nn). unfold nn. lia. }
      destruct (IH m2 (S room - nn) (out ++ firstn nn c)) as (m' & E & P' & B' & M').
      { unfold m2, advance, m1, take_rune. cbn [maskReader.rr]. cbn [List.length] in Hf. lia. }
      exists m'. rewrite E, P', P2, Pm.
      unfold nn, maskReader.length. fold c.
      rewrite <- app_assoc, copy_firstn, copy_skipn.
      split; [| split; [reflexivity | split; assumption]].
      do 2 f_equal. rewrite !length_app, length_skipn.
      destruct (Nat.ltb_spec (List.length c - Nat.min (S room) (List.length c) + List.length R)
                             (S room - Nat.min (S room) (List.length c)));
        destruct (Nat.ltb_spec (List.length c + List.length R) (S room)); try reflexivity; lia.
Qed.

Lemma Read_spec (m : maskReader.t) (room : nat) :
exists m',
  maskReader.Read m room
  = go.Done (firstn room (pending m), List.length (pending m) <? room, m')
  /\ pending m' = skipn room (pending m)
  /\ maskReader.maskBuf m' = maskReader.maskBuf m
  /\ maskReader.mask m' = maskReader.mask m.
Proof.
unfold maskReader.Read.
destruct (Read_loop_spec (S (room + List.length (maskReader.rr m))) m room [])
  as (m' & E & H); [lia |].
exists m'. split; [exact E | exact H].
Qed.

Lemma Reads_spec (rooms : list nat) :
forall m : maskReader.t,
exists m', maskReader.Reads m rooms = go.Done (chunks rooms (pending m), m').
Proof.
induction rooms as [| room rooms IH]; intros m.
- exists m. reflexivity.
- cbn [maskReader.Reads chunks].
  destruct (Read_spec m room) as (m1 & -> & P1 & _). cbn [go.bind].
  destruct (IH m1) as (m2 & ->). cbn [go.bind]. rewrite P1. exists m2. reflexivity.
Qed.

Lemma chunks_concat (rooms : list nat) :
forall p : list byte,
concat (List.map fst (chunks rooms p)) = firstn (list_sum rooms) p.
Proof.
induction rooms as [| room rooms IH]; intros p; cbn [chunks List.map concat list_sum fst].
- reflexivity.
- change (list_sum (room :: rooms)) with (room + list_sum rooms).
  rewrite IH, firstn_skipn_comm.
  rewrite <- (firstn_skipn room (firstn (room + list_sum rooms) p)) at 2.
  f_equal. rewrite firstn_firstn. f_equal. lia.
Qed.

Lemma masked_shape (mask : list byte) (rs1 rs2 : list Z) :
newlines rs1 = newlines rs2 -> masked mask rs1 = masked mask rs2.
Proof.
unfold newlines, masked.
revert rs2. induction rs1 as [| r1 rs1 IH]; intros [| r2 rs2];
  cbn [List.map flat_map]; try discriminate.
- reflexivity.
- intros [= E1 E2]. rewrite E1, (IH _ E2). reflexivity.
Qed.

Lemma Reset_mask (m0 : maskReader.t) (rs : list Z) (mr : Z) :
maskReader.contents (maskReader.Reset m0 rs mr) (maskReader.mask (maskReader.Reset m0 rs mr))
= utf8.EncodeRune mr.
Proof.
unfold maskReader.Reset, maskReader.contents. cbn.
rewrite Nat.sub_0_r, firstn_app, Nat.sub_diag, firstn_all. cbn. apply app_nil_r.
Qed.

Lemma pending_Reset (m0 : maskReader.t) (rs : list Z) (mr : Z) :
pending (maskReader.Reset m0 rs mr)
= maskReader.contents (maskReader.Reset m0 [] mr) (maskReader.overflow m0)
  ++ masked (utf8.EncodeRune mr) rs.
Proof. unfold pending. rewrite Reset_mask. reflexivity. Qed.

(** C6.  The output of the mask reader does not depend on which runes
  the text holds, only on how many there are and where the newlines
  are: after [Reset] with any mask rune, on any reader, two texts whose
  runes agree in number and in the positions of the newlines give the
  same bytes and the same error flags, call by call, whatever the sizes
  of the buffers.  The bytes are those left over from before the
  [Reset], none on a fresh reader, and then for every rune the UTF-8
  encoding of the mask rune, or the newline itself. *)
Theorem maskReader_output_depends_on_shape
  (m0 : maskReader.t) (mr : Z) (rs1 rs2 : list Z) (rooms : list nat) :
newlines rs1 = newlines rs2 ->
let stale := maskReader.contents (maskReader.Reset m0 [] mr) (maskReader.overflow m0) in
exists outs m1 m2,
  maskReader.Reads (maskReader.Reset m0 rs1 mr) rooms = go.Done (outs, m1)
  /\ maskReader.Reads (maskReader.Reset m0 rs2 mr) rooms = go.Done (outs, m2)
  /\ outs = chunks rooms (stale ++ masked (utf8.EncodeRune mr) rs1)
  /\ concat (List.map fst outs)
     = firstn (list_sum rooms) (stale ++ masked (utf8.EncodeRune mr) rs1)
  /\ masked (utf8.EncodeRune mr) rs1 = masked (utf8.EncodeRune mr) rs2
  /\ (maskReader.hi (maskReader.overflow m0) <= maskReader.lo (maskReader.overflow m0)
      -> stale = []).
Proof.
intros Hs stale.
destruct (Reads_spec rooms (maskReader.Reset m0 rs1 mr)) as (m1 & E1).
destruct (Reads_spec rooms (maskReader.Reset m0 rs2 mr)) as (m2 & E2).
rewrite pending_Reset in E1, E2. fold stale in E1, E2.
rewrite <- (masked_shape _ _ _ Hs) in E2.
eexists _, m1, m2. split; [exact E1 |]. split; [exact E2 |].
split; [reflexivity |]. split; [apply chunks_concat |].
split; [apply masked_shape; exact Hs |].
intros H. unfold stale, maskReader.contents.
replace (maskReader.hi (maskReader.overflow m0) - maskReader.lo (maskReader.overflow m0))
  with 0 by lia.
reflexivity.
Qed.

Lemma maskReader_output_depends_on_shape_witness :
exists m1 m2,
  maskReader.Reads (maskReader.Reset maskReader.zero [97; 98; 10; 99]%Z 42%Z) [2; 5]
  = go.Done ([([x2a; x2a], false); ([x0a; x2a], true)], m1)
  /\ maskReader.Reads (maskReader.Reset maskReader.zero [120; 121; 10; 122]%Z 42%Z) [2; 5]
     = go.Done ([([x2a; x2a], false); ([x0a; x2a], true)], m2).
Proof.
destruct (maskReader_output_depends_on_shape maskReader.zero 42%Z
            [97; 98; 10; 99]%Z [120; 121; 10; 122]%Z [2; 5] eq_refl)
  as (outs & m1 & m2 & E1 & E2 & Eo & _).
exists m1, m2. rewrite E1, E2, Eo. split; reflexivity.
Defined.

End MaskReader.

(** ** The iterator: what a call of [Next] does *)

Lemma Next_loop_S (fuel : nat) (l : segmentIterator.t) :
  segmentIterator.Next_loop (S fuel) l =
  if negb (image.Y (segmentIterator.pos l) <? go.len (segmentIterator.Lines l))
  then go.Done (segmentIterator.stop, l)
  else if image.X (segmentIterator.pos l) =? 0 then
    do ln <- go.index (segmentIterator.Lines l) (image.Y (segmentIterator.pos l));
    do l1 <- segmentIterator.startLine l ln;
    if fixed.Floor (fixed.add (fixed.Y (segmentIterator.off l1))
                              (fixed.Y (fixed.Min (text.Bounds (segmentIterator.line l1)))))
       >? image.Y (image.Max (segmentIterator.Clip l1))
    then go.Done (segmentIterator.stop, l1)
    else if fixed.Ceil (fixed.add (fixed.Y (segmentIterator.off l1))
                                  (fixed.Y (fixed.Max (text.Bounds (segmentIterator.line l1)))))
            <? image.Y (image.Min (segmentIterator.Clip l1))
    then segmentIterator.Next_loop fuel
           (segmentIterator.set_pos l1
              (image.Pt (image.X (segmentIterator.pos l1)) (image.Y (segmentIterator.pos l1) + 1)))
    else
      let l2 := segmentIterator.set_layout l1 (text.Layout_ (segmentIterator.line l1)) in
      segmentIterator.segment
        (segmentIterator.skipClipped (text.Advances (segmentIterator.layout l2)) l2)
  else segmentIterator.segment l.
Proof. reflexivity. Qed.

Lemma same_config_refl (l : SI.t) : same_config l l.
Proof. split; reflexivity. Qed.

Lemma same_config_trans (l1 l2 l3 : SI.t) :
  same_config l1 l2 -> same_config l2 l3 -> same_config l1 l3.
Proof. unfold same_config. intros [-> ->] [-> ->]. split; reflexivity. Qed.

(** What one run of the loop over the runes of the current layout
    does to the iterator. *)
Lemma rangeText_post (sizes : list Z) :
  forall (n : Z) (selected : bool) (l : SI.t) (endx : fixed.Int26_6) (rune : Z)
         (retLayout : text.Layout) (l' : SI.t) (endx' : fixed.Int26_6)
         (ret' : text.Layout) (nextLine : bool),
  Forall (fun sz => 1 <= sz) sizes -> 0 <= n ->
  (n = 0 -> selected = SI.inSelection l) ->
  SI.rangeText sizes n selected l endx rune retLayout = go.Done (l', endx', ret', nextLine) ->
  same_config l l'
  /\ image.Y (SI.pos l') = image.Y (SI.pos l)
  /\ image.X (SI.pos l) <= image.X (SI.pos l')
  /\ (nextLine = true -> SI.layout l' = SI.layout l)
  /\ (nextLine = false ->
      (List.length (text.Text (SI.layout l')) < List.length (text.Text (SI.layout l)))%nat
      /\ (n = 0 -> image.X (SI.pos l) < image.X (SI.pos l'))).
Proof.
  induction sizes as [| sz rest IH];
    intros n selected l endx rune retLayout l' endx' ret' nextLine Hsz Hn Hsel.
  - cbn. intros [= <- <- <- <-]. repeat split; try lia; discriminate.
  - cbn [SI.rangeText].
    destruct (negb (Bool.eqb selected (SI.inSelection l))) eqn:Echg.
    + (* the selection changes here *)
      rewrite orb_true_r.
      destruct (go.slice_to _ rune) as [advs | |]; cbn [go.bind]; try discriminate.
      destruct (go.slice_to _ n) as [txt | |]; cbn [go.bind]; try discriminate.
      destruct (go.slice_from _ rune) as [advs' | |]; cbn [go.bind]; try discriminate.
      destruct (go.slice_from (text.Text (SI.layout l)) n) as [txt' | |] eqn:Et;
        cbn [go.bind]; try discriminate.
      intros [= <- <- <- <-]. apply slice_from_inv in Et. destruct Et as [Hr ->].
      assert (n <> 0).
      { intros ->. rewrite (Hsel eq_refl), Bool.eqb_reflx in Echg. discriminate. }
      split; [split; reflexivity |]. cbn.
      repeat split; try lia; try discriminate.
      rewrite length_skipn. unfold go.len in Hr. lia.
    + rewrite orb_false_r.
      destruct (_ >? _).
      * destruct (go.slice_to _ rune) as [advs | |]; cbn [go.bind]; try discriminate.
        destruct (go.slice_to _ n) as [txt | |]; cbn [go.bind]; try discriminate.
        intros [= <- <- <- <-].
        split; [apply same_config_refl |]. repeat split; try lia; discriminate.
      * destruct (go.index _ rune) as [adv | |]; cbn [go.bind]; try discriminate.
        intros H. inversion Hsz as [| ? ? Hsz1 Hsz2]; subst.
        apply IH in H; [| exact Hsz2 | lia | lia].
        destruct H as (C & Y & X & L1 & L2). cbn in *.
        split; [exact C |]. split; [exact Y |]. split; [lia |]. split; [exact L1 |].
        intros ->. destruct (L2 eq_refl) as [L3 _]. split; [exact L3 | lia].
Qed.

Lemma rangeText_fuel (sizes : list Z) :
  forall (n : Z) (selected : bool) (l : SI.t) (endx : fixed.Int26_6) (rune : Z)
         (retLayout : text.Layout),
  SI.rangeText sizes n selected l endx rune retLayout <> go.OutOfFuel.
Proof.
  induction sizes as [| sz rest IH]; intros n selected l endx rune retLayout.
  - discriminate.
  - cbn [SI.rangeText].
    destruct (_ || _).
    + destruct (go.slice_to _ rune) as [advs | |] eqn:E1; cbn [go.bind];
        [| discriminate | destruct (slice_fuel _ _ _ E1)].
      destruct (go.slice_to _ n) as [txt | |] eqn:E2; cbn [go.bind];
        [| discriminate | destruct (slice_fuel _ _ _ E2)].
      destruct (negb _); [| discriminate].
      destruct (go.slice_from _ rune) as [advs' | |] eqn:E3; cbn [go.bind];
        [| discriminate | destruct (slice_fuel _ _ _ E3)].
      destruct (go.slice_from _ n) as [txt' | |] eqn:E4; cbn [go.bind];
        [discriminate | discriminate | destruct (slice_fuel _ _ _ E4)].
    + destruct (go.index _ rune) as [adv | |] eqn:E1; cbn [go.bind];
        [apply IH | discriminate | destruct (index_fuel _ _ E1)].
Qed.

Lemma segment_post (l l' : SI.t) (r : SI.ret) :
  0 <= image.X (SI.pos l) ->
  SI.segment l = go.Done (r, l') ->
  SI.r_ok r = true /\ same_config l l'
  /\ (SI.pos l' = image.Pt 0 (image.Y (SI.pos l) + 1)
      \/ (image.Y (SI.pos l') = image.Y (SI.pos l)
          /\ image.X (SI.pos l) < image.X (SI.pos l')
          /\ (List.length (text.Text (SI.layout l'))
              < List.length (text.Text (SI.layout l)))%nat)).
Proof.
  intros HX. unfold SI.segment.
  destruct (SI.rangeText _ 0 _ l _ 0 _) as [[[[l1 endx] ret1] nextLine] | |] eqn:E;
    cbn [go.bind]; try discriminate.
  apply rangeText_post in E; [| apply runeSizes_positive | lia | reflexivity].
  destruct E as (C & Y & X & L1 & L2).
  intros [= <- <-]. split; [reflexivity |].
  destruct nextLine.
  - split; [exact C |]. left. cbn. rewrite Y. reflexivity.
  - split; [exact C |]. right. destruct (L2 eq_refl) as [L3 L4]. specialize (L4 eq_refl).
    cbn. repeat split; [exact Y | lia | exact L3].
Qed.

Lemma segment_fuel (l : SI.t) : SI.segment l <> go.OutOfFuel.
Proof.
  unfold SI.segment.
  destruct (SI.rangeText _ 0 _ l _ 0 _) as [[[[l1 endx] ret1] nextLine] | |] eqn:E;
    cbn [go.bind]; try discriminate.
  destruct (rangeText_fuel _ _ _ _ _ _ _ E).
Qed.

Lemma skipClipped_post (advances : list fixed.Int26_6) :
  forall l : SI.t,
  same_config l (SI.skipClipped advances l)
  /\ image.Y (SI.pos (SI.skipClipped advances l)) = image.Y (SI.pos l)
  /\ image.X (SI.pos l) <= image.X (SI.pos (SI.skipClipped advances l))
  /\ (List.length (text.Text (SI.layout (SI.skipClipped advances l)))
      <= List.length (text.Text (SI.layout l)))%nat.
Proof.
  induction advances as [| adv rest IH]; intros l.
  - cbn. split; [apply same_config_refl |]. repeat split; lia.
  - cbn [SI.skipClipped].
    destruct (_ >=? _).
    + split; [apply same_config_refl |]. repeat split; lia.
    + cbv zeta.
      match goal with |- context [SI.skipClipped rest ?l3] => set (l3' := l3) end.
      assert (C3 : same_config l l3') by (split; reflexivity).
      assert (Y3 : image.Y (SI.pos l3') = image.Y (SI.pos l)) by reflexivity.
      assert (X3 : image.X (SI.pos l3') = image.X (SI.pos l) + 1) by reflexivity.
      assert (L3 : (List.length (text.Text (SI.layout l3'))
                    <= List.length (text.Text (SI.layout l)))%nat)
        by (cbn; rewrite length_skipn; lia).
      clearbody l3'. destruct (IH l3') as (C & Y & X & L).
      split; [eapply same_config_trans; eassumption |]. repeat split; lia.
Qed.

Lemma startLine_post (l l1 : SI.t) (ln : text.Line) :
  SI.startLine l ln = go.Done l1 ->
  same_config l l1 /\ SI.pos l1 = SI.pos l /\ SI.layout l1 = SI.layout l /\ SI.line l1 = ln.
Proof.
  unfold SI.startLine.
  destruct (align _ _ _) as [a | |]; cbn [go.bind]; try discriminate.
  intros [= <-]. split; [split; reflexivity |]. repeat split.
Qed.

Lemma startLine_fuel (l : SI.t) (ln : text.Line) : SI.startLine l ln <> go.OutOfFuel.
Proof.
  unfold SI.startLine, align.
  repeat match goal with |- context [if ?c then _ else _] => destruct c end;
    cbn [go.bind]; discriminate.
Qed.

Lemma tailsum_step (lines : list text.Line) (Y : Z) (ln : text.Line) :
  0 <= Y -> nth_error lines (Z.to_nat Y) = Some ln ->
  tailsum lines Y = (S (SI.textLen ln) + tailsum lines (Y + 1))%nat.
Proof.
  intros HY Hn. unfold tailsum.
  rewrite (skipn_nth_error _ _ _ Hn). cbn [List.map list_sum].
  replace (Z.to_nat (Y + 1)) with (S (Z.to_nat Y)) by lia. reflexivity.
Qed.

Lemma tailsum_end (lines : list text.Line) (Y : Z) :
  go.len lines <= Y -> tailsum lines Y = 0%nat.
Proof.
  intros H. unfold tailsum. rewrite skipn_all2; [reflexivity |]. unfold go.len in H. lia.
Qed.

Lemma tailsum_same (l l' : SI.t) (Y : Z) :
  same_config l l' -> tailsum (SI.Lines l') Y = tailsum (SI.Lines l) Y.
Proof. intros [-> _]. reflexivity. Qed.

Lemma remaining_line_start (l : SI.t) :
  image.X (SI.pos l) = 0 -> 0 <= image.Y (SI.pos l) ->
  SI.remaining l = tailsum (SI.Lines l) (image.Y (SI.pos l)).
Proof.
  intros HX HY. unfold SI.remaining. rewrite HX. cbn [Z.eqb].
  destruct (Z.ltb_spec (image.Y (SI.pos l)) (go.len (SI.Lines l))) as [H | H].
  - destruct (nth_error (SI.Lines l) (Z.to_nat (image.Y (SI.pos l)))) as [ln |] eqn:En.
    + rewrite (tailsum_step _ _ _ HY En). unfold tailsum.
      replace (Z.to_nat (image.Y (SI.pos l) + 1)) with (S (Z.to_nat (image.Y (SI.pos l)))) by lia.
      reflexivity.
    + apply nth_error_None in En. unfold go.len in H. lia.
  - symmetry. apply tailsum_end. exact H.
Qed.

Lemma remaining_in_line (l : SI.t) :
  image.X (SI.pos l) <> 0 -> 0 <= image.Y (SI.pos l) < go.len (SI.Lines l) ->
  SI.remaining l
  = (S (List.length (text.Text (SI.layout l))) + tailsum (SI.Lines l) (image.Y (SI.pos l) + 1))%nat.
Proof.
  intros HX HY. unfold SI.remaining.
  destruct (Z.ltb_spec (image.Y (SI.pos l)) (go.len (SI.Lines l))) as [H | H]; [| lia].
  destruct (Z.eqb_spec (image.X (SI.pos l)) 0) as [E | E]; [congruence |].
  unfold tailsum.
  replace (Z.to_nat (image.Y (SI.pos l) + 1)) with (S (Z.to_nat (image.Y (SI.pos l)))) by lia.
  reflexivity.
Qed.

(** A call that returns leaves the position non-negative and the lines
    as they were, and a call that returns [ok = true] has advanced. *)
Lemma Next_loop_post (fuel : nat) :
  forall (l l' : SI.t) (r : SI.ret),
  0 <= image.X (SI.pos l) -> 0 <= image.Y (SI.pos l) ->
  SI.Next_loop fuel l = go.Done (r, l') ->
  same_config l l' /\ 0 <= image.X (SI.pos l') /\ 0 <= image.Y (SI.pos l')
  /\ (SI.r_ok r = true -> (SI.remaining l' < SI.remaining l)%nat /\ advanced l l').
Proof.
  induction fuel as [| fuel IH]; intros l l' r HX HY.
  - cbn. destruct (negb _); [| discriminate].
    intros [= <- <-]. split; [apply same_config_refl |]. repeat split; try lia; discriminate.
  - rewrite Next_loop_S.
    destruct (Z.ltb_spec (image.Y (SI.pos l)) (go.len (SI.Lines l))) as [Hlen | Hlen]; cbn [negb].
    2: { intros [= <- <-]. split; [apply same_config_refl |].
         repeat split; try lia; discriminate. }
    destruct (Z.eqb_spec (image.X (SI.pos l)) 0) as [HX0 | HX0].
    + (* at the start of a line *)
      destruct (go.index _ _) as [ln | |] eqn:Ei; cbn [go.bind]; try discriminate.
      apply index_inv in Ei. destruct Ei as [_ Hnth].
      destruct (SI.startLine l ln) as [l1 | |] eqn:Es; cbn [go.bind]; try discriminate.
      apply startLine_post in Es. destruct Es as (C1 & P1 & La1 & Li1).
      pose proof (remaining_line_start l HX0 HY) as Rl.
      rewrite (tailsum_step _ _ _ HY Hnth) in Rl.
      destruct (_ >? _).
      * intros [= <- <-]. split; [exact C1 |]. rewrite P1.
        repeat split; try lia; discriminate.
      * destruct (_ <? _).
        -- set (l1' := SI.set_pos l1 _).
           assert (C1' : same_config l1 l1') by (split; reflexivity).
           assert (P1' : SI.pos l1' = image.Pt (image.X (SI.pos l)) (image.Y (SI.pos l) + 1))
             by (unfold l1'; cbn; rewrite P1; reflexivity).
           clearbody l1'.
           intros H. apply IH in H; rewrite ?P1'; cbn [image.X image.Y]; try lia.
           destruct H as (C & X' & Y' & R).
           split; [eapply same_config_trans; [exact C1 |];
                   eapply same_config_trans; eassumption |].
           split; [exact X' |]. split; [exact Y' |].
           intros Hok. destruct (R Hok) as [R1 A1]. split.
           ++ rewrite (remaining_line_start l1') in R1
                by (rewrite P1'; cbn [image.X image.Y]; lia).
              rewrite P1' in R1. cbn [image.X image.Y] in R1.
              rewrite (tailsum_same _ _ _ C1'), (tailsum_same _ _ _ C1) in R1. lia.
           ++ unfold advanced in *. rewrite P1' in A1. cbn [image.X image.Y] in A1. lia.
        -- cbv zeta.
           set (l2 := SI.set_layout l1 (text.Layout_ (SI.line l1))).
           pose proof (skipClipped_post (text.Advances (SI.layout l2)) l2) as (C3 & Y3 & X3 & L3).
           set (l3 := SI.skipClipped (text.Advances (SI.layout l2)) l2) in *.
           assert (C2 : same_config l1 l2) by (split; reflexivity).
           assert (P2 : SI.pos l2 = SI.pos l) by exact P1.
           assert (L2 : text.Text (SI.layout l2) = text.Text (text.Layout_ ln))
             by (unfold l2; cbn; rewrite Li1; reflexivity).
           clearbody l2 l3. rewrite P2 in *. rewrite L2 in L3.
           intros H. apply segment_post in H; [| lia].
           destruct H as (Hok & C4 & H).
           assert (C : same_config l l').
           { eapply same_config_trans; [exact C1 |].
             eapply same_config_trans; [exact C2 |].
             eapply same_config_trans; [exact C3 | exact C4]. }
           split; [exact C |].
           destruct H as [H | (H1 & H2 & H3)].
           ++ rewrite H. cbn. split; [lia |]. split; [lia |]. intros _. split.
              ** rewrite remaining_line_start by (rewrite H; cbn; lia).
                 rewrite H. cbn. rewrite Y3, (tailsum_same _ _ _ C). lia.
              ** unfold advanced. rewrite H. cbn. lia.
           ++ split; [lia |]. split; [lia |]. intros _. split.
              ** destruct C as [CL CA].
                 rewrite remaining_in_line by (rewrite ?CL; lia).
                 rewrite H1, Y3, CL. unfold SI.textLen in Rl. lia.
              ** unfold advanced. lia.
    + (* inside a line *)
      intros H. apply segment_post in H; [| lia].
      destruct H as (Hok & C & H).
      split; [exact C |].
      rewrite (remaining_in_line l) by lia.
      destruct H as [H | (H1 & H2 & H3)].
      * rewrite H. cbn. split; [lia |]. split; [lia |]. intros _. split.
        -- rewrite remaining_line_start by (rewrite H; cbn; lia).
           rewrite H. cbn. rewrite (tailsum_same _ _ _ C). lia.
        -- unfold advanced. rewrite H. cbn. lia.
      * split; [lia |]. split; [lia |]. intros _. split.
        -- destruct C as [CL CA].
           rewrite remaining_in_line by (rewrite ?CL; lia).
           rewrite H1, CL. lia.
        -- unfold advanced. lia.
Qed.

Lemma Next_loop_fuel (fuel : nat) :
  forall l : SI.t,
  (1 <= fuel)%nat ->
  (image.X (SI.pos l) = 0 -> 0 <= image.Y (SI.pos l) ->
   (Z.to_nat (go.len (SI.Lines l) - image.Y (SI.pos l)) < fuel)%nat) ->
  SI.Next_loop fuel l <> go.OutOfFuel.
Proof.
  induction fuel as [| fuel IH]; intros l H1 H2; [lia |].
  rewrite Next_loop_S.
  destruct (Z.ltb_spec (image.Y (SI.pos l)) (go.len (SI.Lines l))) as [Hlen | Hlen]; cbn [negb];
    [| discriminate].
  destruct (Z.eqb_spec (image.X (SI.pos l)) 0) as [HX0 | HX0]; [| apply segment_fuel].
  destruct (go.index _ _) as [ln | |] eqn:Ei; cbn [go.bind];
    [| discriminate | destruct (index_fuel _ _ Ei)].
  apply index_inv in Ei. destruct Ei as [HY _].
  destruct (SI.startLine l ln) as [l1 | |] eqn:Es; cbn [go.bind];
    [| discriminate | destruct (startLine_fuel _ _ Es)].
  apply startLine_post in Es. destruct Es as ([CL _] & P1 & _ & _).
  destruct (_ >? _); [discriminate |].
  destruct (_ <? _); [| apply segment_fuel].
  specialize (H2 HX0 ltac:(lia)).
  apply IH; cbn; rewrite ?P1, ?CL; lia.
Qed.

Lemma Next_fuel (l : SI.t) : SI.Next l <> go.OutOfFuel.
Proof.
  unfold SI.Next. apply Next_loop_fuel; [lia |].
  intros _ HY. unfold go.len. lia.
Qed.

(** ** The iterator: well-formed layouts do not panic *)

Lemma rangeText_wf (sizes : list Z) :
  forall (n : Z) (selected : bool) (l : SI.t) (endx : fixed.Int26_6) (rune : Z)
         (retLayout : text.Layout),
  sizes = utf8.runeSizes (skipn (Z.to_nat n) (text.Text (SI.layout l))) ->
  0 <= n <= go.len (text.Text (SI.layout l)) -> 0 <= rune ->
  (List.length sizes + Z.to_nat rune <= List.length (text.Advances (SI.layout l)))%nat ->
  exists l' endx' ret' nextLine,
    SI.rangeText sizes n selected l endx rune retLayout = go.Done (l', endx', ret', nextLine)
    /\ (nextLine = false -> layout_wf (SI.layout l')).
Proof.
  induction sizes as [| sz rest IH]; intros n selected l endx rune retLayout Hs Hn Hr Hl.
  - eexists _, _, _, _. split; [reflexivity | discriminate].
  - cbn [SI.rangeText]. cbn [List.length] in Hl.
    assert (Hr' : 0 <= rune < go.len (text.Advances (SI.layout l))) by (unfold go.len; lia).
    destruct (_ || _).
    + unfold go.slice_to. rewrite !slice_Done by lia. cbn [go.bind].
      destruct (negb _).
      * rewrite !slice_from_Done by lia. cbn [go.bind].
        eexists _, _, _, _. split; [reflexivity |]. intros _.
        unfold layout_wf. cbn [SI.layout SI.set_layout text.Text text.Advances].
        rewrite <- Hs, length_skipn. cbn [List.length]. lia.
      * eexists _, _, _, _. split; [reflexivity | discriminate].
    + destruct (index_total (text.Advances (SI.layout l)) rune Hr') as [adv ->]. cbn [go.bind].
      symmetry in Hs. apply runeSizes_step in Hs. destruct Hs as [Hsz Hrest].
      rewrite skipn_skipn in Hrest.
      assert (Hlen : go.len (skipn (Z.to_nat n) (text.Text (SI.layout l)))
                     = go.len (text.Text (SI.layout l)) - n).
      { unfold go.len in *. rewrite length_skipn. lia. }
      apply IH; cbn [SI.layout SI.set_pos]; try lia.
      rewrite <- Hrest. f_equal. f_equal. lia.
Qed.

Lemma segment_wf (l : SI.t) :
  layout_wf (SI.layout l) ->
  exists r l', SI.segment l = go.Done (r, l')
               /\ (image.X (SI.pos l') <> 0 -> layout_wf (SI.layout l')).
Proof.
  intros Hw. unfold SI.segment.
  destruct (rangeText_wf (utf8.runeSizes (text.Text (SI.layout l))) 0 (SI.inSelection l) l
              (fixed.X (SI.off l)) 0 (SI.layout l))
    as (l1 & endx & ret1 & nextLine & -> & H).
  - reflexivity.
  - unfold go.len. lia.
  - lia.
  - unfold layout_wf in Hw. lia.
  - cbn [go.bind]. eexists _, _. split; [reflexivity |].
    destruct nextLine; cbn; [congruence | intros _; apply H; reflexivity].
Qed.

Lemma skipClipped_wf (advances : list fixed.Int26_6) :
  forall l : SI.t,
  advances = text.Advances (SI.layout l) -> layout_wf (SI.layout l) ->
  layout_wf (SI.layout (SI.skipClipped advances l)).
Proof.
  induction advances as [| adv rest IH]; intros l Ha Hw; [exact Hw |].
  cbn [SI.skipClipped].
  destruct (_ >=? _); [exact Hw |]. cbv zeta.
  apply IH; [reflexivity |].
  unfold layout_wf in *.
  cbn [SI.layout SI.set_layout SI.set_pos SI.set_off text.Text text.Advances].
  rewrite <- Ha in Hw. cbn [List.length] in Hw.
  destruct (text.Text (SI.layout l)) as [| b t] eqn:Et.
  - cbn. lia.
  - rewrite runeSizes_cons in Hw. cbn [List.length] in Hw. lia.
Qed.

Lemma startLine_known (l : SI.t) (ln : text.Line) :
  known_alignment (SI.Alignment l) -> exists l1, SI.startLine l ln = go.Done l1.
Proof.
  intros K. unfold SI.startLine.
  destruct (align_known _ (text.Width ln) (SI.Width l) K) as [a ->]. cbn [go.bind].
  eexists. reflexivity.
Qed.

Lemma Next_loop_wf (fuel : nat) :
  forall l : SI.t,
  well_formed l -> 0 <= image.X (SI.pos l) -> 0 <= image.Y (SI.pos l) ->
  match SI.Next_loop fuel l with
  | go.Done (_, l') => well_formed l'
  | go.Panic _ => False
  | go.OutOfFuel => True
  end.
Proof.
  induction fuel as [| fuel IH]; intros l (WA & WL & WC) HX HY.
  - cbn. destruct (negb _); [| exact I]. repeat split; assumption.
  - rewrite Next_loop_S.
    destruct (Z.ltb_spec (image.Y (SI.pos l)) (go.len (SI.Lines l))) as [Hlen | Hlen]; cbn [negb];
      [| repeat split; assumption].
    destruct (Z.eqb_spec (image.X (SI.pos l)) 0) as [HX0 | HX0].
    + destruct (index_total (SI.Lines l) (image.Y (SI.pos l)) ltac:(lia)) as [ln Hln].
      rewrite Hln. cbn [go.bind]. apply index_inv in Hln. destruct Hln as [_ Hnth].
      assert (Wln : layout_wf (text.Layout_ ln)).
      { rewrite Forall_forall in WL. apply WL. eapply nth_error_In. exact Hnth. }
      destruct (startLine_known l ln WA) as [l1 Es]. rewrite Es. cbn [go.bind].
      apply startLine_post in Es. destruct Es as ([CL CA] & P1 & La1 & Li1).
      assert (W1 : well_formed l1).
      { split; [rewrite CA; exact WA |]. split; [rewrite CL; exact WL |].
        rewrite P1, La1. exact WC. }
      destruct (_ >? _); [exact W1 |].
      destruct (_ <? _).
      * apply IH; cbn [SI.pos SI.set_pos image.X image.Y]; rewrite ?P1; try lia.
        destruct W1 as (W1a & W1b & _). split; [exact W1a |]. split; [exact W1b |].
        cbn [SI.pos SI.set_pos image.X image.Y]. rewrite ?P1. intros H. congruence.
      * cbv zeta.
        set (l2 := SI.set_layout l1 (text.Layout_ (SI.line l1))).
        assert (W2 : layout_wf (SI.layout l2)) by (unfold l2; cbn; rewrite Li1; exact Wln).
        pose proof (skipClipped_wf (text.Advances (SI.layout l2)) l2 eq_refl W2) as W3.
        pose proof (skipClipped_post (text.Advances (SI.layout l2)) l2) as ([CL3 CA3] & _ & X3 & _).
        assert (CL2 : SI.Lines l2 = SI.Lines l1) by reflexivity.
        assert (CA2 : SI.Alignment l2 = SI.Alignment l1) by reflexivity.
        assert (P2 : SI.pos l2 = SI.pos l) by exact P1.
        set (l3 := SI.skipClipped _ l2) in *. clearbody l3 l2.
        destruct (segment_wf l3 W3) as (r & l' & E & W').
        rewrite E. pose proof E as E'. apply segment_post in E'; [| rewrite P2 in X3; lia].
        destruct E' as (_ & [CL4 CA4] & _).
        split; [congruence |]. split; [congruence | exact W'].
    + destruct (segment_wf l (WC HX0)) as (r & l' & E & W').
      rewrite E. pose proof E as E'. apply segment_post in E'; [| lia].
      destruct E' as (_ & [CL4 CA4] & _).
      split; [congruence |]. split; [congruence | exact W'].
Qed.

(** ** The iterator comes to an end *)

(** The sample lines "abc" and "de" with the selection from column 1
    of the first to column 1 of the second: four segments, the two in
    the middle selected. *)
Example drain_example :
  (do (rs, _) <- SI.drain 8 (sample_iterator text.Start);
   go.Done (List.map (fun r => (text.Text (SI.r_layout r), SI.r_selected r)) rs))
  = go.Done [(go.str "a", false); (go.str "bc", true); (go.str "d", true); (go.str "e", false)]
  /\ SI.remaining (sample_iterator text.Start) = 7%nat.
Proof. split; vm_compute; reflexivity. Qed.

(** Within [remaining l] calls that return [ok = true], a call returns
    [ok = false] or panics. *)
Lemma stops_or_panics (n : nat) :
  forall l : SI.t,
  0 <= image.X (SI.pos l) -> 0 <= image.Y (SI.pos l) -> (SI.remaining l < n)%nat ->
  exists k, (k <= SI.remaining l)%nat
            /\ ((exists l', stops_after l k l') \/ (exists p, panics_after l k p)).
Proof.
  induction n as [| n IH]; intros l HX HY Hn; [lia |].
  destruct (SI.Next l) as [[r l1] | p |] eqn:E.
  - pose proof E as E'. unfold SI.Next in E'.
    apply Next_loop_post in E'; [| exact HX | exact HY].
    destruct E' as (C & X1 & Y1 & R).
    destruct (SI.r_ok r) eqn:Eok.
    + destruct (R eq_refl) as [R1 _].
      destruct (IH l1 X1 Y1 ltac:(lia)) as (k & Hk & [[l' H] | [p H]]).
      * exists (S k). split; [lia |]. left. exists l'. eapply stops_later; eassumption.
      * exists (S k). split; [lia |]. right. exists p. eapply panics_later; eassumption.
    + exists 0%nat. split; [lia |]. left. exists l1. eapply stops_now; eassumption.
  - exists 0%nat. split; [lia |]. right. exists p. apply panics_now. exact E.
  - destruct (Next_fuel l E).
Qed.

Lemma stops_when_well_formed (n : nat) :
  forall l : SI.t,
  well_formed l ->
  0 <= image.X (SI.pos l) -> 0 <= image.Y (SI.pos l) -> (SI.remaining l < n)%nat ->
  exists k l', (k <= SI.remaining l)%nat /\ stops_after l k l'.
Proof.
  induction n as [| n IH]; intros l W HX HY Hn; [lia |].
  pose proof (Next_loop_wf (S (List.length (SI.Lines l))) l W HX HY) as W1.
  fold (SI.Next l) in W1.
  destruct (SI.Next l) as [[r l1] | p |] eqn:E.
  - pose proof E as E'. unfold SI.Next in E'.
    apply Next_loop_post in E'; [| exact HX | exact HY].
    destruct E' as (C & X1 & Y1 & R).
    destruct (SI.r_ok r) eqn:Eok.
    + destruct (R eq_refl) as [R1 _].
      destruct (IH l1 W1 X1 Y1 ltac:(lia)) as (k & l' & Hk & H).
      exists (S k), l'. split; [lia |]. eapply stops_later; eassumption.
    + exists 0%nat, l1. split; [lia |]. eapply stops_now; eassumption.
  - destruct W1.
  - destruct (Next_fuel l E).
Qed.

(** [drain] with enough fuel follows the calls. *)
Lemma drain_stops_after (n : nat) :
  forall (l l' : SI.t) (k : nat),
  stops_after l k l' -> (k < n)%nat ->
  exists rs, SI.drain n l = go.Done (rs, l') /\ List.length rs = k.
Proof.
  induction n as [| n IH]; intros l l' k H Hk; [lia |].
  cbn [SI.drain]. destruct H as [l l' r E Eok | l l1 l' r k E Eok H].
  - rewrite E. cbn [go.bind]. rewrite Eok. exists []. split; reflexivity.
  - rewrite E. cbn [go.bind]. rewrite Eok.
    destruct (IH _ _ _ H ltac:(lia)) as (rs & -> & Hl). cbn [go.bind].
    exists (r :: rs). split; [reflexivity | cbn [List.length]; lia].
Qed.

Lemma drain_panics_after (n : nat) :
  forall (l : SI.t) (k : nat) (p : go.panic),
  panics_after l k p -> (k < n)%nat -> SI.drain n l = go.Panic p.
Proof.
  induction n as [| n IH]; intros l k p H Hk; [lia |].
  cbn [SI.drain]. destruct H as [l p E | l l1 r k p E Eok H].
  - rewrite E. reflexivity.
  - rewrite E. cbn [go.bind]. rewrite Eok.
    rewrite (IH _ _ _ H ltac:(lia)). reflexivity.
Qed.

Lemma new_position (lines : list text.Line) (clip : image.Rectangle)
    (a : text.Alignment) (width : Z) (offset : image.Point) (s1 s2 : Point.t) :
  SI.pos (SI.new lines clip a width offset s1 s2) = image.ZP.
Proof. reflexivity. Qed.

Lemma drain_fuel (l : SI.t) :
  0 <= image.X (SI.pos l) -> 0 <= image.Y (SI.pos l) ->
  SI.drain (S (SI.remaining l)) l <> go.OutOfFuel.
Proof.
  intros HX HY.
  destruct (stops_or_panics (S (SI.remaining l)) l HX HY ltac:(lia))
    as (k & Hk & [[l' H] | [p H]]).
  - destruct (drain_stops_after (S (SI.remaining l)) _ _ _ H ltac:(lia)) as (rs & -> & _).
    discriminate.
  - rewrite (drain_panics_after (S (SI.remaining l)) _ _ _ H ltac:(lia)). discriminate.
Qed.

Lemma Label_Layout_fuel (lab : Label.t) (Constrain : image.Point -> image.Point)
    (shaped : list text.Line) :
  Label.Layout lab Constrain shaped <> go.OutOfFuel.
Proof.
  unfold Label.Layout.
  destruct (if (Label.MaxLines lab >? 0) && (go.len shaped >? Label.MaxLines lab)
            then go.slice_to shaped (Label.MaxLines lab) else go.Done shaped)
    as [lines | p |] eqn:El; cbn [go.bind]; [| discriminate |].
  - cbv zeta.
    match goal with |- context [SI.drain (S (SI.remaining ?i)) ?i] => set (it := i) end.
    assert (Hd : SI.drain (S (SI.remaining it)) it <> go.OutOfFuel)
      by (apply drain_fuel; unfold it; rewrite new_position; cbn; lia).
    destruct (SI.drain (S (SI.remaining it)) it) as [[rs l'] | p |]; cbn [go.bind];
      [discriminate | discriminate | congruence].
  - destruct (_ && _); [| discriminate]. destruct (slice_fuel _ _ _ El).
Qed.

Lemma scrollRel_fuel (e : Editor.t) (dx dy : Z) : Editor.scrollRel e dx dy <> go.OutOfFuel.
Proof.
  destruct (scrollRel_cases e dx dy) as [[p ->] | [o ->]]; discriminate.
Qed.

Lemma Editor_layout_fuel (makeValid : Editor.t -> go.outcome Editor.t)
    (blinkOn : bool) (e : Editor.t) :
  (forall e', makeValid e' <> go.OutOfFuel) ->
  Editor.layout makeValid blinkOn e <> go.OutOfFuel.
Proof.
  intros Hmv. unfold Editor.layout.
  destruct (Editor.scrollRel e 0 0) as [e1 | p |] eqn:E1; cbn [go.bind];
    [| discriminate | destruct (scrollRel_fuel _ _ _ E1)].
  destruct (if Editor.scroll (Editor.caret e1)
            then Editor.scrollToCaret makeValid
                   (Editor.set_caret e1 (Editor.set_scroll (Editor.caret e1) false))
            else go.Done e1) as [e2 | p |] eqn:E2; cbn [go.bind]; [| discriminate |].
  - destruct (sortPoints _ _) as [startSel endSel].
    match goal with |- context [SI.drain (S (SI.remaining ?i)) ?i] => set (it := i) end.
    assert (Hd : SI.drain (S (SI.remaining it)) it <> go.OutOfFuel)
      by (apply drain_fuel; unfold it; rewrite new_position; cbn; lia).
    destruct (SI.drain (S (SI.remaining it)) it) as [[rs l'] | p |]; cbn [go.bind];
      [discriminate | discriminate | congruence].
  - destruct (Editor.scroll (Editor.caret e1)); [| discriminate].
    unfold Editor.scrollToCaret in E2.
    destruct (makeValid _) as [e3 | p |] eqn:E3; cbn [go.bind] in E2;
      [| discriminate | destruct (Hmv _ E3)].
    destruct (go.index _ _) as [ln | p |] eqn:E4; cbn [go.bind] in E2;
      [| discriminate | destruct (index_fuel _ _ E4)].
    destruct (Editor.SingleLine e3); destruct (scrollRel_fuel _ _ _ E2).
Qed.

(** The claim of C3 fails where [Next] panics: with an alignment that
    is none of the three, the first call panics in [align], and no
    number of calls reaches [ok = false]. *)
Lemma unknown_alignment_never_reaches_stop :
  SI.Next (sample_iterator 7) = go.Panic (go.UnknownAlignment 7)
  /\ forall (k : nat) (l' : SI.t), ~ stops_after (sample_iterator 7) k l'.
Proof.
  assert (E : SI.Next (sample_iterator 7) = go.Panic (go.UnknownAlignment 7)) by reflexivity.
  split; [exact E |].
  intros k l' H. inversion H; congruence.
Qed.

(** C3, amended.  For every segmentIterator whose position is not
    negative, as for every iterator the code builds and every state [Next]
    leaves behind: every call of [Next] that returns [ok = true] strictly
    advances the iterator, to a later rune of the line or to a later
    line, taking at least one byte off the rest of the current line or
    leaving the line behind, so that the bound [remaining] drops; every
    call returns or panics; and after at most
    [remaining] calls that return [ok = true] a call returns [ok = false]
    or panics.  No call panics, and [ok = false] is reached, when the
    alignment is one of the three and no line has fewer advances than
    runes.  The loops over [Next] in [Label.Layout] and in the editor's
    [layout] come to an end likewise. *)
Theorem segmentIterator_terminates (l : SI.t) :
  0 <= image.X (SI.pos l) -> 0 <= image.Y (SI.pos l) ->
  (forall r l', SI.Next l = go.Done (r, l') ->
     0 <= image.X (SI.pos l') /\ 0 <= image.Y (SI.pos l')
     /\ (SI.r_ok r = true -> (SI.remaining l' < SI.remaining l)%nat /\ advanced l l'))
  /\ SI.Next l <> go.OutOfFuel
  /\ (exists k, (k <= SI.remaining l)%nat
                /\ ((exists l', stops_after l k l') \/ (exists p, panics_after l k p)))
  /\ (well_formed l -> exists k l', (k <= SI.remaining l)%nat /\ stops_after l k l')
  /\ (forall lab Constrain shaped, Label.Layout lab Constrain shaped <> go.OutOfFuel)
  /\ (forall makeValid blinkOn e,
        (forall e', makeValid e' <> go.OutOfFuel) ->
        Editor.layout makeValid blinkOn e <> go.OutOfFuel).
Proof.
  intros HX HY. split; [| split; [| split; [| split; [| split]]]].
  - intros r l' E. unfold SI.Next in E. apply Next_loop_post in E; [| exact HX | exact HY].
    tauto.
  - apply Next_fuel.
  - apply (stops_or_panics (S (SI.remaining l))); [exact HX | exact HY | lia].
  - intros W. apply (stops_when_well_formed (S (SI.remaining l))); [exact W | exact HX | exact HY | lia].
  - apply Label_Layout_fuel.
  - apply Editor_layout_fuel.
Qed.

Lemma segmentIterator_terminates_witness :
  exists k l', (k <= SI.remaining (sample_iterator text.Start))%nat
               /\ stops_after (sample_iterator text.Start) k l'.
Proof.
  destruct (segmentIterator_terminates (sample_iterator text.Start)) as (_ & _ & _ & H & _ & _).
  - cbn. lia.
  - cbn. lia.
  - apply H. split; [left; reflexivity |]. split.
    + repeat constructor.
    + intros C. exfalso. apply C. reflexivity.
Defined.

(** ** [align] and the layouts that call it *)

Lemma Next_unknown_alignment (lines : list text.Line) (clip : image.Rectangle)
    (a : text.Alignment) (width : Z) (offset : image.Point) (s1 s2 : Point.t) :
  lines <> [] -> ~ known_alignment a ->
  segmentIterator.Next (segmentIterator.new lines clip a width offset s1 s2)
  = go.Panic (go.UnknownAlignment a).
Proof.
  intros Hl Ha. destruct lines as [| l0 ls]; [congruence |].
  unfold segmentIterator.Next. rewrite Next_loop_S.
  cbn [segmentIterator.new segmentIterator.pos segmentIterator.Lines image.X image.Y image.ZP].
  replace (0 <? go.len (l0 :: ls)) with true
    by (symmetry; apply Z.ltb_lt; unfold go.len; cbn [List.length]; lia).
  cbn [negb Z.eqb]. rewrite index_head. cbn [go.bind].
  unfold segmentIterator.startLine. cbn [segmentIterator.Alignment].
  rewrite (align_unknown _ _ _ Ha). reflexivity.
Qed.

(** The claim of C8 fails at [Middle]: a line of 10 pixels and a 64th
    in a width of 10 pixels is shifted by 0, where the floor of half the
    difference is -1. *)
Lemma align_middle_truncates_half :
  align text.Middle 641 10 = go.Done 0
  /\ align_stated text.Middle 641 10 = Some (-1)
  /\ align text.Middle 641 10 <> go.Done (fixed.I (-1)).
Proof. repeat split. discriminate. Qed.

Lemma Label_Layout_unknown_alignment (l : Label.t) (Constrain : image.Point -> image.Point)
    (shaped : list text.Line) :
  shaped <> [] -> ~ known_alignment (Label.Alignment l) ->
  Label.Layout l Constrain shaped = go.Panic (go.UnknownAlignment (Label.Alignment l)).
Proof.
  intros Hs Ha. unfold Label.Layout.
  assert (exists lines, lines <> [] /\
            (if (Label.MaxLines l >? 0) && (go.len shaped >? Label.MaxLines l)
             then go.slice_to shaped (Label.MaxLines l) else go.Done shaped) = go.Done lines)
    as (lines & Hl & ->).
  { destruct ((Label.MaxLines l >? 0) && (go.len shaped >? Label.MaxLines l)) eqn:E.
    - apply andb_prop in E. destruct E as [E1 E2].
      apply Z.gtb_lt in E1. apply Z.gtb_lt in E2.
      unfold go.slice_to, go.slice.
      destruct (Z.ltb_spec 0 0); [lia |].
      destruct (Z.ltb_spec (Label.MaxLines l) 0); [lia |].
      destruct (Z.ltb_spec (go.len shaped) (Label.MaxLines l)); [lia |]. cbn.
      eexists. split; [| reflexivity].
      destruct shaped as [| s0 ss]; [congruence |].
      destruct (Z.to_nat (Label.MaxLines l - 0)) eqn:En; [lia | cbn; discriminate].
    - exists shaped. split; [exact Hs | reflexivity]. }
  cbn [go.bind]. cbv zeta.
  cbn [segmentIterator.drain].
  rewrite (Next_unknown_alignment _ _ _ _ _ _ _ Hl Ha). reflexivity.
Qed.

Lemma Label_Layout_no_lines (l : Label.t) (Constrain : image.Point -> image.Point) :
  exists dims, Label.Layout l Constrain [] = go.Done ([], dims).
Proof.
  unfold Label.Layout.
  replace ((Label.MaxLines l >? 0) && (go.len (@nil text.Line) >? Label.MaxLines l))
    with false.
  - cbn [go.bind]. eexists. reflexivity.
  - symmetry. apply andb_false_iff. change (go.len (@nil text.Line)) with 0.
    destruct (Z.gtb_spec (Label.MaxLines l) 0); [right | left; reflexivity].
    rewrite Z.gtb_ltb. apply Z.ltb_ge. lia.
Qed.

Lemma Editor_layout_unknown_alignment (makeValid : Editor.t -> go.outcome Editor.t)
    (blinkOn : bool) (e : Editor.t) :
  (forall e', Editor.valid e' = true -> makeValid e' = go.Done e') ->
  Editor.valid e = true -> Editor.lines e <> [] -> ~ known_alignment (Editor.Alignment e) ->
  exists p, Editor.layout makeValid blinkOn e = go.Panic p.
Proof.
  intros Hmv Hv Hl Ha. unfold Editor.layout.
  destruct (scrollRel_cases e 0 0) as [[p ->] | [o ->]]; [eexists; reflexivity |].
  cbn [go.bind].
  set (e1 := Editor.set_scrollOff e o).
  assert (exists e2, (Editor.lines e2 = Editor.lines e /\ Editor.Alignment e2 = Editor.Alignment e)
            /\ ((exists p, (if Editor.scroll (Editor.caret e1)
                           then Editor.scrollToCaret makeValid
                                  (Editor.set_caret e1 (Editor.set_scroll (Editor.caret e1) false))
                           else go.Done e1) = go.Panic p)
                \/ (if Editor.scroll (Editor.caret e1)
                    then Editor.scrollToCaret makeValid
                           (Editor.set_caret e1 (Editor.set_scroll (Editor.caret e1) false))
                    else go.Done e1) = go.Done e2)) as (e2 & [L2 A2] & H).
  { destruct (Editor.scroll (Editor.caret e1)).
    - unfold Editor.scrollToCaret. rewrite Hmv by exact Hv. cbn [go.bind].
      set (e1' := Editor.set_caret e1 _).
      destruct (go.index (Editor.lines e1') (Editor.c_line (Editor.caret e1'))) as [ln | p |] eqn:Ei.
      + cbn [go.bind].
        assert (forall dx dy, exists e2,
                   (Editor.lines e2 = Editor.lines e /\ Editor.Alignment e2 = Editor.Alignment e)
                   /\ ((exists p, Editor.scrollRel e1' dx dy = go.Panic p)
                       \/ Editor.scrollRel e1' dx dy = go.Done e2)) as Hrel.
        { intros dx dy. destruct (scrollRel_cases e1' dx dy) as [[p Hp] | [o' Ho']].
          - exists e. split; [split; reflexivity |]. left. eauto.
          - eexists. split; [| right; exact Ho']. split; reflexivity. }
        destruct (Editor.SingleLine e1'); apply Hrel.
      + exists e. split; [split; reflexivity |]. left. eexists. reflexivity.
      + unfold go.index in Ei.
        destruct ((_ <? 0) || _); [discriminate |].
        destruct (nth_error _ _); discriminate.
    - exists e1. split; [split; reflexivity |]. right. reflexivity. }
  destruct H as [[p ->] | ->]; [eexists; reflexivity |].
  cbn [go.bind]. destruct (sortPoints _ _) as [startSel endSel].
  cbn [segmentIterator.drain].
  rewrite Next_unknown_alignment by (rewrite ?L2, ?A2; assumption).
  rewrite A2. eexists. reflexivity.
Qed.

(** C8, amended.  [align] returns for the three alignments and panics
    for every other value.  It returns 0 for [Start], the 26.6 value of
    the floor of [maxWidth - width] for [End], and for [Middle] the 26.6
    value of the floor of the half of [maxWidth - width] that Go's
    integer division of the 26.6 difference gives, which truncates toward
    zero; without overflow these are 64 times [(64 maxWidth - width) / 64]
    and 64 times [((64 maxWidth - width) quot 2) / 64].  For any other
    alignment [Label.Layout] panics as soon as the shaper returns a line,
    and the editor's [layout] panics as soon as it has a line; with no
    line to lay out [align] is not called and [Label.Layout] returns. *)
Theorem align_total_on_three_alignments (a : text.Alignment) (width maxWidth : Z) :
  align text.Start width maxWidth = go.Done 0
  /\ align text.End_ width maxWidth
     = go.Done (fixed.I (fixed.Floor (fixed.sub (fixed.I maxWidth) width)))
  /\ align text.Middle width maxWidth
     = go.Done (fixed.I (fixed.Floor (fixed.half (fixed.sub (fixed.I maxWidth) width))))
  /\ (- 2 ^ 31 <= 64 * maxWidth - width < 2 ^ 31 -> - 2 ^ 25 <= maxWidth < 2 ^ 25 ->
      align text.End_ width maxWidth = go.Done (64 * ((64 * maxWidth - width) / 64))
      /\ align text.Middle width maxWidth
         = go.Done (64 * (Z.quot (64 * maxWidth - width) 2 / 64)))
  /\ (known_alignment a -> exists v, align a width maxWidth = go.Done v)
  /\ (~ known_alignment a ->
      align a width maxWidth = go.Panic (go.UnknownAlignment a)
      /\ (forall l Constrain shaped,
            Label.Alignment l = a -> shaped <> [] ->
            Label.Layout l Constrain shaped = go.Panic (go.UnknownAlignment a))
      /\ (forall makeValid blinkOn e,
            Editor.Alignment e = a ->
            (forall e', Editor.valid e' = true -> makeValid e' = go.Done e') ->
            Editor.valid e = true -> Editor.lines e <> [] ->
            exists p, Editor.layout makeValid blinkOn e = go.Panic p))
  /\ (forall l Constrain, exists dims, Label.Layout l Constrain [] = go.Done ([], dims)).
Proof.
  split; [reflexivity |]. split; [reflexivity |]. split; [reflexivity |].
  split; [| split; [| split; [| apply Label_Layout_no_lines]]].
  - intros Hd Hm.
    assert (EI : fixed.I maxWidth = 64 * maxWidth).
    { unfold fixed.I. rewrite wrap32_small; [lia |].
      change (2 ^ 31) with (64 * 2 ^ 25). lia. }
    assert (ES : fixed.sub (fixed.I maxWidth) width = 64 * maxWidth - width).
    { unfold fixed.sub. rewrite EI. apply wrap32_small. exact Hd. }
    split.
    + change (align text.End_ width maxWidth)
        with (go.Done (fixed.I (fixed.Floor (fixed.sub (fixed.I maxWidth) width)))).
      rewrite ES, I_Floor_small by exact Hd. reflexivity.
    + change (align text.Middle width maxWidth)
        with (go.Done (fixed.I (fixed.Floor (fixed.half (fixed.sub (fixed.I maxWidth) width))))).
      rewrite ES. unfold fixed.half. rewrite I_Floor_small; [reflexivity |].
      set (d := 64 * maxWidth - width) in *.
      pose proof (Z.quot_rem d 2 ltac:(lia)) as Q.
      pose proof (Z.rem_bound_abs d 2 ltac:(lia)) as B.
      change (2 ^ 31) with 2147483648 in *. lia.
  - apply align_known.
  - intros Ha. split; [apply align_unknown; exact Ha |]. split.
    + intros l C shaped <- Hs. apply Label_Layout_unknown_alignment; assumption.
    + intros mv blinkOn e <- Hmv Hv Hl.
      apply Editor_layout_unknown_alignment; assumption.
Qed.

Lemma align_total_on_three_alignments_witness :
  align text.Middle 641 10 = go.Done (64 * (Z.quot (64 * 10 - 641) 2 / 64))
  /\ align 7 641 10 = go.Panic (go.UnknownAlignment 7)
  /\ (exists v, align text.End_ 641 10 = go.Done v).
Proof.
  pose proof (align_total_on_three_alignments 7 641 10) as (_ & _ & _ & H4 & _ & H6 & _).
  pose proof (align_total_on_three_alignments text.End_ 641 10) as (_ & _ & _ & _ & H5 & _).
  split; [| split].
  - apply H4; lia.
  - apply H6. unfold known_alignment, text.Start, text.End_, text.Middle. lia.
  - apply H5. right. left. reflexivity.
Defined.

(** ** The order of points and [sortPoints] *)

Lemma Less_spec (p q : Point.t) :
  Point.Less p q = true
  <-> image.Y p < image.Y q \/ (image.Y p = image.Y q /\ image.X p < image.X q).
Proof. unfold Point.Less. bool_to_Z. reflexivity. Qed.

Lemma LessOrEqual_spec (p q : Point.t) :
  Point.LessOrEqual p q = true
  <-> image.Y p < image.Y q \/ (image.Y p = image.Y q /\ image.X p <= image.X q).
Proof. unfold Point.LessOrEqual. bool_to_Z. reflexivity. Qed.

Lemma Point_eq (p q : Point.t) :
  image.X p = image.X q -> image.Y p = image.Y q -> p = q.
Proof. destruct p, q. cbn. intros -> ->. reflexivity. Qed.

Lemma bool_eq_iff (a b : bool) : (a = true <-> b = true) -> a = b.
Proof. destruct a, b; intros [H1 H2]; auto; symmetry; auto. Qed.

(** X1.  [Less] is the strict lexicographic order of points, by line
    and then by column: a point on an earlier line is before one on a
    later line whatever their columns, and on one line the order is that
    of the columns.  No point is before itself, the order is transitive,
    and of two different points one is before the other.
    [LessOrEqual] is the same order with equality let in: it holds
    exactly when the points are equal or the first is before the second,
    which is when the second is not before the first. *)
Theorem Point_Less_is_a_strict_total_order (p q r : Point.t) :
  Point.Less p p = false
  /\ (Point.Less p q = true -> Point.Less q r = true -> Point.Less p r = true)
  /\ (Point.Less p q = true \/ p = q \/ Point.Less q p = true)
  /\ (Point.Less p q = true -> Point.Less q p = false)
  /\ (Point.LessOrEqual p q = true <-> Point.Less p q = true \/ p = q)
  /\ Point.LessOrEqual p q = negb (Point.Less q p)
  /\ (image.Y p < image.Y q -> Point.Less p q = true)
  /\ (image.Y q < image.Y p -> Point.Less p q = false)
  /\ (image.Y p = image.Y q -> Point.Less p q = (image.X p <? image.X q)).
Proof.
  split; [| split; [| split; [| split; [| split; [| split; [| split; [| split]]]]]]].
  - destruct (Point.Less p p) eqn:E; [| reflexivity]. apply Less_spec in E. lia.
  - rewrite !Less_spec. lia.
  - rewrite !Less_spec.
    destruct (Z.lt_total (image.Y p) (image.Y q)) as [H | [H | H]]; try lia.
    destruct (Z.lt_total (image.X p) (image.X q)) as [H' | [H' | H']]; try lia.
    right. left. apply Point_eq; assumption.
  - intros H. destruct (Point.Less q p) eqn:E; [| reflexivity].
    apply Less_spec in H. apply Less_spec in E. lia.
  - rewrite LessOrEqual_spec, Less_spec. split.
    + intros [H | [H1 H2]]; [lia |].
      destruct (Z.eq_dec (image.X p) (image.X q)); [right; apply Point_eq; assumption | lia].
    + intros [H | ->]; lia.
  - apply bool_eq_iff. rewrite negb_true_iff, LessOrEqual_spec.
    split.
    + intros H. destruct (Point.Less q p) eqn:E; [| reflexivity]. apply Less_spec in E. lia.
    + intros H. destruct (Z.lt_total (image.Y p) (image.Y q)) as [H1 | [H1 | H1]]; try lia.
      * destruct (Z_le_gt_dec (image.X p) (image.X q)); [lia |].
        assert (Point.Less q p = true) by (apply Less_spec; lia). congruence.
      * assert (Point.Less q p = true) by (apply Less_spec; lia). congruence.
  - intros H. apply Less_spec. lia.
  - intros H. destruct (Point.Less p q) eqn:E; [| reflexivity]. apply Less_spec in E. lia.
  - intros H. apply bool_eq_iff. rewrite Less_spec, Z.ltb_lt. lia.
Qed.

(** X2.  [sortPoints] hands back the two points it was given, the
    earlier one first: the result is the pair as it was or swapped, its
    first point is not after its second, it does not depend on the order
    of the arguments, and sorting it again changes nothing. *)
Theorem sortPoints_orders_its_arguments (a b : Point.t) :
  (sortPoints a b = (a, b) \/ sortPoints a b = (b, a))
  /\ Point.LessOrEqual (fst (sortPoints a b)) (snd (sortPoints a b)) = true
  /\ sortPoints b a = sortPoints a b
  /\ sortPoints (fst (sortPoints a b)) (snd (sortPoints a b)) = sortPoints a b
  /\ (Point.LessOrEqual a b = true -> sortPoints a b = (a, b)).
Proof.
  unfold sortPoints.
  destruct (Point.Less b a) eqn:Eba, (Point.Less a b) eqn:Eab; cbn [fst snd];
    rewrite ?Eab, ?Eba;
    try (apply Less_spec in Eba); try (apply Less_spec in Eab);
    try (assert (Nba : ~ (image.Y b < image.Y a \/ (image.Y b = image.Y a /\ image.X b < image.X a)))
           by (rewrite <- Less_spec; congruence));
    try (assert (Nab : ~ (image.Y a < image.Y b \/ (image.Y a = image.Y b /\ image.X a < image.X b)))
           by (rewrite <- Less_spec; congruence)).
  - lia.
  - repeat split; auto.
    + apply LessOrEqual_spec. lia.
    + rewrite LessOrEqual_spec. lia.
  - repeat split; auto. apply LessOrEqual_spec. lia.
  - assert (a = b) by (apply Point_eq; lia). subst b.
    repeat split; auto. apply LessOrEqual_spec. lia.
Qed.

(** ** Scrolling along one axis *)

Lemma wrap_range (w x : Z) : 0 < w -> - 2 ^ (w - 1) <= go.wrap w x < 2 ^ (w - 1).
Proof.
  intros Hw. unfold go.wrap.
  assert (E : 2 ^ w = 2 * 2 ^ (w - 1)).
  { replace w with (Z.succ (w - 1)) at 1 by lia. apply Z.pow_succ_r. lia. }
  assert (0 < 2 ^ (w - 1)) by (apply Z.pow_pos_nonneg; lia).
  pose proof (Z.mod_pos_bound (x + 2 ^ (w - 1)) (2 ^ w) ltac:(lia)). lia.
Qed.

Lemma wrap64_int64 (x : Z) : int64 (go.wrap64 x).
Proof. apply (wrap_range 64 x). lia. Qed.

Lemma wrap32_int32 (x : Z) : int32 (go.wrap32 x).
Proof. apply (wrap_range 32 x). lia. Qed.

Lemma Floor_int32 (x : Z) : int32 x -> int32 (fixed.Floor x).
Proof.
  unfold int32. intros H. rewrite Floor_div.
  pose proof (Z.div_mod x 64 ltac:(lia)). pose proof (Z.mod_pos_bound x 64 ltac:(lia)).
  change (2 ^ 31) with 2147483648 in *. lia.
Qed.

Lemma align_int32 (a : text.Alignment) (width maxWidth v : Z) :
  align a width maxWidth = go.Done v -> int32 v.
Proof.
  unfold align.
  destruct (a =? text.Middle); [intros [= <-]; apply wrap32_int32 |].
  destruct (a =? text.End_); [intros [= <-]; apply wrap32_int32 |].
  destruct (a =? text.Start); [intros [= <-] | discriminate].
  unfold int32. lia.
Qed.

(** The bounds of a single-line editor lie on the horizontal axis and
    those of any other editor on the vertical one, and they are values of
    the type [int]. *)
Lemma scrollBounds_axis (e : Editor.t) (b : image.Rectangle) :
  Editor.scrollBounds e = go.Done b ->
  image.Y (image.Min b) = 0
  /\ (if Editor.SingleLine e
      then image.Y (image.Max b) = 0 /\ image.X (image.Min b) <= 0
      else image.X (image.Min b) = 0 /\ image.X (image.Max b) = 0)
  /\ int64 (image.X (image.Min b)) /\ int64 (image.X (image.Max b))
  /\ int64 (image.Y (image.Max b)).
Proof.
  unfold Editor.scrollBounds. destruct (Editor.SingleLine e).
  - destruct (Editor.lines e) as [| l0 ls].
    + cbn. intros [= <-]. cbn. repeat split; try apply wrap64_int64; unfold int64; lia.
    + destruct (align _ _ _) as [a | |] eqn:Ea; cbn [go.bind]; try discriminate.
      apply align_int32 in Ea. apply Floor_int32 in Ea.
      intros [= <-]. cbn [image.X image.Y image.Min image.Max].
      destruct (Z.gtb_spec (fixed.Floor a) 0);
        repeat split; try apply wrap64_int64; unfold int64, int32 in *; lia.
  - intros [= <-]. cbn. repeat split; try apply wrap64_int64; unfold int64; lia.
Qed.

(** Clamping an offset that lies inside the bounds leaves it alone. *)
Lemma scrollAbs_clamped (e : Editor.t) (b : image.Rectangle) :
  Editor.scrollBounds e = go.Done b -> clamped b (Editor.scrollOff e) ->
  Editor.scrollAbs e (image.X (Editor.scrollOff e)) (image.Y (Editor.scrollOff e)) = go.Done e.
Proof.
  intros Eb Hc. unfold Editor.scrollAbs. rewrite scrollBounds_scrollOff, Eb. cbn [go.bind].
  destruct e as [? ? ? ? ? ? ? ? ? ? ? ? ? ? ? ? ? ? ? [ox oy] ? ?].
  destruct b as [[minX minY] [maxX maxY]]. unfold clamped in Hc. cbn in *.
  clear Eb.
  repeat match goal with
         | |- context [if ?a >? ?b then _ else _] =>
           destruct (Z.gtb_spec a b); cbn [image.X image.Y Editor.scrollOff Editor.set_scrollOff] in *
         | |- context [if ?a <? ?b then _ else _] =>
           destruct (Z.ltb_spec a b); cbn [image.X image.Y Editor.scrollOff Editor.set_scrollOff] in *
         end;
    unfold Editor.set_scrollOff; cbn; repeat f_equal; lia.
Qed.

(** X3.  [SingleLine] sets the direction of scrolling: after
    [scrollAbs], a single-line editor has no vertical offset and any other
    editor no horizontal one.  [scrollAbs] touches nothing but the
    offset, and it is idempotent: clamping the offset it left once more
    changes nothing, and neither does the [scrollRel(0, 0)] by which
    [layout] adjusts the offset to a new viewport, the arguments being
    values of the type [int]. *)
Theorem scrollAbs_keeps_to_its_axis (e e' : Editor.t) (x y : Z) :
  Editor.scrollAbs e x y = go.Done e' ->
  (if Editor.SingleLine e
   then image.Y (Editor.scrollOff e') = 0
   else image.X (Editor.scrollOff e') = 0)
  /\ e' = Editor.set_scrollOff e (Editor.scrollOff e')
  /\ Editor.scrollAbs e' (image.X (Editor.scrollOff e')) (image.Y (Editor.scrollOff e'))
     = go.Done e'
  /\ (int64 x -> int64 y -> Editor.scrollRel e' 0 0 = go.Done e').
Proof.
  intros E.
  pose proof (scrollAbs_within_bounds e x y) as W. rewrite E in W.
  destruct W as (b & Eb & Eb' & Hc).
  pose proof (scrollBounds_axis e b Eb) as (A0 & A1 & I1 & I2 & I3).
  pose proof (scrollAbs_frame _ _ _ _ E) as F.
  assert (Idem : Editor.scrollAbs e' (image.X (Editor.scrollOff e'))
                   (image.Y (Editor.scrollOff e')) = go.Done e')
    by (apply (scrollAbs_clamped e' b); assumption).
  split; [| split; [exact F | split; [exact Idem |]]].
  - unfold clamped in Hc. destruct (Editor.SingleLine e); lia.
  - intros Hx Hy. unfold Editor.scrollRel.
    assert (Ix : int64 (image.X (Editor.scrollOff e')) /\ int64 (image.Y (Editor.scrollOff e'))).
    { revert E. unfold Editor.scrollAbs. rewrite scrollBounds_scrollOff, Eb. cbn [go.bind].
      intros [= <-]. destruct b as [[minX minY] [maxX maxY]]. cbn in *.
      repeat match goal with
             | |- context [if ?c then _ else _] => destruct c; cbn
             end; unfold int64 in *; lia. }
    rewrite !Z.add_0_r, !wrap64_small by apply Ix. exact Idem.
Qed.

Lemma scrollAbs_keeps_to_its_axis_witness :
  exists e', Editor.scrollAbs (sample_scrolling true) 100 (-7) = go.Done e'
             /\ image.Y (Editor.scrollOff e') = 0
             /\ Editor.scrollRel e' 0 0 = go.Done e'.
Proof.
  destruct (Editor.scrollAbs (sample_scrolling true) 100 (-7)) as [e' | |] eqn:E;
    [| vm_compute in E; discriminate | vm_compute in E; discriminate].
  exists e'. split; [reflexivity |].
  destruct (scrollAbs_keeps_to_its_axis (sample_scrolling true) e' 100 (-7) E)
    as (H1 & _ & _ & H4).
  split; [exact H1 |]. apply H4; unfold int64; lia.
Defined.

(** ** The queue across frames *)

Lemma prevEvents_enqueue (evs : list EditorEvent) (e : Editor.t) :
  Editor.prevEvents (fold_left enqueue evs e) = Editor.prevEvents e.
Proof.
  revert e. induction evs as [| ev evs IH]; intros e; cbn; [reflexivity |].
  rewrite IH. reflexivity.
Qed.

Lemma flushEvents_Done (e : Editor.t) :
  queue_ok e ->
  Editor.flushEvents e
  = go.Done (Editor.set_events_prevEvents e
               (skipn (Z.to_nat (Editor.prevEvents e)) (Editor.events e))
               (go.len (Editor.events e) - Editor.prevEvents e)).
Proof.
  intros Hq. unfold queue_ok in Hq. unfold Editor.flushEvents.
  rewrite slice_from_Done by exact Hq. cbn [go.bind].
  set (rest := skipn (Z.to_nat (Editor.prevEvents e)) (Editor.events e)).
  assert (Hl : go.len rest = go.len (Editor.events e) - Editor.prevEvents e).
  { unfold rest, go.len in *. rewrite length_skipn. lia. }
  rewrite slice_to_Done.
  - cbn [go.bind]. rewrite <- Hl. do 2 f_equal.
    unfold go.len. rewrite Nat2Z.id, firstn_app, Nat.sub_diag, firstn_all. cbn. apply app_nil_r.
  - unfold go.len in *. rewrite length_app. lia.
Qed.

Lemma flushEvents_Panic (e : Editor.t) :
  ~ queue_ok e -> Editor.flushEvents e = go.Panic go.SliceOutOfRange.
Proof.
  intros Hq. unfold queue_ok in Hq. unfold Editor.flushEvents, go.slice_from.
  rewrite slice_Panic by lia. reflexivity.
Qed.

(** X4.  The flush at the start of [processEvents] drops the events
    that were already there at the previous frame and keeps the later
    ones, in their order, counting them as the previous frame's from now
    on: an event that [Events] does not fetch is dropped by the second
    flush after it was queued.  The flush returns exactly when the count
    [prevEvents] lies within the queue, which [Events], the flush itself
    and the appends to the queue all maintain; it panics on slicing
    otherwise. *)
Theorem flushEvents_drops_the_previous_frame (e : Editor.t) (evs : list EditorEvent) :
  (queue_ok e ->
   exists e1,
     Editor.flushEvents e = go.Done e1
     /\ Editor.events e1 = skipn (Z.to_nat (Editor.prevEvents e)) (Editor.events e)
     /\ Editor.prevEvents e1 = go.len (Editor.events e1)
     /\ queue_ok e1
     /\ exists e2,
          Editor.flushEvents (fold_left enqueue evs e1) = go.Done e2
          /\ Editor.events e2 = evs /\ Editor.prevEvents e2 = go.len evs)
  /\ (~ queue_ok e -> Editor.flushEvents e = go.Panic go.SliceOutOfRange)
  /\ queue_ok (snd (Editor.Events e))
  /\ (queue_ok e -> queue_ok (fold_left enqueue evs e)).
Proof.
  assert (Q : forall e0, queue_ok e0 -> queue_ok (fold_left enqueue evs e0)).
  { intros e0 H. unfold queue_ok in *. rewrite prevEvents_enqueue, events_enqueue.
    unfold go.len in *. rewrite length_app. lia. }
  split; [| split; [apply flushEvents_Panic | split; [| apply Q]]].
  - intros Hq. rewrite (flushEvents_Done e Hq).
    set (e1 := Editor.set_events_prevEvents e _ _).
    assert (Ev1 : Editor.events e1 = skipn (Z.to_nat (Editor.prevEvents e)) (Editor.events e))
      by reflexivity.
    assert (Pr1 : Editor.prevEvents e1 = go.len (Editor.events e1)).
    { unfold e1. cbn. unfold queue_ok, go.len in *. rewrite length_skipn. lia. }
    assert (Q1 : queue_ok e1) by (unfold queue_ok, go.len in *; lia).
    clearbody e1. exists e1. repeat split; try assumption; try apply Q1.
    rewrite (flushEvents_Done _ (Q e1 Q1)).
    rewrite prevEvents_enqueue, events_enqueue, Pr1.
    eexists. split; [reflexivity |]. cbn. unfold go.len.
    rewrite Nat2Z.id, skipn_app, Nat.sub_diag, skipn_all, length_app. cbn.
    split; [reflexivity | lia].
  - unfold queue_ok. cbn. lia.
Qed.

Lemma flushEvents_drops_the_previous_frame_witness :
  exists e1 e2,
    Editor.flushEvents (Editor.set_events_prevEvents Editor.zero [ChangeEvent; SubmitEvent []] 1)
    = go.Done e1
    /\ Editor.events e1 = [SubmitEvent []]
    /\ Editor.flushEvents (fold_left enqueue [ChangeEvent] e1) = go.Done e2
    /\ Editor.events e2 = [ChangeEvent].
Proof.
  destruct (flushEvents_drops_the_previous_frame
              (Editor.set_events_prevEvents Editor.zero [ChangeEvent; SubmitEvent []] 1)
              [ChangeEvent]) as (H & _).
  destruct H as (e1 & E1 & Ev1 & _ & _ & e2 & E2 & Ev2 & _).
  - unfold queue_ok. cbn. lia.
  - exists e1, e2. repeat split; assumption.
Defined.

(** ** The lines a label lays out *)

(** X8.  [MaxLines] limits the lines a label lays out to the first
    [MaxLines] of those the shaper returns, and zero, like any value that
    is not positive, means no limit: a label with a positive [MaxLines]
    lays out, draws and measures exactly what a label without a limit
    does on the first [MaxLines] lines. *)
Theorem Label_MaxLines_limits_the_lines (a : text.Alignment) (n : Z)
    (Constrain : image.Point -> image.Point) (shaped : list text.Line) :
  Label.Layout (Label.mk a n) Constrain shaped
  = Label.Layout (Label.mk a 0) Constrain
      (if n >? 0 then firstn (Z.to_nat n) shaped else shaped).
Proof.
  unfold Label.Layout. cbn [Label.MaxLines Label.Alignment].
  change (0 >? 0) with false. cbn [andb].
  destruct (Z.gtb_spec n 0) as [Hn | Hn]; cbn [andb]; [| reflexivity].
  destruct (Z.gtb_spec (go.len shaped) n) as [Hl | Hl].
  - rewrite slice_to_Done by lia. reflexivity.
  - rewrite firstn_all2; [reflexivity |]. unfold go.len in Hl. lia.
Qed.

(** ** Drag events outside a drag *)

(** X15.  A drag starts with a mouse press and with nothing else: while
    no drag is under way a drag or release event leaves the editor as it
    is, without moving the caret, and so does at any time an event that
    does not come from the mouse, or a press while a drag is under way.
    A mouse press outside a drag starts one, with both its ends at the
    caret, and queues no event. *)
Theorem drag_starts_with_a_mouse_press
    (moveCoord : Editor.t -> image.Point -> go.outcome Editor.t)
    (e : Editor.t) (evt : pointer.Event) :
  (Editor.dragging e = false -> pointer.Type__ evt <> pointer.Press ->
   Editor.dragEvent moveCoord e evt = go.Done e)
  /\ (pointer.Source_ evt = pointer.Touch -> Editor.dragEvent moveCoord e evt = go.Done e)
  /\ (Editor.dragging e = true -> pointer.Type__ evt = pointer.Press ->
      Editor.dragEvent moveCoord e evt = go.Done e)
  /\ (Editor.dragging e = false ->
      pointer.Type__ evt = pointer.Press -> pointer.Source_ evt = pointer.Mouse ->
      exists e', Editor.dragEvent moveCoord e evt = go.Done e'
                 /\ Editor.dragging e' = true
                 /\ Editor.startDrag e' = Editor.caretPoint e
                 /\ Editor.endDrag e' = Editor.caretPoint e
                 /\ Editor.events e' = Editor.events e
                 /\ Editor.caret e' = Editor.caret e).
Proof.
  unfold Editor.dragEvent.
  destruct (pointer.Type__ evt) eqn:Et, (pointer.Source_ evt) eqn:Es;
    (split; [| split; [| split]]); intros; try congruence; try reflexivity;
    try match goal with H : Editor.dragging e = _ |- _ => rewrite H end;
    try reflexivity.
  eexists. split; [reflexivity |]. repeat split.
Qed.

Lemma drag_starts_with_a_mouse_press_witness :
  Editor.dragEvent sample_moveCoord (Editor.set_dragging sample_editor false) sample_release
  = go.Done (Editor.set_dragging sample_editor false).
Proof.
  destruct (drag_starts_with_a_mouse_press sample_moveCoord
              (Editor.set_dragging sample_editor false) sample_release) as (H & _).
  apply H; [reflexivity | discriminate].
Defined.

(** ** The mask reader as an [io.Reader] *)

Lemma byte_of_newline (v : Z) : go.byte_of v = x0a -> v mod 256 = 10.
Proof.
  unfold go.byte_of, go.to_byte.
  pose proof (Z.mod_pos_bound v 256 ltac:(lia)) as Hb.
  destruct (Byte.of_N (Z.to_N (v mod 256))) as [b |] eqn:E; [| discriminate].
  intros ->. apply Byte.to_of_N in E. cbn in E. lia.
Qed.

Lemma byte_of_high (k t : Z) : Z.testbit k 7 = true -> go.byte_of (Z.lor k t) <> x0a.
Proof.
  intros Hk H. apply byte_of_newline in H.
  assert (B : Z.testbit (Z.lor k t mod 2 ^ 8) 7 = true).
  { rewrite Z.mod_pow2_bits_low by lia. rewrite Z.lor_spec, Hk. reflexivity. }
  change (2 ^ 8) with 256 in B. rewrite H in B. discriminate.
Qed.

Lemma EncodeRune_length (mr : Z) : (1 <= List.length (utf8.EncodeRune mr) <= 4)%nat.
Proof.
  unfold utf8.EncodeRune.
  repeat match goal with |- context [if ?c then _ else _] => destruct c end;
    cbn [List.length]; lia.
Qed.

(** The encoding of a rune holds a newline byte only if the rune is
    the newline. *)
Lemma EncodeRune_no_newline (mr : Z) :
  go.to_uint32 mr <> 10 -> ~ In x0a (utf8.EncodeRune mr).
Proof.
  intros Hm. unfold utf8.EncodeRune.
  destruct (Z.leb_spec (go.to_uint32 mr) 127) as [H1 | H1].
  - intros [H | []]. apply byte_of_newline in H. apply Hm.
    unfold go.to_uint32 in *.
    change (2 ^ 32) with 4294967296 in *.
    pose proof (Z.mod_pos_bound mr 4294967296 ltac:(lia)) as Hb.
    pose proof (Z.div_mod mr 4294967296 ltac:(lia)) as D.
    set (q := mr / 4294967296) in *. set (i := mr mod 4294967296) in *.
    assert (E : mr mod 256 = i).
    { rewrite D. replace (4294967296 * q + i) with (i + (16777216 * q) * 256) by lia.
      rewrite Z.mod_add by lia. apply Z.mod_small. lia. }
    lia.
  - repeat match goal with |- context [if ?c then _ else _] => destruct c end;
      cbn [In]; intros H;
      repeat match goal with
             | H : _ \/ _ |- _ => destruct H as [H | H]
             | H : False |- _ => destruct H
             | H : go.byte_of (Z.lor ?k ?t) = x0a |- _ =>
               exact (byte_of_high k t eq_refl H)
             end.
Qed.

Section MaskReaderContract.
Local Open Scope nat_scope.

Lemma length_ok (m : maskReader.t) (s : maskReader.bytes) :
List.length (maskReader.maskBuf m) = 4 -> bytes_ok s ->
maskReader.length m s = maskReader.hi s - maskReader.lo s.
Proof.
intros Hb [H1 H2]. unfold maskReader.length, maskReader.contents, maskReader.array.
rewrite length_firstn, length_skipn.
destruct (maskReader.base s); cbn [List.length]; lia.
Qed.

Lemma zero_ok : reader_ok maskReader.zero.
Proof. repeat split; cbn; lia. Qed.

Lemma Reset_ok (m : maskReader.t) (rs : list Z) (mr : Z) :
reader_ok m -> reader_ok (maskReader.Reset m rs mr).
Proof.
intros (Hb & Hm & Ho). pose proof (EncodeRune_length mr) as He.
unfold maskReader.Reset. repeat split; cbn; try apply Ho; try lia.
rewrite length_app, length_skipn. lia.
Qed.

Lemma Read_loop_ok (fuel : nat) :
forall (m m' : maskReader.t) (room : nat) (out out' : list byte) (err err' : bool),
reader_ok m ->
maskReader.Read_loop fuel m room out err = go.Done (out', err', m') ->
reader_ok m' /\ (err' = true -> err = true \/ maskReader.length m' (maskReader.overflow m') = 0).
Proof.
induction fuel as [| fuel IH]; intros m m' room out out' err err' Hok.
- destruct room; cbn; [| discriminate]. intros [= <- <- <-]. auto.
- destruct room as [| room]; [cbn; intros [= <- <- <-]; auto |].
  rewrite Read_loop_S. destruct Hok as (Hb & Hm & Ho).
  destruct (0 <? maskReader.length m (maskReader.overflow m)) eqn:Eo.
  + cbv zeta. intros H. apply IH in H; [exact H |].
    pose proof (length_ok m _ Hb Ho) as Hl.
    set (nn := Nat.min (S room) (maskReader.length m (maskReader.overflow m))).
    assert (Hnn : nn <= maskReader.hi (maskReader.overflow m)
                        - maskReader.lo (maskReader.overflow m)) by (unfold nn; lia).
    clearbody nn. destruct Ho as [Ho1 Ho2].
    unfold advance, reader_ok, bytes_ok.
    cbn [maskReader.maskBuf maskReader.mask maskReader.overflow maskReader.lo maskReader.hi
         maskReader.base].
    split; [exact Hb |]. split; [exact Hm |]. split; [lia | exact Ho2].
  + apply Nat.ltb_ge in Eo.
    destruct (maskReader.rr m) as [| r rest].
    * intros [= <- <- <-]. split; [exact (conj Hb (conj Hm Ho)) |]. intros _. right. lia.
    * cbv zeta. intros H. apply IH in H.
      -- destruct H as [H1 H2]. split; [exact H1 |]. intros E. destruct (H2 E); [discriminate |].
         right. assumption.
      -- assert (Hr : bytes_ok (replacement (take_rune m rest) r)).
         { unfold replacement, take_rune. destruct (r =? 10)%Z; [split; cbn; lia | exact Hm]. }
         pose proof (length_ok (take_rune m rest) _ Hb Hr) as Hl.
         set (s := replacement (take_rune m rest) r) in *.
         set (nn := Nat.min (S room) (maskReader.length (take_rune m rest) s)).
         assert (Hnn : nn <= maskReader.hi s - maskReader.lo s) by (unfold nn; lia).
         clearbody nn s. destruct Hr as [Hr1 Hr2].
         unfold advance, reader_ok, bytes_ok, take_rune.
         cbn [maskReader.maskBuf maskReader.mask maskReader.overflow maskReader.lo maskReader.hi
              maskReader.base].
         split; [exact Hb |]. split; [exact Hm |]. split; [lia | exact Hr2].
Qed.

Lemma Read_ok (m m' : maskReader.t) (room : nat) (out : list byte) (err : bool) :
reader_ok m -> maskReader.Read m room = go.Done (out, err, m') ->
reader_ok m' /\ (err = true -> maskReader.hi (maskReader.overflow m')
                               <= maskReader.lo (maskReader.overflow m')).
Proof.
intros Hok H. unfold maskReader.Read in H. apply Read_loop_ok in H; [| exact Hok].
destruct H as [H1 H2]. split; [exact H1 |]. intros E.
destruct (H2 E) as [H | H]; [discriminate |].
destruct H1 as (Hb & _ & Ho). rewrite (length_ok _ _ Hb Ho) in H. lia.
Qed.


Lemma Reset_stale (m : maskReader.t) (rs : list Z) (mr : Z) :
maskReader.hi (maskReader.overflow m) <= maskReader.lo (maskReader.overflow m) ->
pending (maskReader.Reset m rs mr) = masked (utf8.EncodeRune mr) rs.
Proof.
intros H. rewrite pending_Reset. unfold maskReader.contents.
replace (maskReader.hi (maskReader.overflow m) - maskReader.lo (maskReader.overflow m))
  with 0 by lia.
reflexivity.
Qed.

(** X6.  A reader that was read to its end can be used again: once
  [Read] has reported an error no overflow is left, and after a [Reset]
  with a new text and a new mask rune the reader hands out the masked new
  text and nothing else, whatever the sizes of the buffers.  The slices
  of the reader stay inside their arrays throughout. *)
Theorem maskReader_Reset_after_the_end
  (m m' : maskReader.t) (room : nat) (out : list byte)
  (rs : list Z) (mr : Z) (rooms : list nat) :
reader_ok m ->
maskReader.Read m room = go.Done (out, true, m') ->
reader_ok m'
/\ reader_ok (maskReader.Reset m' rs mr)
/\ pending (maskReader.Reset m' rs mr) = masked (utf8.EncodeRune mr) rs
/\ exists m'',
     maskReader.Reads (maskReader.Reset m' rs mr) rooms
     = go.Done (chunks rooms (masked (utf8.EncodeRune mr) rs), m'').
Proof.
intros Hok E. destruct (Read_ok _ _ _ _ _ Hok E) as [Hok' Ho].
specialize (Ho eq_refl).
split; [exact Hok' |]. split; [apply Reset_ok; exact Hok' |].
pose proof (Reset_stale m' rs mr Ho) as P. split; [exact P |].
destruct (Reads_spec rooms (maskReader.Reset m' rs mr)) as (m'' & R).
exists m''. rewrite R, P. reflexivity.
Qed.

(** A reader that was not read to its end keeps its overflow over a
  [Reset], and the overflow is a window on [maskBuf], which now holds the
  new mask: after one byte of a masked euro sign, the reader reset to
  mask with an asterisk hands out two bytes of the old mask first. *)
Example Reset_keeps_the_overflow :
(do (o1, _, m1) <- maskReader.Read (maskReader.Reset maskReader.zero [97%Z] 8364%Z) 1;
 do (o2, _, _) <- maskReader.Read (maskReader.Reset m1 [98%Z] 42%Z) 4;
 go.Done (o1, o2))
= go.Done ([xe2], [x82; xac; x2a]).
Proof. vm_compute. reflexivity. Qed.

Lemma maskReader_Reset_after_the_end_witness :
exists m'',
  maskReader.Reads
    (maskReader.Reset (maskReader.mk [] [x2a; x00; x00; x00]
                         (maskReader.mkBytes maskReader.InMaskBuf 0 1)
                         (maskReader.mkBytes maskReader.InMaskBuf 1 1))
       [98; 10]%Z 8364%Z) [4; 4]
  = go.Done ([([xe2; x82; xac; x0a], false); ([], true)], m'').
Proof.
destruct (maskReader_Reset_after_the_end
            (maskReader.Reset maskReader.zero [97%Z] 42%Z)
            (maskReader.mk [] [x2a; x00; x00; x00]
               (maskReader.mkBytes maskReader.InMaskBuf 0 1)
                         (maskReader.mkBytes maskReader.InMaskBuf 1 1))
            3 [x2a] [98; 10]%Z 8364%Z [4; 4])
  as (_ & _ & _ & m'' & E).
- apply Reset_ok, zero_ok.
- vm_compute. reflexivity.
- exists m''. exact E.
Defined.

Lemma masked_newlines (enc : list byte) (rs : list Z) :
~ In x0a enc ->
List.map is_newline (masked enc rs) = newline_map (List.length enc) rs.
Proof.
intros Hn. unfold masked, newline_map.
assert (He : List.map is_newline enc = repeat false (List.length enc)).
{ clear rs. induction enc as [| b enc IH]; [reflexivity |]. cbn [List.map List.length repeat].
  f_equal.
  - unfold is_newline. destruct (Byte.eqb b x0a) eqn:E; [| reflexivity].
    apply Byte.byte_dec_bl in E. subst b. exfalso. apply Hn. left. reflexivity.
  - apply IH. intros H. apply Hn. right. exact H. }
induction rs as [| r rs IH]; [reflexivity |]. cbn [flat_map].
rewrite map_app, IH. f_equal. destruct (r =? 10)%Z; [reflexivity | exact He].
Qed.

(** X7.  Newline characters are not masked, and nothing else becomes
  one: with a mask rune other than the newline, what a fresh reader
  hands out has its newline bytes exactly where the text has its
  newlines, every other rune taking the one to four bytes of the encoded
  mask rune, none of which is a newline.  The masked text has as many
  lines as the text. *)
Theorem maskReader_keeps_the_newlines (mr : Z) (rs : list Z) (room : nat) :
go.to_uint32 mr <> 10%Z ->
let n := List.length (utf8.EncodeRune mr) in
1 <= n <= 4
/\ ~ In x0a (utf8.EncodeRune mr)
/\ exists out err m',
     maskReader.Read (maskReader.Reset maskReader.zero rs mr) room = go.Done (out, err, m')
     /\ out = firstn room (masked (utf8.EncodeRune mr) rs)
     /\ List.map is_newline out = firstn room (newline_map n rs)
     /\ (List.length (masked (utf8.EncodeRune mr) rs) <= room ->
         count_occ Byte.byte_eq_dec out x0a = count_occ Z.eq_dec rs 10%Z).
Proof.
intros Hm n. pose proof (EncodeRune_no_newline mr Hm) as Hn.
split; [apply EncodeRune_length |]. split; [exact Hn |].
destruct (Read_spec (maskReader.Reset maskReader.zero rs mr) room) as (m' & E & _).
rewrite Reset_stale in E by (cbn; lia).
eexists _, _, m'. split; [exact E |]. split; [reflexivity |]. split.
- rewrite <- firstn_map, masked_newlines by exact Hn. reflexivity.
- intros Hl. rewrite firstn_all2 by exact Hl.
  clear E Hl. induction rs as [| r rs IH]; [reflexivity |].
  unfold masked in *. cbn [flat_map]. rewrite count_occ_app, IH.
  destruct (Z.eqb_spec r 10) as [-> | Hr].
  + cbn. destruct (Z.eq_dec 10 10); [reflexivity | congruence].
  + rewrite (proj1 (count_occ_not_In _ _ _) Hn).
    cbn [count_occ]. destruct (Z.eq_dec r 10); [congruence | reflexivity].
Qed.

Lemma maskReader_keeps_the_newlines_witness :
exists out err m',
  maskReader.Read (maskReader.Reset maskReader.zero [97; 10; 98]%Z 8364%Z) 9
  = go.Done (out, err, m')
  /\ List.map is_newline out = [false; false; false; true; false; false; false].
Proof.
destruct (maskReader_keeps_the_newlines 8364%Z [97; 10; 98]%Z 9) as (_ & _ & H).
- vm_compute. discriminate.
- destruct H as (out & err & m' & E & _ & N & _).
  exists out, err, m'. split; [exact E | exact N].
Defined.

End MaskReaderContract.

(** ** The measures of laid out lines *)

Lemma wrap_add_l (w a b : Z) : 0 < w -> go.wrap w (go.wrap w a + b) = go.wrap w (a + b).
Proof.
  intros Hw. unfold go.wrap. f_equal.
  replace ((a + 2 ^ (w - 1)) mod 2 ^ w - 2 ^ (w - 1) + b + 2 ^ (w - 1))
    with ((a + 2 ^ (w - 1)) mod 2 ^ w + b) by lia.
  assert (2 ^ w <> 0) by (apply Z.pow_nonzero; lia).
  rewrite Z.add_mod_idemp_l by assumption. f_equal. lia.
Qed.

Lemma wrap64_add_l (a b : Z) : go.wrap64 (go.wrap64 a + b) = go.wrap64 (a + b).
Proof. apply wrap_add_l. lia. Qed.

Lemma wrap64_idem (a : Z) : go.wrap64 (go.wrap64 a) = go.wrap64 a.
Proof. apply wrap64_small, wrap64_int64. Qed.

Lemma Ceil_small (d : Z) : small d -> fixed.Ceil d = ceil64 d.
Proof.
  unfold small, fixed.Ceil, ceil64. intros H.
  rewrite wrap32_small by (change (2 ^ 29) with 536870912 in H;
                           change (2 ^ 31) with 2147483648; lia).
  rewrite Z.shiftr_div_pow2 by lia. reflexivity.
Qed.

Lemma add_small (a b : Z) : small a -> small b -> fixed.add a b = a + b.
Proof.
  unfold small, fixed.add. intros Ha Hb. apply wrap32_small.
  change (2 ^ 29) with 536870912 in *. change (2 ^ 31) with 2147483648. lia.
Qed.

Lemma sub_small (a b : Z) : small a -> small b -> fixed.sub a b = a - b.
Proof.
  unfold small, fixed.sub. intros Ha Hb. apply wrap32_small.
  change (2 ^ 29) with 536870912 in *. change (2 ^ 31) with 2147483648. lia.
Qed.

Lemma Ceil_sum_small (d : Z) : - 2 ^ 30 <= d <= 2 ^ 30 -> fixed.Ceil d = ceil64 d.
Proof.
  unfold fixed.Ceil, ceil64. intros H.
  rewrite wrap32_small by (change (2 ^ 30) with 1073741824 in H;
                           change (2 ^ 31) with 2147483648; lia).
  rewrite Z.shiftr_div_pow2 by lia. reflexivity.
Qed.

Lemma ceil64_sign (d : Z) :
  (d <= 0 -> ceil64 d <= 0) /\ (0 <= d -> 0 <= ceil64 d).
Proof.
  unfold ceil64.
  pose proof (Z.div_mod (d + 63) 64 ltac:(lia)).
  pose proof (Z.mod_pos_bound (d + 63) 64 ltac:(lia)). lia.
Qed.

(** X9.  The padding of a text is what its first and last lines stick
    out of their nominal boxes, rounded up to whole pixels, and never
    less than nothing: with measures that do not overflow, [Min] is the
    overhang to the left and above the ascent, at most zero, and [Max] the
    overhang to the right of the width and below the descent, at least
    zero; so the clip rectangle that the widgets build from it always
    contains the view.  With no lines there is no padding. *)
Theorem textPadding_is_the_overhang (first : text.Line) (rest : list text.Line) :
  let lines := first :: rest in
  let last := List.last lines first in
  small_line first -> small_line last ->
  textPadding [] = image.ZR
  /\ textPadding lines
     = image.Rect
         (image.Pt (Z.min 0 (ceil64 (fixed.X (fixed.Min (text.Bounds first)))))
                   (Z.min 0 (ceil64 (text.Ascent first + fixed.Y (fixed.Min (text.Bounds first))))))
         (image.Pt (Z.max 0 (ceil64 (fixed.X (fixed.Max (text.Bounds first)) - text.Width first)))
                   (Z.max 0 (ceil64 (fixed.Y (fixed.Max (text.Bounds last)) - text.Descent last))))
  /\ image.X (image.Min (textPadding lines)) <= 0
  /\ image.Y (image.Min (textPadding lines)) <= 0
  /\ 0 <= image.X (image.Max (textPadding lines))
  /\ 0 <= image.Y (image.Max (textPadding lines)).
Proof.
  intros lines last (Fw & Fa & Fd & Fx0 & Fy0 & Fx1 & Fy1) (Lw & La & Ld & Lx0 & Ly0 & Lx1 & Ly1).
  split; [reflexivity |].
  assert (E : textPadding lines
     = image.Rect
         (image.Pt (Z.min 0 (ceil64 (fixed.X (fixed.Min (text.Bounds first)))))
                   (Z.min 0 (ceil64 (text.Ascent first + fixed.Y (fixed.Min (text.Bounds first))))))
         (image.Pt (Z.max 0 (ceil64 (fixed.X (fixed.Max (text.Bounds first)) - text.Width first)))
                   (Z.max 0 (ceil64 (fixed.Y (fixed.Max (text.Bounds last)) - text.Descent last))))).
  { unfold lines at 1. cbn [textPadding]. fold lines. fold last.
    rewrite add_small, !sub_small by assumption.
    assert (S2 : forall a b, small a -> small b -> - 2 ^ 30 <= a + b <= 2 ^ 30
                                                  /\ - 2 ^ 30 <= a - b <= 2 ^ 30).
    { unfold small. change (2 ^ 29) with 536870912. change (2 ^ 30) with 1073741824. lia. }
    rewrite (Ceil_sum_small (_ + _)) by (apply S2; assumption).
    rewrite 2!(Ceil_sum_small (_ - _)) by (apply S2; assumption).
    rewrite (Ceil_small _ Fx0).
    pose proof (ceil64_sign (fixed.X (fixed.Min (text.Bounds first)))).
    pose proof (ceil64_sign (text.Ascent first + fixed.Y (fixed.Min (text.Bounds first)))).
    pose proof (ceil64_sign (fixed.X (fixed.Max (text.Bounds first)) - text.Width first)).
    pose proof (ceil64_sign (fixed.Y (fixed.Max (text.Bounds last)) - text.Descent last)).
    repeat match goal with
           | |- context [if ?a <? ?b then _ else _] =>
             destruct (Z.ltb_spec a b)
           | |- context [if ?a >? ?b then _ else _] =>
             destruct (Z.gtb_spec a b)
           end;
      repeat f_equal; lia. }
  split; [exact E |]. rewrite E. cbn [image.X image.Y image.Min image.Max]. lia.
Qed.

Lemma textPadding_is_the_overhang_witness :
  textPadding [sample_line (go.str "ab"); sample_line (go.str "c")]
  = image.Rect (image.Pt 0 0) (image.Pt 0 0)
  /\ 0 <= image.Y (image.Max (textPadding [sample_line (go.str "ab"); sample_line (go.str "c")])).
Proof.
  destruct (textPadding_is_the_overhang (sample_line (go.str "ab")) [sample_line (go.str "c")])
    as (_ & E & _ & _ & _ & H).
  - unfold small_line, small. cbn. lia.
  - unfold small_line, small. cbn. lia.
  - split; [rewrite E; reflexivity | exact H].
Defined.

Lemma last_cons_cons {A : Type} (a b : A) (l : list A) (d d' : A) :
  List.last (a :: b :: l) d = List.last (b :: l) d'.
Proof.
  revert a b. induction l as [| c l IH]; intros a b; [reflexivity |].
  change (List.last (a :: b :: c :: l) d) with (List.last (b :: c :: l) d).
  rewrite (IH b c). reflexivity.
Qed.

(** X10.  [linesDimens] measures the lines: the width is that of the
    widest line, or zero if none is wider, rounded up to whole pixels;
    the height is the sum of the distances from baseline to baseline,
    each rounded up, from the ascent of the first line to the descent of
    the last; and [Baseline] is the height less the ascent of the
    first line, rounded up.  No lines measure nothing. *)
Theorem linesDimens_measures_the_lines (lines : list text.Line) :
  let d := linesDimens lines in
  let first := List.hd segmentIterator.zeroLine lines in
  let last := List.last lines segmentIterator.zeroLine in
  linesDimens [] = layout.zero
  /\ (exists W, image.X (layout.Size d) = fixed.Ceil W
                /\ 0 <= W
                /\ Forall (fun l => text.Width l <= W) lines
                /\ (W = 0 \/ Exists (fun l => text.Width l = W) lines))
  /\ image.Y (layout.Size d)
     = go.wrap64 (heights 0 lines + fixed.Ceil (text.Descent last))
  /\ layout.Baseline d
     = go.wrap64 (image.Y (layout.Size d) - fixed.Ceil (text.Ascent first)).
Proof.
  intros d first last. split; [reflexivity |].
  destruct lines as [| l0 ls].
  { split; [| split; reflexivity]. exists 0. split; [reflexivity |]. split; [lia |].
    split; [constructor | left; reflexivity]. }
  unfold d, linesDimens.
  match goal with |- context [fold_left ?f _ _] => set (F := f) end.
  assert (Fold : forall (xs : list text.Line) (w h p : Z),
             exists w' h' p',
               fold_left F xs (w, h, p) = (w', h', p')
               /\ w <= w' /\ Forall (fun l => text.Width l <= w') xs
               /\ (w' = w \/ Exists (fun l => text.Width l = w') xs)
               /\ go.wrap64 h' = go.wrap64 (h + heights p xs)
               /\ (xs <> [] -> h' = go.wrap64 h')
               /\ p' = match xs with
                       | [] => p
                       | _ :: _ => text.Descent (List.last xs segmentIterator.zeroLine)
                       end).
  { induction xs as [| x xs IH]; intros w h p.
    - exists w, h, p. cbn. rewrite Z.add_0_r.
      split; [reflexivity |]. split; [lia |]. split; [constructor |].
      split; [left; reflexivity |]. split; [reflexivity |]. split; [congruence | reflexivity].
    - cbn [fold_left]. unfold F at 2.
      set (w1 := if text.Width x >? w then text.Width x else w).
      assert (Hw1 : w <= w1 /\ text.Width x <= w1 /\ (w1 = w \/ w1 = text.Width x))
        by (unfold w1; destruct (Z.gtb_spec (text.Width x) w); lia).
      clearbody w1.
      destruct (IH w1 (go.wrap64 (h + fixed.Ceil (fixed.add p (text.Ascent x)))) (text.Descent x))
        as (w' & h' & p' & E & W1 & W2 & W3 & H1 & H2 & P).
      exists w', h', p'. split; [exact E |]. split; [lia |]. split.
      { constructor; [lia | exact W2]. }
      split.
      { destruct W3 as [-> | W3]; [| right; apply Exists_cons_tl; exact W3].
        destruct Hw1 as (_ & _ & [-> | ->]); [left; reflexivity |].
        right. apply Exists_cons_hd. reflexivity. }
      split.
      { rewrite H1, wrap64_add_l. cbn [heights]. f_equal. lia. }
      split.
      { intros _. destruct xs as [| y ys].
        - cbn in E. injection E as _ <- _. symmetry. apply wrap64_idem.
        - apply H2. discriminate. }
      rewrite P. destruct xs as [| y ys]; reflexivity. }
  destruct (Fold (l0 :: ls) 0 0 0) as (w' & h' & p' & E & W1 & W2 & W3 & H1 & H2 & P).
  rewrite E. cbn [layout.Size layout.Baseline image.X image.Y].
  split; [exists w'; repeat split; try assumption; destruct W3; auto |].
  assert (EY : go.wrap64 (h' + fixed.Ceil (text.Descent (List.last (l0 :: ls) l0)))
               = go.wrap64 (heights 0 (l0 :: ls) + fixed.Ceil (text.Descent last))).
  { rewrite <- (wrap64_add_l h'), H1, wrap64_add_l. unfold last. cbn [Z.add].
    destruct ls as [| l1 ls]; [reflexivity |].
    rewrite (last_cons_cons l0 l1 ls l0 segmentIterator.zeroLine).
    rewrite (last_cons_cons l0 l1 ls segmentIterator.zeroLine segmentIterator.zeroLine).
    reflexivity. }
  split; [exact EY | reflexivity].
Qed.

(** ** Runes of a prefix *)

Lemma first_size (b : Z) :
  240 <= utf8.first b \/ 2 <= Z.land (utf8.first b) 7 <= 4.
Proof.
  unfold utf8.first.
  repeat match goal with |- context [if ?c then _ else _] => destruct c end;
    cbn; lia.
Qed.

Ltac decode_len :=
  repeat match goal with
         | |- context [if Z.of_nat ?n <? ?k then _ else _] =>
           destruct (Z.ltb_spec (Z.of_nat n) k); [try lia | try lia]
         end.

(** The size of the first rune of a string is decided by the bytes of
    that rune: a prefix that holds them starts with a rune of the same
    size. *)
Lemma DecodeRuneInString_prefix (s : go.string) (m : nat) :
  s <> [] ->
  (Z.to_nat (snd (utf8.DecodeRuneInString s)) <= m)%nat ->
  snd (utf8.DecodeRuneInString (firstn m s)) = snd (utf8.DecodeRuneInString s).
Proof.
  destruct s as [| b0 t0]; [congruence | intros _].
  pose proof (first_size (go.byte_val b0)) as Hf.
  destruct m as [| m].
  { pose proof (DecodeRuneInString_size (b0 :: t0) ltac:(discriminate)). lia. }
  cbn [firstn]. unfold utf8.DecodeRuneInString, go.len.
  set (x := utf8.first (go.byte_val b0)) in *.
  destruct (Z.leb_spec 240 x) as [H240 | H240]; [reflexivity |].
  destruct Hf as [Hf | Hf]; [lia |].
  set (sz := Z.land x 7) in *. clearbody sz x.
  destruct (utf8.acceptRanges _) as [lo hi].
  assert (Hsz : sz = 2 \/ sz = 3 \/ sz = 4) by lia. clear Hf.
  destruct t0 as [| b1 [| b2 [| b3 t3]]]; destruct m as [| [| [| m]]];
    cbn [firstn List.length];
    repeat match goal with
           | |- context [(?a <? ?b) || (?c <? ?d)] => destruct ((a <? b) || (c <? d))
           end;
    destruct Hsz as [-> | [-> | ->]];
    cbn [Z.leb Z.compare Pos.compare Pos.compare_cont snd fst];
    decode_len; cbn [snd fst]; intros; try reflexivity; lia.
Qed.

Lemma sumZ_nonneg (xs : list Z) : Forall (fun sz => 1 <= sz) xs -> 0 <= sumZ xs.
Proof. unfold sumZ. induction 1 as [| x xs Hx _ IH]; cbn [fold_right]; lia. Qed.

Lemma Forall_firstn {A : Type} (P : A -> Prop) (n : nat) (xs : list A) :
  Forall P xs -> Forall P (firstn n xs).
Proof.
  intros H. revert n. induction H as [| x xs Hx _ IH]; intros [| n]; cbn; constructor; auto.
Qed.

(** The runes of a prefix that ends where a rune ends are the first
    runes of the string. *)
Lemma runeSizes_prefix (j : nat) :
  forall s : go.string,
  (j <= List.length (utf8.runeSizes s))%nat ->
  utf8.runeSizes (firstn (Z.to_nat (sumZ (firstn j (utf8.runeSizes s)))) s)
  = firstn j (utf8.runeSizes s).
Proof.
  induction j as [| j IH]; intros s Hj.
  - cbn. reflexivity.
  - destruct (utf8.runeSizes s) as [| sz rest] eqn:Es; [cbn in Hj; lia |].
    pose proof (runeSizes_step s sz rest Es) as [Hsz Hrest].
    pose proof (runeSizes_positive (skipn (Z.to_nat sz) s)) as Hpos. rewrite Hrest in Hpos.
    pose proof (sumZ_nonneg _ (Forall_firstn _ j _ Hpos)) as Hsum.
    cbn [firstn sumZ fold_right]. fold (sumZ (firstn j rest)).
    destruct s as [| b t]; [discriminate |].
    assert (Esz : snd (utf8.DecodeRuneInString (b :: t)) = sz).
    { pose proof (runeSizes_cons b t) as Ec. rewrite Es in Ec.
      set (d := snd (utf8.DecodeRuneInString (b :: t))) in *. clearbody d.
      injection Ec as Ec _. symmetry. exact Ec. }
    set (N := Z.to_nat (sz + sumZ (firstn j rest))).
    assert (HN : (Z.to_nat sz <= N)%nat) by (unfold N; lia).
    assert (EN : N = (Z.to_nat sz + Z.to_nat (sumZ (firstn j rest)))%nat) by (unfold N; lia).
    clearbody N.
    destruct N as [| N']; [lia |].
    cbn [firstn]. rewrite runeSizes_cons.
    change (b :: firstn N' t) with (firstn (S N') (b :: t)).
    rewrite DecodeRuneInString_prefix by (try discriminate; rewrite Esz; exact HN).
    rewrite Esz. f_equal.
    rewrite EN, <- firstn_skipn_comm, <- Hrest. apply IH.
    rewrite Hrest. cbn [List.length] in Hj. lia.
Qed.

(** ** The iterator: what [Next] reads and what a segment is *)

Lemma inSelection_at (l : SI.t) :
  SI.inSelection l = selected_at l (image.X (SI.pos l)) (image.Y (SI.pos l)).
Proof. unfold SI.inSelection, selected_at. destruct (SI.pos l). reflexivity. Qed.

Lemma rangeText_spec (sizes : list Z) :
  forall (n : Z) (selected : bool) (l : SI.t) (endx : fixed.Int26_6) (rune : Z)
         (retLayout : text.Layout) (l' : SI.t) (endx' : fixed.Int26_6)
         (ret' : text.Layout) (nextLine : bool),
  Forall (fun sz => 1 <= sz) sizes -> 0 <= n -> 0 <= rune ->
  SI.rangeText sizes n selected l endx rune retLayout = go.Done (l', endx', ret', nextLine) ->
  exists j : nat,
    (j <= List.length sizes)%nat
    /\ (forall i : nat, (i < j)%nat ->
          selected_at l (image.X (SI.pos l) + Z.of_nat i) (image.Y (SI.pos l)) = selected)
    /\ config l' = config l /\ SI.line l' = SI.line l
    /\ SI.pos l' = image.Pt (image.X (SI.pos l) + Z.of_nat j) (image.Y (SI.pos l))
    /\ ((j = List.length sizes /\ nextLine = true /\ ret' = retLayout
         /\ SI.layout l' = SI.layout l)
        \/ ((j < List.length sizes)%nat
            /\ 0 <= n + sumZ (firstn j sizes) <= go.len (text.Text (SI.layout l))
            /\ 0 <= rune + Z.of_nat j <= go.len (text.Advances (SI.layout l))
            /\ ret' = text.mkLayout
                        (firstn (Z.to_nat (n + sumZ (firstn j sizes))) (text.Text (SI.layout l)))
                        (firstn (Z.to_nat (rune + Z.of_nat j)) (text.Advances (SI.layout l)))
            /\ ((nextLine = false
                 /\ selected_at l (image.X (SI.pos l) + Z.of_nat j) (image.Y (SI.pos l))
                    = negb selected
                 /\ SI.layout l'
                    = text.mkLayout
                        (skipn (Z.to_nat (n + sumZ (firstn j sizes))) (text.Text (SI.layout l)))
                        (skipn (Z.to_nat (rune + Z.of_nat j)) (text.Advances (SI.layout l))))
                \/ (nextLine = true
                    /\ selected_at l (image.X (SI.pos l) + Z.of_nat j) (image.Y (SI.pos l))
                       = selected
                    /\ SI.layout l' = SI.layout l)))).
Proof.
  induction sizes as [| sz rest IH];
    intros n selected l endx rune retLayout l' endx' ret' nextLine Hsz Hn Hr.
  - cbn. intros [= <- <- <- <-]. exists 0%nat.
    rewrite Z.add_0_r. destruct (SI.pos l) as [px py]. cbn [image.X image.Y].
    repeat split; try lia. left. auto.
  - cbn [SI.rangeText]. rewrite inSelection_at.
    destruct (negb (Bool.eqb selected (selected_at l _ _))) eqn:Echg.
    + (* the selection changes here *)
      rewrite orb_true_r.
      destruct (go.slice_to _ rune) as [advs | |] eqn:E1; cbn [go.bind]; try discriminate.
      destruct (go.slice_to _ n) as [txt | |] eqn:E2; cbn [go.bind]; try discriminate.
      destruct (go.slice_from _ rune) as [advs' | |] eqn:E3; cbn [go.bind]; try discriminate.
      destruct (go.slice_from _ n) as [txt' | |] eqn:E4; cbn [go.bind]; try discriminate.
      intros [= <- <- <- <-].
      apply slice_from_inv in E3. destruct E3 as [Hr' ->].
      apply slice_from_inv in E4. destruct E4 as [Hn' ->].
      unfold go.slice_to in E1, E2. apply slice_inv in E1. apply slice_inv in E2.
      destruct E1 as (_ & _ & ->). destruct E2 as (_ & _ & ->).
      rewrite !Z.sub_0_r. cbn [skipn].
      exists 0%nat. cbn [firstn sumZ fold_right Z.of_nat]. rewrite !Z.add_0_r.
      destruct (SI.pos l) as [px py] eqn:Ep. cbn [image.X image.Y] in *.
      split; [cbn [List.length]; lia |]. split; [intros i Hi; lia |].
      split; [reflexivity |]. split; [reflexivity |]. split; [exact Ep |].
      right. split; [cbn [List.length]; lia |]. split; [exact Hn' |]. split; [exact Hr' |].
      split; [reflexivity |]. left. split; [reflexivity |]. split; [| reflexivity].
      revert Echg. destruct selected, (selected_at l px py); cbn; congruence.
    + rewrite orb_false_r.
      assert (Esel : selected_at l (image.X (SI.pos l)) (image.Y (SI.pos l)) = selected).
      { revert Echg. destruct selected, (selected_at l _ _); cbn; congruence. }
      destruct (_ >? _).
      * destruct (go.slice_to _ rune) as [advs | |] eqn:E1; cbn [go.bind]; try discriminate.
        destruct (go.slice_to _ n) as [txt | |] eqn:E2; cbn [go.bind]; try discriminate.
        intros [= <- <- <- <-].
        unfold go.slice_to in E1, E2. apply slice_inv in E1. apply slice_inv in E2.
        destruct E1 as (_ & Hr' & ->). destruct E2 as (_ & Hn' & ->).
        rewrite !Z.sub_0_r. cbn [skipn].
        exists 0%nat. cbn [firstn sumZ fold_right Z.of_nat]. rewrite !Z.add_0_r.
        destruct (SI.pos l) as [px py] eqn:Ep. cbn [image.X image.Y] in *.
        split; [cbn [List.length]; lia |]. split; [intros i Hi; lia |].
        split; [reflexivity |]. split; [reflexivity |]. split; [reflexivity |].
        right. split; [cbn [List.length]; lia |]. split; [lia |]. split; [lia |].
        split; [reflexivity |]. right. auto.
      * destruct (go.index _ rune) as [adv | |] eqn:Ei; cbn [go.bind]; try discriminate.
        intros H. pose proof (Forall_inv Hsz) as Hsz1. pose proof (Forall_inv_tail Hsz) as Hsz2.
        cbn beta in Hsz1. apply IH in H; [| exact Hsz2 | lia | lia].
        destruct H as (j & Hj & Hsel & C & Li & P & Cases).
        cbn [SI.pos SI.set_pos SI.layout image.X image.Y] in *.
        exists (S j). split; [cbn [List.length]; lia |]. split.
        { intros [| i] Hi.
          - rewrite Z.add_0_r. exact Esel.
          - replace (image.X (SI.pos l) + Z.of_nat (S i))
              with (image.X (SI.pos l) + 1 + Z.of_nat i) by lia.
            exact (Hsel i ltac:(lia)). }
        split; [exact C |]. split; [exact Li |].
        split; [rewrite P; f_equal; lia |].
        cbn [firstn sumZ fold_right]. fold (sumZ (firstn j rest)).
        replace (rune + Z.of_nat (S j)) with (rune + 1 + Z.of_nat j) by lia.
        replace (n + (sz + sumZ (firstn j rest))) with (n + sz + sumZ (firstn j rest)) by lia.
        replace (image.X (SI.pos l) + Z.of_nat (S j))
          with (image.X (SI.pos l) + 1 + Z.of_nat j) by lia.
        destruct Cases as [(-> & Hn1 & Hn2 & Hn3) | (Hj' & B1 & B2 & B3 & B4)].
        -- left. auto.
        -- right. split; [cbn [List.length]; lia |]. split; [exact B1 |]. split; [exact B2 |].
           split; [exact B3 |]. unfold selected_at in *. cbn in B4. exact B4.
Qed.

Lemma segment_spec (l l' : SI.t) (r : SI.ret) :
  SI.segment l = go.Done (r, l') ->
  SI.r_ok r = true /\ config l' = config l /\ SI.line l' = SI.line l
  /\ SI.r_selected r = selected_at l (image.X (SI.pos l)) (image.Y (SI.pos l))
  /\ (forall i, 0 <= i < runes (SI.r_layout r) ->
        selected_at l (image.X (SI.pos l) + i) (image.Y (SI.pos l)) = SI.r_selected r)
  /\ exists (rest_t : go.string) (rest_a : list fixed.Int26_6),
       text.Text (SI.layout l) = text.Text (SI.r_layout r) ++ rest_t
       /\ text.Advances (SI.layout l) = text.Advances (SI.r_layout r) ++ rest_a
       /\ ((SI.pos l' = image.Pt 0 (image.Y (SI.pos l) + 1) /\ SI.layout l' = SI.layout l
            /\ (SI.r_layout r = SI.layout l
                \/ selected_at l (image.X (SI.pos l) + runes (SI.r_layout r))
                                 (image.Y (SI.pos l))
                   = SI.r_selected r))
           \/ (SI.pos l' = image.Pt (image.X (SI.pos l) + runes (SI.r_layout r))
                                    (image.Y (SI.pos l))
               /\ 0 < runes (SI.r_layout r)
               /\ selected_at l (image.X (SI.pos l) + runes (SI.r_layout r))
                              (image.Y (SI.pos l))
                  = negb (SI.r_selected r)
               /\ SI.layout l' = text.mkLayout rest_t rest_a)).
Proof.
  unfold SI.segment.
  destruct (SI.rangeText _ 0 _ l _ 0 _) as [[[[l1 endx] ret1] nextLine] | |] eqn:E;
    cbn [go.bind]; try discriminate.
  apply rangeText_spec in E; [| apply runeSizes_positive | lia | lia].
  destruct E as (j & Hj & Hsel & C & Li & P & Cases).
  intros [= <- <-]. cbn [SI.r_ok SI.r_selected SI.r_layout].
  rewrite inSelection_at in *.
  set (sel := selected_at l (image.X (SI.pos l)) (image.Y (SI.pos l))) in *.
  split; [reflexivity |].
  assert (C2 : config (if nextLine
                       then SI.set_pos l1 (image.Pt 0 (image.Y (SI.pos l1) + 1))
                       else SI.set_off l1 (fixed.Pt endx (fixed.Y (SI.off l1)))) = config l)
    by (destruct nextLine; exact C).
  assert (L2 : SI.line (if nextLine
                        then SI.set_pos l1 (image.Pt 0 (image.Y (SI.pos l1) + 1))
                        else SI.set_off l1 (fixed.Pt endx (fixed.Y (SI.off l1)))) = SI.line l)
    by (destruct nextLine; exact Li).
  split; [exact C2 |]. split; [exact L2 |]. split; [reflexivity |].
  destruct Cases as [(-> & -> & -> & La) | (Hj' & B1 & B2 & -> & B4)].
  - (* the loop ran over all the runes *)
    split.
    + intros i Hi. unfold runes in Hi.
      rewrite <- (Hsel (Z.to_nat i)) by lia. f_equal. lia.
    + exists [], []. rewrite !app_nil_r. split; [reflexivity |]. split; [reflexivity |].
      left. cbn [SI.pos SI.set_pos SI.layout]. rewrite P. cbn [image.Y]. auto.
  - (* it stopped before rune [j] *)
    cbn [Z.add] in *.
    assert (R : runes (text.mkLayout
                         (firstn (Z.to_nat (sumZ (firstn j (utf8.runeSizes (text.Text (SI.layout l))))))
                                 (text.Text (SI.layout l)))
                         (firstn (Z.to_nat (Z.of_nat j)) (text.Advances (SI.layout l))))
                = Z.of_nat j).
    { unfold runes. cbn [text.Text]. rewrite runeSizes_prefix by lia.
      rewrite length_firstn. lia. }
    rewrite R. cbn [text.Text text.Advances]. split.
    + intros i Hi. rewrite <- (Hsel (Z.to_nat i)) by lia. f_equal. lia.
    + eexists _, _. split; [symmetry; apply firstn_skipn |].
      split; [symmetry; apply firstn_skipn |].
      destruct B4 as [(-> & S1 & La) | (-> & S1 & La)].
      * right. cbn [SI.pos SI.set_off SI.layout]. split; [exact P |].
        split; [| split; [exact S1 | exact La]].
        destruct j as [| j]; [| lia]. exfalso.
        rewrite Z.add_0_r in S1. fold sel in S1. destruct sel; discriminate.
      * left. cbn [SI.pos SI.set_pos SI.layout]. rewrite P. cbn [image.Y].
        split; [reflexivity |]. split; [exact La |]. right. exact S1.
Qed.

Lemma skipClipped_spec (advances : list fixed.Int26_6) :
  forall l : SI.t,
  advances = text.Advances (SI.layout l) ->
  let l' := SI.skipClipped advances l in
  config l' = config l /\ SI.line l' = SI.line l
  /\ image.Y (SI.pos l') = image.Y (SI.pos l)
  /\ image.X (SI.pos l) <= image.X (SI.pos l')
  /\ exists N M : nat,
       text.Text (SI.layout l') = skipn N (text.Text (SI.layout l))
       /\ text.Advances (SI.layout l') = skipn M (text.Advances (SI.layout l))
       /\ image.X (SI.pos l') = image.X (SI.pos l) + Z.of_nat M
       /\ (M <= List.length advances)%nat.
Proof.
  induction advances as [| adv rest IH]; intros l Ha; cbv zeta.
  - cbn. repeat split; try lia. exists 0%nat, 0%nat. repeat split; lia.
  - cbn [SI.skipClipped].
    destruct (_ >=? _).
    + repeat split; try lia. exists 0%nat, 0%nat. repeat split; cbn [List.length]; lia.
    + cbv zeta.
      match goal with |- context [SI.skipClipped rest ?l3] => set (l3' := l3) end.
      assert (C3 : config l3' = config l) by reflexivity.
      assert (L3 : SI.line l3' = SI.line l) by reflexivity.
      assert (Y3 : image.Y (SI.pos l3') = image.Y (SI.pos l)) by reflexivity.
      assert (X3 : image.X (SI.pos l3') = image.X (SI.pos l) + 1) by reflexivity.
      assert (A3 : rest = text.Advances (SI.layout l3')) by reflexivity.
      assert (T3 : exists N, text.Text (SI.layout l3') = skipn N (text.Text (SI.layout l)))
        by (eexists; reflexivity).
      assert (A3' : text.Advances (SI.layout l3') = skipn 1 (text.Advances (SI.layout l)))
        by (rewrite <- Ha; reflexivity).
      clearbody l3'. destruct (IH l3' A3) as (C & Li & Y & X & N & M & T & A & XM & LM).
      destruct T3 as [N3 T3].
      split; [congruence |]. split; [congruence |]. split; [lia |]. split; [lia |].
      exists (N3 + N)%nat, (1 + M)%nat. rewrite T, A, T3, A3', !skipn_skipn.
      split; [f_equal; lia |]. split; [f_equal; lia |].
      split; [lia | cbn [List.length]; lia].
Qed.

Lemma startLine_spec (l l1 : SI.t) (ln : text.Line) :
  SI.startLine l ln = go.Done l1 ->
  config l1 = config l /\ SI.pos l1 = SI.pos l /\ SI.layout l1 = SI.layout l /\ SI.line l1 = ln.
Proof.
  unfold SI.startLine.
  destruct (align _ _ _) as [a | |]; cbn [go.bind]; try discriminate.
  intros [= <-]. repeat split.
Qed.

(** A call of [Next] that returns a segment cuts it from the current
    layout where it goes on inside a line, and from the layout of a line
    at or after the current one, less the runes left of the clip area,
    where it takes up a new line. *)
Lemma Next_loop_segment (fuel : nat) :
  forall (l l' : SI.t) (r : SI.ret),
  0 <= image.X (SI.pos l) -> 0 <= image.Y (SI.pos l) ->
  SI.Next_loop fuel l = go.Done (r, l') -> SI.r_ok r = true ->
  exists l0 : SI.t,
    SI.segment l0 = go.Done (r, l') /\ config l0 = config l
    /\ 0 <= image.X (SI.pos l0)
    /\ ((image.X (SI.pos l) <> 0 /\ l0 = l)
        \/ (image.X (SI.pos l) = 0
            /\ image.Y (SI.pos l) <= image.Y (SI.pos l0)
            /\ exists (ln : text.Line) (N M : nat),
                 nth_error (SI.Lines l) (Z.to_nat (image.Y (SI.pos l0))) = Some ln
                 /\ SI.line l0 = ln
                 /\ text.Text (SI.layout l0) = skipn N (text.Text (text.Layout_ ln))
                 /\ text.Advances (SI.layout l0) = skipn M (text.Advances (text.Layout_ ln))
                 /\ image.X (SI.pos l0) = Z.of_nat M
                 /\ (M <= List.length (text.Advances (text.Layout_ ln)))%nat)).
Proof.
  induction fuel as [| fuel IH]; intros l l' r HX HY.
  - cbn. destruct (negb _); [| discriminate]. intros [= <- <-]. discriminate.
  - rewrite Next_loop_S.
    destruct (Z.ltb_spec (image.Y (SI.pos l)) (go.len (SI.Lines l))) as [Hlen | Hlen]; cbn [negb].
    2: { intros [= <- <-]. discriminate. }
    destruct (Z.eqb_spec (image.X (SI.pos l)) 0) as [HX0 | HX0].
    + destruct (go.index _ _) as [ln | |] eqn:Ei; cbn [go.bind]; try discriminate.
      apply index_inv in Ei. destruct Ei as [_ Hnth].
      destruct (SI.startLine l ln) as [l1 | |] eqn:Es; cbn [go.bind]; try discriminate.
      apply startLine_spec in Es. destruct Es as (C1 & P1 & La1 & Li1).
      destruct (_ >? _); [intros [= <- <-]; discriminate |].
      destruct (_ <? _).
      * set (l1' := SI.set_pos l1 _).
        assert (C1' : config l1' = config l) by exact C1.
        assert (P1' : SI.pos l1' = image.Pt (image.X (SI.pos l)) (image.Y (SI.pos l) + 1))
          by (unfold l1'; cbn; rewrite P1; reflexivity).
        clearbody l1'. intros H Hok.
        apply IH in H; [| rewrite P1'; cbn; lia | rewrite P1'; cbn; lia | exact Hok].
        destruct H as (l0 & E0 & C0 & X0 & Cases).
        exists l0. split; [exact E0 |]. split; [congruence |]. split; [exact X0 |].
        right. split; [exact HX0 |].
        rewrite P1' in Cases. cbn [image.X image.Y] in Cases.
        destruct Cases as [[Hne _] | (_ & HY0 & ln0 & N & M & Hn0 & Rest)]; [lia |].
        split; [lia |]. exists ln0, N, M. split; [| exact Rest].
        rewrite <- Hn0. f_equal. unfold config in C1'. congruence.
      * cbv zeta. intros H Hok.
        set (l2 := SI.set_layout l1 (text.Layout_ (SI.line l1))) in *.
        pose proof (skipClipped_spec (text.Advances (SI.layout l2)) l2 eq_refl)
          as (C3 & L3 & Y3 & X3 & N & M & T3 & A3 & XM & LM).
        cbv zeta in *.
        set (l3 := SI.skipClipped (text.Advances (SI.layout l2)) l2) in *.
        assert (C2 : config l2 = config l) by exact C1.
        assert (P2 : SI.pos l2 = SI.pos l) by exact P1.
        assert (La2 : SI.layout l2 = text.Layout_ ln) by (unfold l2; cbn; rewrite Li1; reflexivity).
        assert (Li2 : SI.line l2 = ln) by exact Li1.
        clearbody l2 l3. rewrite P2 in *. rewrite La2 in *.
        exists l3. split; [exact H |]. split; [congruence |]. split; [lia |].
        right. split; [exact HX0 |]. split; [lia |].
        exists ln, N, M. rewrite Y3. split; [exact Hnth |]. split; [congruence |].
        split; [assumption |]. split; [assumption |]. split; [lia | exact LM].
    + intros H _. exists l. split; [exact H |]. split; [reflexivity |]. split; [exact HX |].
      left. split; [exact HX0 | reflexivity].
Qed.

Lemma Next_loop_config (fuel : nat) :
  forall (l l' : SI.t) (r : SI.ret),
  SI.Next_loop fuel l = go.Done (r, l') -> config l' = config l.
Proof.
  induction fuel as [| fuel IH]; intros l l' r.
  - cbn. destruct (negb _); [| discriminate]. intros [= <- <-]. reflexivity.
  - rewrite Next_loop_S. destruct (negb _); [intros [= <- <-]; reflexivity |].
    destruct (_ =? 0).
    + destruct (go.index _ _) as [ln | |]; cbn [go.bind]; try discriminate.
      destruct (SI.startLine l ln) as [l1 | |] eqn:Es; cbn [go.bind]; try discriminate.
      apply startLine_spec in Es. destruct Es as (C1 & _).
      destruct (_ >? _); [intros [= <- <-]; exact C1 |].
      destruct (_ <? _).
      * intros H. apply IH in H. rewrite H. exact C1.
      * cbv zeta. intros H. apply segment_spec in H. destruct H as (_ & C & _).
        rewrite C.
        pose proof (skipClipped_spec _ (SI.set_layout l1 (text.Layout_ (SI.line l1))) eq_refl)
          as (C3 & _).
        cbv zeta in C3. rewrite C3. exact C1.
    + intros H. apply segment_spec in H. tauto.
Qed.

Lemma drain_config (n : nat) :
  forall (l l' : SI.t) (rs : list SI.ret),
  SI.drain n l = go.Done (rs, l') -> config l' = config l.
Proof.
  induction n as [| n IH]; intros l l' rs; [discriminate |].
  cbn [SI.drain].
  destruct (SI.Next l) as [[r l1] | |] eqn:E; cbn [go.bind]; try discriminate.
  apply Next_loop_config in E.
  destruct (SI.r_ok r).
  - destruct (SI.drain n l1) as [[rs1 l2] | |] eqn:E2; cbn [go.bind]; try discriminate.
    intros [= <- <-]. apply IH in E2. congruence.
  - intros [= <- <-]. exact E.
Qed.

(** X11.  [Next] reads what its caller has set and writes its own
    cursor only: the lines, the clip rectangle, the alignment, the width,
    the offset and the two ends of the selection are after a call, and
    after any number of calls, what they were before it. *)
Theorem Next_keeps_what_the_caller_set (l l' : SI.t) (r : SI.ret) :
  SI.Next l = go.Done (r, l') ->
  SI.Lines l' = SI.Lines l /\ SI.Clip l' = SI.Clip l /\ SI.Alignment l' = SI.Alignment l
  /\ SI.Width l' = SI.Width l /\ SI.Offset l' = SI.Offset l
  /\ SI.StartSel l' = SI.StartSel l /\ SI.EndSel l' = SI.EndSel l
  /\ forall (n : nat) (rs : list SI.ret) (l'' : SI.t),
       SI.drain n l = go.Done (rs, l'') -> config l'' = config l.
Proof.
  intros E. apply Next_loop_config in E. unfold config in E.
  injection E as E1 E2 E3 E4 E5 E6 E7.
  repeat split; try assumption.
  intros n rs l'' D. apply (drain_config _ _ _ _ D).
Qed.

Lemma Next_keeps_what_the_caller_set_witness :
  exists r l', SI.Next (sample_iterator text.Start) = go.Done (r, l')
               /\ SI.StartSel l' = image.Pt 1 0 /\ SI.EndSel l' = image.Pt 1 1.
Proof.
  destruct (SI.Next (sample_iterator text.Start)) as [[r l'] | |] eqn:E;
    [| vm_compute in E; discriminate | vm_compute in E; discriminate].
  exists r, l'. split; [reflexivity |].
  destruct (Next_keeps_what_the_caller_set _ _ _ E) as (_ & _ & _ & _ & _ & S1 & S2 & _).
  split; [exact S1 | exact S2].
Defined.

(** X12.  A segment is selected as a whole or not at all.  When [Next]
    returns a segment, the flag it returns with it tells for each rune of
    the segment whether the rune lies in the selection, from [StartSel]
    up to but not including [EndSel]; the runes are those in the columns
    from [x] on of line [y], the place where the segment starts.  Inside
    a line that is the current position; at the start of a line, [x] is
    the number of runes left of the clip area that were passed over, the
    advances of the segment being those of the line from [x] on.
    Afterwards the iterator stands at the start of the next line, the
    segment being all that was left of the line, or cut by the clip
    rectangle before a rune that is selected as the segment is; or it
    stands in the same line on the rune that follows the segment, and
    then the segment is not empty, that rune is selected if and only if
    the segment is not, and the advances that were left are the current
    ones. *)
Theorem Next_segments_are_selected_as_a_whole (l l' : SI.t) (r : SI.ret) :
  0 <= image.X (SI.pos l) -> 0 <= image.Y (SI.pos l) ->
  SI.Next l = go.Done (r, l') -> SI.r_ok r = true ->
  exists (x y : Z) (cur : text.Layout) (rest : list fixed.Int26_6),
    0 <= x /\ image.Y (SI.pos l) <= y
    /\ (image.X (SI.pos l) <> 0 ->
        x = image.X (SI.pos l) /\ y = image.Y (SI.pos l) /\ cur = SI.layout l)
    /\ (image.X (SI.pos l) = 0 ->
        exists ln : text.Line,
          nth_error (SI.Lines l) (Z.to_nat y) = Some ln
          /\ x <= go.len (text.Advances (text.Layout_ ln))
          /\ text.Advances cur = skipn (Z.to_nat x) (text.Advances (text.Layout_ ln)))
    /\ text.Advances cur = text.Advances (SI.r_layout r) ++ rest
    /\ SI.r_selected r = selected_at l x y
    /\ (forall i, 0 <= i < runes (SI.r_layout r) -> selected_at l (x + i) y = SI.r_selected r)
    /\ ((SI.pos l' = image.Pt 0 (y + 1)
         /\ (SI.r_layout r = cur
             \/ selected_at l (x + runes (SI.r_layout r)) y = SI.r_selected r))
        \/ (SI.pos l' = image.Pt (x + runes (SI.r_layout r)) y
            /\ 0 < runes (SI.r_layout r)
            /\ selected_at l (x + runes (SI.r_layout r)) y = negb (SI.r_selected r)
            /\ SI.inSelection l' = negb (SI.r_selected r)
            /\ text.Advances (SI.layout l') = rest)).
Proof.
  intros HX HY E Hok. unfold SI.Next in E.
  pose proof (Next_loop_config _ _ _ _ E) as C'.
  apply Next_loop_segment in E; [| exact HX | exact HY | exact Hok].
  destruct E as (l0 & E0 & C0 & X0 & Cases).
  apply segment_spec in E0.
  destruct E0 as (_ & _ & _ & S0 & S1 & rest_t & rest_a & _ & A0 & S2).
  assert (Sel : forall x y, selected_at l0 x y = selected_at l x y).
  { intros x y. unfold selected_at, config in *. congruence. }
  assert (Sel' : forall x y, selected_at l' x y = selected_at l x y).
  { intros x y. unfold selected_at, config in *. congruence. }
  exists (image.X (SI.pos l0)), (image.Y (SI.pos l0)), (SI.layout l0), rest_a.
  split; [exact X0 |]. split; [destruct Cases as [[_ ->] | (_ & H & _)]; lia |].
  split; [intros Hne; destruct Cases as [[_ ->] | (H & _)]; [auto | lia] |].
  split.
  { intros H0. destruct Cases as [[Hne _] | (_ & _ & ln & N & M & Hn & _ & _ & A & XM & LM)];
      [lia |].
    exists ln. split; [exact Hn |]. rewrite XM, Nat2Z.id. unfold go.len.
    split; [lia | exact A]. }
  split; [exact A0 |].
  split; [rewrite <- Sel; exact S0 |].
  split; [intros i Hi; rewrite <- Sel; apply S1; exact Hi |].
  destruct S2 as [(P & _ & W) | (P & K & S3 & La)]; [left | right].
  - split; [exact P |]. rewrite <- Sel. exact W.
  - split; [exact P |]. split; [exact K |]. rewrite <- Sel. split; [exact S3 |].
    split; [| rewrite La; reflexivity].
    rewrite inSelection_at, P. cbn [image.X image.Y]. rewrite Sel', <- Sel. exact S3.
Qed.

Lemma Next_segments_are_selected_as_a_whole_witness :
  exists r l',
    SI.Next (sample_iterator text.Start) = go.Done (r, l')
    /\ SI.r_selected r = false /\ SI.pos l' = image.Pt 1 0 /\ SI.inSelection l' = true.
Proof.
  destruct (SI.Next (sample_iterator text.Start)) as [[r l'] | |] eqn:E;
    [| vm_compute in E; discriminate | vm_compute in E; discriminate].
  exists r, l'. split; [reflexivity |].
  destruct (Next_segments_are_selected_as_a_whole (sample_iterator text.Start) l' r)
    as (x & y & cur & rest & _ & _ & _ & _ & _ & S0 & _ & _).
  - cbn. lia.
  - cbn. lia.
  - exact E.
  - vm_compute in E. injection E as <- _. reflexivity.
  - vm_compute in E. injection E as <- <-. repeat split.
Defined.

(** X13.  [Next] hands out the text of a line piece by piece and
    loses none of it where the selection makes it stop: the text and the
    advances it returns are the front of the layout it cuts them from,
    which is the current layout inside a line and otherwise the layout of
    the line it takes up, less the runes left of the clip area; and where
    the segment ends before the end of its line the rest is the current
    layout of the iterator afterwards, so that the next segment starts
    where this one ends. *)
Theorem Next_keeps_the_rest_of_the_line (l l' : SI.t) (r : SI.ret) :
  0 <= image.X (SI.pos l) -> 0 <= image.Y (SI.pos l) ->
  SI.Next l = go.Done (r, l') -> SI.r_ok r = true ->
  exists (cur : text.Layout) (rest_t : go.string) (rest_a : list fixed.Int26_6),
    text.Text cur = text.Text (SI.r_layout r) ++ rest_t
    /\ text.Advances cur = text.Advances (SI.r_layout r) ++ rest_a
    /\ (image.X (SI.pos l) <> 0 -> cur = SI.layout l)
    /\ (image.X (SI.pos l) = 0 ->
        exists (ln : text.Line) (N M : nat),
          In ln (SI.Lines l)
          /\ text.Text cur = skipn N (text.Text (text.Layout_ ln))
          /\ text.Advances cur = skipn M (text.Advances (text.Layout_ ln)))
    /\ (image.X (SI.pos l') <> 0 -> SI.layout l' = text.mkLayout rest_t rest_a)
    /\ (image.X (SI.pos l') = 0 -> image.Y (SI.pos l) < image.Y (SI.pos l')).
Proof.
  intros HX HY E Hok. unfold SI.Next in E.
  apply Next_loop_segment in E; [| exact HX | exact HY | exact Hok].
  destruct E as (l0 & E0 & C0 & X0 & Cases).
  apply segment_spec in E0.
  destruct E0 as (_ & _ & _ & _ & _ & rest_t & rest_a & T & A & S2).
  exists (SI.layout l0), rest_t, rest_a.
  split; [exact T |]. split; [exact A |]. split; [| split; [| split]].
  - intros Hne. destruct Cases as [[_ ->] | (H & _)]; [reflexivity | lia].
  - intros H0. destruct Cases as [[Hne _] | (_ & _ & ln & N & M & Hn & _ & T0 & A0 & _)]; [lia |].
    exists ln, N, M. split; [eapply nth_error_In; exact Hn |]. split; assumption.
  - intros Hne. destruct S2 as [[P _] | (_ & _ & _ & La)]; [| exact La].
    rewrite P in Hne. cbn in Hne. lia.
  - intros H0. destruct S2 as [[P _] | (P & K & _)]; rewrite P in *; cbn [image.X image.Y] in *.
    + destruct Cases as [[_ ->] | (_ & H & _)]; lia.
    + lia.
Qed.

Lemma Next_keeps_the_rest_of_the_line_witness :
  exists r l',
    SI.Next (sample_iterator text.Start) = go.Done (r, l')
    /\ text.Text (SI.r_layout r) = go.str "a" /\ text.Text (SI.layout l') = go.str "bc".
Proof.
  destruct (SI.Next (sample_iterator text.Start)) as [[r l'] | |] eqn:E;
    [| vm_compute in E; discriminate | vm_compute in E; discriminate].
  exists r, l'. split; [reflexivity |].
  destruct (Next_keeps_the_rest_of_the_line (sample_iterator text.Start) l' r)
    as (cur & rest_t & rest_a & _).
  - cbn. lia.
  - cbn. lia.
  - exact E.
  - vm_compute in E. injection E as <- _. reflexivity.
  - vm_compute in E. injection E as <- <-. split; reflexivity.
Defined.

(** ** Layouts without a selection *)

Lemma no_selection_at (l : SI.t) (x y : Z) : no_selection l -> selected_at l x y = false.
Proof.
  unfold no_selection, selected_at. intros H.
  destruct (Point.LessOrEqual (SI.StartSel l) (image.Pt x y)) eqn:E1; [| reflexivity].
  destruct (Point.Less (image.Pt x y) (SI.EndSel l)) eqn:E2; [| reflexivity].
  apply LessOrEqual_spec in H, E1. apply Less_spec in E2. cbn [image.X image.Y] in *. lia.
Qed.

(** Without a selection every segment is a whole line, or what the
    clip area leaves of it, and [Next] goes on to the next line. *)
Lemma Next_no_selection (l l' : SI.t) (r : SI.ret) :
  no_selection l -> 0 <= image.X (SI.pos l) -> 0 <= image.Y (SI.pos l) ->
  SI.Next l = go.Done (r, l') -> SI.r_ok r = true ->
  SI.r_selected r = false /\ no_selection l' /\ SI.Lines l' = SI.Lines l
  /\ image.X (SI.pos l') = 0
  /\ image.Y (SI.pos l) < image.Y (SI.pos l') <= go.len (SI.Lines l).
Proof.
  intros Hn HX HY E Hok.
  pose proof E as E1. unfold SI.Next in E1. apply Next_loop_config in E1.
  pose proof E as E2. unfold SI.Next in E2. apply Next_loop_post in E2; [| exact HX | exact HY].
  destruct E2 as (_ & _ & _ & R). destruct (R Hok) as [R1 _].
  assert (Hlen : image.Y (SI.pos l) < go.len (SI.Lines l)).
  { unfold SI.remaining in R1.
    destruct (Z.ltb_spec (image.Y (SI.pos l)) (go.len (SI.Lines l))); [assumption | lia]. }
  unfold SI.Next in E. apply Next_loop_segment in E; [| exact HX | exact HY | exact Hok].
  destruct E as (l0 & E0 & C0 & X0 & Cases).
  apply segment_spec in E0.
  destruct E0 as (_ & _ & _ & S0 & _ & rest_t & rest_a & _ & _ & S2).
  assert (Hn0 : no_selection l0) by (unfold no_selection, config in *; congruence).
  assert (Hn' : no_selection l') by (unfold no_selection, config in *; congruence).
  assert (L' : SI.Lines l' = SI.Lines l) by (unfold config in *; congruence).
  rewrite (no_selection_at l0 _ _ Hn0) in S0.
  split; [exact S0 |]. split; [exact Hn' |]. split; [exact L' |].
  destruct S2 as [[P _] | (_ & _ & S3 & _)].
  - rewrite P. cbn [image.X image.Y]. split; [reflexivity |].
    destruct Cases as [[_ ->] | (_ & H & ln & _ & _ & Hnth & _)]; [lia |].
    assert (Z.to_nat (image.Y (SI.pos l0)) < List.length (SI.Lines l))%nat
      by (apply nth_error_Some; congruence).
    unfold go.len. lia.
  - rewrite (no_selection_at l0 _ _ Hn0), S0 in S3. discriminate.
Qed.

Lemma drain_no_selection (n : nat) :
  forall (l l' : SI.t) (rs : list SI.ret),
  no_selection l -> image.X (SI.pos l) = 0 -> 0 <= image.Y (SI.pos l) ->
  SI.drain n l = go.Done (rs, l') ->
  Forall (fun r => SI.r_selected r = false) rs
  /\ Z.of_nat (List.length rs) <= Z.max 0 (go.len (SI.Lines l) - image.Y (SI.pos l)).
Proof.
  induction n as [| n IH]; intros l l' rs Hn HX HY; [discriminate |].
  cbn [SI.drain].
  destruct (SI.Next l) as [[r l1] | |] eqn:E; cbn [go.bind]; try discriminate.
  destruct (SI.r_ok r) eqn:Eok.
  - destruct (SI.drain n l1) as [[rs1 l2] | |] eqn:E2; cbn [go.bind]; try discriminate.
    intros [= <- <-].
    destruct (Next_no_selection l l1 r Hn ltac:(lia) HY E Eok) as (S & Hn1 & L1 & X1 & Y1).
    apply IH in E2; [| exact Hn1 | exact X1 | lia].
    destruct E2 as [F Hl]. split; [constructor; assumption |].
    cbn [List.length]. rewrite L1 in Hl. lia.
  - intros [= <- <-]. split; [constructor | cbn; lia].
Qed.

(** X14.  A label has no selection, so it never draws a highlight and
    never splits a line: every segment it draws is unselected, and it
    draws at most one segment for each of its lines, so at most
    [MaxLines] when that is positive. *)
Theorem Label_draws_whole_unselected_lines
    (l : Label.t) (Constrain : image.Point -> image.Point) (shaped : list text.Line)
    (drawn : list SI.ret) (dims : layout.Dimensions) :
  Label.Layout l Constrain shaped = go.Done (drawn, dims) ->
  Forall (fun r => SI.r_selected r = false) drawn
  /\ (List.length drawn <= List.length shaped)%nat
  /\ (0 < Label.MaxLines l -> Z.of_nat (List.length drawn) <= Label.MaxLines l).
Proof.
  unfold Label.Layout.
  destruct (if (Label.MaxLines l >? 0) && (go.len shaped >? Label.MaxLines l)
            then go.slice_to shaped (Label.MaxLines l) else go.Done shaped)
    as [lines | |] eqn:El; cbn [go.bind]; try discriminate.
  assert (Hlines : (List.length lines <= List.length shaped)%nat
                   /\ (0 < Label.MaxLines l -> go.len lines <= Label.MaxLines l)).
  { destruct (Z.gtb_spec (Label.MaxLines l) 0) as [Hm | Hm]; cbn [andb] in El.
    - destruct (Z.gtb_spec (go.len shaped) (Label.MaxLines l)) as [Hs | Hs].
      + rewrite slice_to_Done in El by lia. injection El as <-.
        unfold go.len in *. rewrite length_firstn. lia.
      + injection El as <-. split; [lia |]. intros _. lia.
    - injection El as <-. split; [lia |]. intros H. lia. }
  cbv zeta.
  match goal with |- context [SI.drain (S (SI.remaining ?i)) ?i] => set (it := i) end.
  destruct (SI.drain (S (SI.remaining it)) it) as [[rs l'] | |] eqn:Ed; cbn [go.bind];
    try discriminate.
  intros [= <- <-].
  apply drain_no_selection in Ed; [| reflexivity | reflexivity | cbn; lia].
  destruct Ed as [F Hl]. split; [exact F |].
  change (SI.Lines it) with lines in Hl. change (image.Y (SI.pos it)) with 0 in Hl.
  unfold go.len in *. destruct Hlines as [H1 H2]. split; [lia |]. intros Hm.
  specialize (H2 Hm). lia.
Qed.

Lemma Label_draws_whole_unselected_lines_witness :
  exists drawn dims,
    Label.Layout (Label.mk text.Start 1) (fun p => p)
                 [sample_line (go.str "ab"); sample_line (go.str "c")]
    = go.Done (drawn, dims)
    /\ Forall (fun r => SI.r_selected r = false) drawn
    /\ Z.of_nat (List.length drawn) <= 1.
Proof.
  destruct (Label.Layout (Label.mk text.Start 1) (fun p => p)
              [sample_line (go.str "ab"); sample_line (go.str "c")])
    as [[drawn dims] | |] eqn:E;
    [| vm_compute in E; discriminate | vm_compute in E; discriminate].
  exists drawn, dims. split; [reflexivity |].
  destruct (Label_draws_whole_unselected_lines _ _ _ _ _ E) as (F & _ & M).
  split; [exact F |]. apply M. cbn. lia.
Defined.

(** ** What [layout] leaves behind *)

Lemma scrollRel_within_bounds (e e' : Editor.t) (dx dy : Z) :
  Editor.scrollRel e dx dy = go.Done e' ->
  exists b, Editor.scrollBounds e' = go.Done b /\ clamped b (Editor.scrollOff e').
Proof.
  intros E. unfold Editor.scrollRel in E.
  pose proof (scrollAbs_within_bounds e (go.wrap64 (image.X (Editor.scrollOff e) + dx))
                (go.wrap64 (image.Y (Editor.scrollOff e) + dy))) as W.
  rewrite E in W. destruct W as (b & _ & Eb & Hc). exists b. split; assumption.
Qed.

(** X16.  After the editor's [layout] the scroll offset lies within
    the scroll bounds of the editor as it stands, whatever the caret and
    a stale offset asked for; the request for the focus is taken up, the
    caret is shown only in a focused editor, and the dimensions returned
    are the size of the view over the baseline of the text.  The shapes
    are the segments of the text, one for each: without a selection, the
    two ends of the drag being equal, none of them is selected and there
    is at most one for each line. *)
Theorem layout_leaves_the_offset_in_bounds
    (makeValid : Editor.t -> go.outcome Editor.t) (blinkOn : bool)
    (e e' : Editor.t) (d : layout.Dimensions) :
  Editor.layout makeValid blinkOn e = go.Done (d, e') ->
  (exists b, Editor.scrollBounds e' = go.Done b /\ clamped b (Editor.scrollOff e'))
  /\ Editor.requestFocus e' = false
  /\ Editor.on (Editor.caret e') = Editor.focused e' && blinkOn
  /\ d = layout.mkDimensions (Editor.viewSize e') (layout.Baseline (Editor.dims e'))
  /\ (Editor.startDrag e' = Editor.endDrag e' ->
      Forall (fun s => Editor.selected s = false) (Editor.shapes e')
      /\ (List.length (Editor.shapes e') <= List.length (Editor.lines e'))%nat).
Proof.
  unfold Editor.layout.
  destruct (Editor.scrollRel e 0 0) as [e1 | |] eqn:E1; cbn [go.bind]; try discriminate.
  destruct (if Editor.scroll (Editor.caret e1)
            then Editor.scrollToCaret makeValid
                   (Editor.set_caret e1 (Editor.set_scroll (Editor.caret e1) false))
            else go.Done e1) as [e2 | |] eqn:E2; cbn [go.bind]; try discriminate.
  assert (B2 : exists b, Editor.scrollBounds e2 = go.Done b /\ clamped b (Editor.scrollOff e2)).
  { destruct (Editor.scroll (Editor.caret e1)).
    - unfold Editor.scrollToCaret in E2.
      destruct (makeValid _) as [e3 | |]; cbn [go.bind] in E2; try discriminate.
      destruct (go.index _ _) as [ln | |]; cbn [go.bind] in E2; try discriminate.
      destruct (Editor.SingleLine e3); apply (scrollRel_within_bounds _ _ _ _ E2).
    - injection E2 as <-. apply (scrollRel_within_bounds _ _ _ _ E1). }
  destruct (sortPoints (Editor.startDrag e2) (Editor.endDrag e2)) as [startSel endSel] eqn:Es.
  match goal with |- context [SI.drain (S (SI.remaining ?i)) ?i] => set (it := i) end.
  destruct (SI.drain (S (SI.remaining it)) it) as [[segs l'] | |] eqn:Ed; cbn [go.bind];
    try discriminate.
  intros [= <- <-]. cbn.
  split; [exact B2 |]. split; [reflexivity |]. split; [reflexivity |]. split; [reflexivity |].
  intros Hd.
  assert (Hn : no_selection it).
  { rewrite Hd in Es. unfold sortPoints in Es. unfold no_selection.
    destruct (Point.Less _ _); injection Es as <- <-; cbn; apply LessOrEqual_spec; lia. }
  apply drain_no_selection in Ed; [| exact Hn | reflexivity | cbn; lia].
  destruct Ed as [F Hl]. split.
  - rewrite Forall_map. cbn. exact F.
  - rewrite length_map. change (SI.Lines it) with (Editor.lines e2) in Hl.
    change (image.Y (SI.pos it)) with 0 in Hl. unfold go.len in Hl. lia.
Qed.

Lemma layout_leaves_the_offset_in_bounds_witness :
  exists d e',
    Editor.layout (fun e => go.Done e) true
      (Editor.set_scrollOff (sample_scrolling true) (image.Pt 500 9)) = go.Done (d, e')
    /\ (exists b, Editor.scrollBounds e' = go.Done b /\ clamped b (Editor.scrollOff e'))
    /\ Editor.on (Editor.caret e') = Editor.focused e' && true.
Proof.
  destruct (Editor.layout (fun e => go.Done e) true
              (Editor.set_scrollOff (sample_scrolling true) (image.Pt 500 9)))
    as [[d e'] | |] eqn:E;
    [| vm_compute in E; discriminate | vm_compute in E; discriminate].
  exists d, e'. split; [reflexivity |].
  destruct (layout_leaves_the_offset_in_bounds _ _ _ _ _ E) as (B & _ & O & _).
  split; [exact B | exact O].
Defined.

(** ** Inserting text *)

Lemma In_firstn_skipn {A : Type} (x : A) (n : nat) (xs : list A) :
  In x (firstn n xs) \/ In x (skipn n xs) -> In x xs.
Proof. intros H. rewrite <- (firstn_skipn n xs). apply in_or_app. exact H. Qed.

(** X17.  [Insert] puts the text at the caret and moves the caret
    past it: the contents are what was before the caret, the text, with
    its newlines turned into spaces in a single-line editor, and what was
    after the caret; the caret stands behind the text and the length has
    grown by the length of the text.  A single-line editor without a
    newline stays without one, two insertions in a row are the insertion
    of the two texts joined, and the layout is no longer valid.  The
    buffer being the one described at [editBuffer]. *)
Theorem Insert_puts_the_text_at_the_caret (e : Editor.t) (s t : go.string) :
  let c := editBuffer.caret (Editor.rr e) in
  let line (s : go.string) :=
    if Editor.SingleLine e then Editor.ReplaceAll_newline_space s else s in
  0 <= c <= Editor.Len e -> Editor.Len e + go.len s + go.len t < 2 ^ 63 ->
  Editor.Text (Editor.Insert e s)
  = firstn (Z.to_nat c) (Editor.Text e) ++ line s ++ skipn (Z.to_nat c) (Editor.Text e)
  /\ editBuffer.caret (Editor.rr (Editor.Insert e s)) = c + go.len s
  /\ Editor.Len (Editor.Insert e s) = Editor.Len e + go.len s
  /\ Editor.valid (Editor.Insert e s) = false
  /\ Editor.scroll (Editor.caret (Editor.Insert e s)) = true
  /\ (Editor.SingleLine e = true -> ~ In x0a (Editor.Text e) ->
      ~ In x0a (Editor.Text (Editor.Insert e s)))
  /\ Editor.Text (Editor.Insert (Editor.Insert e s) t) = Editor.Text (Editor.Insert e (s ++ t))
  /\ editBuffer.caret (Editor.rr (Editor.Insert (Editor.Insert e s) t))
     = editBuffer.caret (Editor.rr (Editor.Insert e (s ++ t))).
Proof.
  intros c line Hc Hl.
  assert (Ll : forall u, go.len (line u) = go.len u).
  { intros u. unfold line. destruct (Editor.SingleLine e); [| reflexivity].
    unfold go.len, Editor.ReplaceAll_newline_space. rewrite length_map. reflexivity. }
  assert (Lapp : forall u v, line (u ++ v) = line u ++ line v).
  { intros u v. unfold line. destruct (Editor.SingleLine e); [| reflexivity].
    apply map_app. }
  assert (Lnl : forall u, Editor.SingleLine e = true -> ~ In x0a (line u)).
  { intros u Hs. unfold line. rewrite Hs. unfold Editor.ReplaceAll_newline_space.
    rewrite in_map_iff. intros (b & Hb & _).
    destruct (Byte.eqb b x0a) eqn:Eb; [discriminate |].
    subst b. vm_compute in Eb. discriminate. }
  assert (T : forall u, Editor.Text (Editor.Insert e u)
                        = firstn (Z.to_nat c) (Editor.Text e) ++ line u
                          ++ skipn (Z.to_nat c) (Editor.Text e)) by reflexivity.
  assert (W : forall u, go.len u <= go.len s + go.len t ->
                        editBuffer.caret (Editor.rr (Editor.Insert e u)) = c + go.len u).
  { intros u Hu. unfold Editor.Insert, Editor.append, Editor.prepend. cbn. fold c.
    apply wrap64_small. unfold Editor.Len, editBuffer.len, go.len in *.
    change (2 ^ 63) with 9223372036854775808 in *. lia. }
  assert (Hs : go.len s <= go.len s + go.len t) by (unfold go.len; lia).
  assert (Hst : go.len (s ++ t) <= go.len s + go.len t)
    by (unfold go.len; rewrite length_app; lia).
  split; [apply T |]. split; [apply W; exact Hs |].
  split; [| split; [reflexivity | split; [reflexivity | split; [| split]]]].
  - unfold Editor.Len, editBuffer.len.
    change (editBuffer.text (Editor.rr ?x)) with (Editor.Text x). rewrite T.
    unfold Editor.Len, editBuffer.len, go.len in *.
    change (editBuffer.text (Editor.rr e)) with (Editor.Text e) in *.
    rewrite !length_app, length_firstn, length_skipn.
    specialize (Ll s). unfold go.len in Ll. lia.
  - intros Hsl Hn. rewrite T. rewrite !in_app_iff. intros [H | [H | H]].
    + apply Hn. apply (In_firstn_skipn _ (Z.to_nat c)). left. exact H.
    + exact (Lnl s Hsl H).
    + apply Hn. apply (In_firstn_skipn _ (Z.to_nat c)). right. exact H.
  - assert (T2 : Editor.Text (Editor.Insert (Editor.Insert e s) t)
                 = firstn (Z.to_nat (c + go.len s)) (Editor.Text (Editor.Insert e s))
                   ++ line t
                   ++ skipn (Z.to_nat (c + go.len s)) (Editor.Text (Editor.Insert e s))).
    { rewrite <- (W s Hs). reflexivity. }
    rewrite T2, !T, Lapp.
    set (pre := firstn (Z.to_nat c) (Editor.Text e)).
    set (post := skipn (Z.to_nat c) (Editor.Text e)).
    assert (Lp : List.length pre = Z.to_nat c).
    { unfold pre. rewrite length_firstn. unfold Editor.Len, editBuffer.len, go.len in Hc.
      change (editBuffer.text (Editor.rr e)) with (Editor.Text e) in Hc. lia. }
    assert (Ls : Z.to_nat (c + go.len s) = List.length (pre ++ line s)).
    { rewrite length_app, Lp. specialize (Ll s). unfold go.len in *. lia. }
    rewrite Ls, (app_assoc pre (line s) post).
    rewrite firstn_app, firstn_all, skipn_app, skipn_all, Nat.sub_diag.
    cbn [firstn skipn app]. rewrite app_nil_r, <- !app_assoc. reflexivity.
  - assert (W2 : editBuffer.caret (Editor.rr (Editor.Insert (Editor.Insert e s) t))
                 = go.wrap64 (editBuffer.caret (Editor.rr (Editor.Insert e s)) + go.len t))
      by reflexivity.
    rewrite W2, (W s Hs), (W (s ++ t) Hst).
    assert (La : go.len (s ++ t) = go.len s + go.len t)
      by (unfold go.len; rewrite length_app; lia).
    rewrite La, wrap64_small; [lia |].
    unfold Editor.Len, editBuffer.len, go.len in *.
    change (2 ^ 63) with 9223372036854775808 in *. lia.
Qed.

Lemma Insert_puts_the_text_at_the_caret_witness :
  Editor.Text (Editor.Insert (Editor.Insert (Editor.configured true 0) (go.str "ab"))
                             [x63; x0a; x64])
  = go.str "abc d".
Proof.
  destruct (Insert_puts_the_text_at_the_caret
              (Editor.Insert (Editor.configured true 0) (go.str "ab")) [x63; x0a; x64] [])
    as (H & _).
  - cbn. lia.
  - cbn. lia.
  - rewrite H. reflexivity.
Defined.

(** ** The layout of the editor's text *)

Lemma index_last {A : Type} (xs : list A) (d : A) :
  xs <> [] -> go.index xs (go.len xs - 1) = go.Done (List.last xs d).
Proof.
  intros Hne. apply index_Done.
  - unfold go.len. destruct xs; [congruence | cbn [List.length]; lia].
  - unfold go.len. replace (Z.to_nat (Z.of_nat (List.length xs) - 1)) with (List.length xs - 1)%nat by lia.
    destruct (exists_last Hne) as (ys & y & ->).
    rewrite last_last, length_app. cbn [List.length].
    rewrite nth_error_app2 by lia.
    replace (List.length ys + 1 - 1 - List.length ys)%nat with 0%nat by lia. reflexivity.
Qed.

Section Caret.
Variable runeAt : editBuffer.t -> Z -> Z * Z.
Variable runeBefore : editBuffer.t -> Z -> Z * Z.
Variable shape : Editor.t -> list text.Line.
Variable reader : Editor.t -> maskReader.t.

Lemma layoutText_soft_spec (maxWidth : Z) (lines : list text.Line) (dims : layout.Dimensions) :
  (soft_wrapped lines
   /\ Editor.layoutText_soft maxWidth lines dims
      = go.Done (layout.mkDimensions (image.Pt maxWidth (image.Y (layout.Size dims)))
                                     (layout.Baseline dims)))
  \/ (~ soft_wrapped lines /\ Editor.layoutText_soft maxWidth lines dims = go.Done dims).
Proof.
  induction lines as [| l rest IH].
  - right. split; [| reflexivity]. intros (i & l & Hi & _). cbn in Hi. lia.
  - destruct rest as [| l1 rest1].
    + right. split; [| reflexivity]. intros (i & l' & Hi & _). cbn in Hi. lia.
    + cbn [Editor.layoutText_soft]. cbv zeta.
      set (txt := text.Text (text.Layout_ l)).
      assert (Tail : soft_wrapped (l1 :: rest1) -> soft_wrapped (l :: l1 :: rest1)).
      { intros (i & l' & Hi & Hn & H). exists (S i), l'. cbn [List.length] in *.
        split; [lia |]. split; [exact Hn | exact H]. }
      assert (Head : txt <> [] -> List.last txt x00 <> x0a -> soft_wrapped (l :: l1 :: rest1)).
      { intros H0 H1. exists 0%nat, l. cbn [List.length]. split; [lia |]. split; [reflexivity |].
        split; assumption. }
      assert (Inv : soft_wrapped (l :: l1 :: rest1) ->
                    (txt <> [] /\ List.last txt x00 <> x0a) \/ soft_wrapped (l1 :: rest1)).
      { intros (i & l' & Hi & Hn & H). destruct i as [| i].
        - cbn in Hn. injection Hn as <-. left. exact H.
        - right. exists i, l'. cbn [List.length] in *. split; [lia |]. split; [exact Hn | exact H]. }
      assert (Rest : txt = [] \/ List.last txt x00 = x0a ->
                (soft_wrapped (l :: l1 :: rest1)
                 /\ Editor.layoutText_soft maxWidth (l1 :: rest1) dims
                    = go.Done (layout.mkDimensions
                                 (image.Pt maxWidth (image.Y (layout.Size dims)))
                                 (layout.Baseline dims)))
                \/ (~ soft_wrapped (l :: l1 :: rest1)
                    /\ Editor.layoutText_soft maxWidth (l1 :: rest1) dims = go.Done dims)).
      { intros Hh. destruct IH as [[W E] | [W E]].
        - left. split; [apply Tail, W | exact E].
        - right. split; [| exact E]. intros H. apply Inv in H. tauto. }
      destruct (Z.gtb_spec (go.len txt) 0) as [Hl | Hl].
      * assert (Hne : txt <> []) by (intros E; rewrite E in Hl; cbn in Hl; lia).
        rewrite (index_last txt x00 Hne). cbn [go.bind].
        destruct (Byte.eqb (List.last txt x00) x0a) eqn:Eb; cbn [negb].
        -- apply Byte.byte_dec_bl in Eb. apply Rest. right. exact Eb.
        -- left. split; [| reflexivity]. apply Head; [exact Hne |].
           intros E. rewrite E in Eb. vm_compute in Eb. discriminate.
      * apply Rest. left.
        destruct txt; [reflexivity |]. unfold go.len in Hl. cbn [List.length] in Hl. lia.
Qed.

(** X18.  To avoid flickering while editing, the layout of a text
    that was wrapped takes up all the available width: [layoutText]
    returns the lines of the shaper with the dimensions of
    [linesDimens], except that the width is [maxWidth] exactly when some
    line other than the last holds text and does not end in a newline.
    The height and the baseline are those of the lines in any case. *)
Theorem layoutText_widens_wrapped_text (e : Editor.t) :
  exists (dims : layout.Dimensions) (e' : Editor.t),
    Editor.layoutText shape reader e = go.Done (shape e, dims, e')
    /\ image.Y (layout.Size dims) = image.Y (layout.Size (linesDimens (shape e)))
    /\ layout.Baseline dims = layout.Baseline (linesDimens (shape e))
    /\ (soft_wrapped (shape e) -> image.X (layout.Size dims) = Editor.maxWidth e)
    /\ (~ soft_wrapped (shape e) -> dims = linesDimens (shape e))
    /\ (List.length (shape e) <= 1 -> dims = linesDimens (shape e))%nat.
Proof.
  unfold Editor.layoutText. cbv zeta.
  assert (Short : (List.length (shape e) <= 1)%nat -> ~ soft_wrapped (shape e)).
  { intros Hl (i & l & Hi & _). lia. }
  assert (W : Editor.maxWidth (if negb (Editor.Mask e =? 0)
                               then Editor.set_maskReader e (reader e) else e)
              = Editor.maxWidth e) by (destruct (negb _); reflexivity).
  rewrite W.
  destruct (layoutText_soft_spec (Editor.maxWidth e) (shape e) (linesDimens (shape e)))
    as [[S E] | [S E]]; rewrite E; cbn [go.bind]; eexists _, _; (split; [reflexivity |]);
    cbn [layout.Size layout.Baseline image.X image.Y].
  - repeat split; try tauto; try (intros Hl; destruct (Short Hl S)).
  - repeat split; tauto.
Qed.

(** ** The caret stays on the layout *)

Lemma only_caret_refl (e : Editor.t) : only_caret e e.
Proof. unfold only_caret. destruct e as [? ? ? ? ? [? ? ?] ? ? ? ? ? ? ? ? ? ? ? ? ? ? ? ?]. reflexivity. Qed.

Lemma only_caret_trans (e1 e2 e3 : Editor.t) :
  only_caret e1 e2 -> only_caret e2 e3 -> only_caret e1 e3.
Proof. unfold only_caret. intros H1 H2. rewrite H1 in H2. exact H2. Qed.

Lemma only_caret_set_caret (e : Editor.t) (c : Editor.caret_t) :
  only_caret e (Editor.set_caret e c).
Proof. unfold only_caret. destruct e as [? ? ? ? ? [? ? ?] ? ? ? ? ? ? ? ? ? ? ? ? ? ? ? ?]. reflexivity. Qed.

Lemma only_caret_set_rr_caret (e : Editor.t) (v : Z) :
  only_caret e (Editor.set_rr_caret e v).
Proof. unfold only_caret. destruct e as [? ? ? ? ? [? ? ?] ? ? ? ? ? ? ? ? ? ? ? ? ? ? ? ?]. reflexivity. Qed.

(** What a move of the caret leaves alone. *)
Lemma only_caret_frame (e e' : Editor.t) :
  only_caret e e' ->
  Editor.lines e' = Editor.lines e /\ Editor.valid e' = Editor.valid e
  /\ Editor.Alignment e' = Editor.Alignment e /\ Editor.viewSize e' = Editor.viewSize e
  /\ Editor.maxWidth e' = Editor.maxWidth e /\ Editor.dims e' = Editor.dims e
  /\ editBuffer.len (Editor.rr e') = editBuffer.len (Editor.rr e).
Proof. unfold only_caret. intros ->. repeat split. Qed.

Lemma makeValid_valid (e : Editor.t) :
  Editor.valid e = true -> Editor.makeValid runeAt shape reader e = go.Done e.
Proof. intros H. unfold Editor.makeValid. rewrite H. reflexivity. Qed.

Lemma on_line_index (e : Editor.t) (line : Z) (ln : text.Line) :
  on_line e line ln -> go.index (Editor.lines e) line = go.Done ln.
Proof. intros [H1 H2]. apply index_Done; assumption. Qed.

Lemma on_line_bound (e : Editor.t) (line : Z) (ln : text.Line) :
  on_line e line ln -> 0 <= line < go.len (Editor.lines e).
Proof.
  intros [H1 H2]. assert (Z.to_nat line < List.length (Editor.lines e))%nat
    by (apply nth_error_Some; congruence).
  unfold go.len. lia.
Qed.

Lemma on_line_total (e : Editor.t) (line : Z) :
  0 <= line < go.len (Editor.lines e) -> exists ln, on_line e line ln.
Proof.
  intros H. destruct (nth_error (Editor.lines e) (Z.to_nat line)) as [ln |] eqn:E.
  - exists ln. split; [lia | exact E].
  - apply nth_error_None in E. unfold go.len in H. lia.
Qed.

Lemma on_line_only_caret (e e' : Editor.t) (line : Z) (ln : text.Line) :
  only_caret e e' -> on_line e line ln -> on_line e' line ln.
Proof. intros H [H1 H2]. apply only_caret_frame in H. split; [exact H1 |]. destruct H as [-> _]. exact H2. Qed.

Lemma sumZ_app (xs ys : list Z) : sumZ (xs ++ ys) = sumZ xs + sumZ ys.
Proof. unfold sumZ. induction xs as [| x xs IH]; cbn [app fold_right]; lia. Qed.

Lemma firstn_S_nth {A : Type} (n : nat) (xs : list A) (x : A) :
  nth_error xs n = Some x -> firstn (S n) xs = firstn n xs ++ [x].
Proof.
  revert xs. induction n as [| n IH]; intros [| y ys]; cbn; try discriminate.
  - intros [= ->]. reflexivity.
  - intros H. rewrite <- (IH ys H). reflexivity.
Qed.

Lemma wrap_sub_l (w a b : Z) : 0 < w -> go.wrap w (go.wrap w a - b) = go.wrap w (a - b).
Proof. intros Hw. replace (go.wrap w a - b) with (go.wrap w a + - b) by lia.
  rewrite wrap_add_l by exact Hw. reflexivity. Qed.

Lemma moveStart_loop_spec (advances : list fixed.Int26_6) (count : nat) :
  forall (i : Z) (e : Editor.t),
  Z.of_nat count = i + 1 -> i < go.len advances ->
  exists e',
    Editor.moveStart_loop runeBefore count advances i e = go.Done e'
    /\ only_caret e e'
    /\ Editor.caret e' = Editor.set_c_x (Editor.caret e) (Editor.c_x (Editor.caret e'))
    /\ go.wrap32 (Editor.c_x (Editor.caret e'))
       = go.wrap32 (Editor.c_x (Editor.caret e) - sumZ (firstn count advances)).
Proof.
  induction count as [| count IH]; intros i e Hc Hi.
  - exists e. cbn. rewrite Z.sub_0_r. split; [reflexivity |]. split; [apply only_caret_refl |].
    split; [destruct (Editor.caret e); reflexivity | reflexivity].
  - cbn [Editor.moveStart_loop]. cbv zeta.
    destruct (index_total advances i ltac:(lia)) as [adv Ea]. rewrite Ea. cbn [go.bind].
    apply index_inv in Ea. destruct Ea as [_ Ea].
    match goal with |- context [Editor.moveStart_loop _ _ _ _ ?e1] => set (e1' := e1) end.
    assert (O1 : only_caret e e1').
    { eapply only_caret_trans; [apply only_caret_set_rr_caret | apply only_caret_set_caret]. }
    assert (C1 : Editor.caret e1'
                 = Editor.set_c_x (Editor.caret e) (fixed.sub (Editor.c_x (Editor.caret e)) adv))
      by reflexivity.
    clearbody e1'.
    destruct (IH (i - 1) e1' ltac:(lia) ltac:(lia)) as (e' & E & O & C & X).
    exists e'. split; [exact E |]. split; [eapply only_caret_trans; eassumption |].
    split.
    + rewrite C, C1. reflexivity.
    + rewrite X, C1. cbn [Editor.c_x Editor.set_c_x].
      replace (Z.to_nat i) with count in Ea by lia.
      rewrite (firstn_S_nth _ _ _ Ea), sumZ_app. unfold fixed.sub.
      change go.wrap32 with (go.wrap 32). rewrite wrap_sub_l by lia. f_equal.
      unfold sumZ. cbn [fold_right]. lia.
Qed.

Lemma moveEnd_loop_spec (advances : list fixed.Int26_6) (count : nat) :
  forall (i : Z) (e : Editor.t),
  0 <= i -> i + Z.of_nat count <= go.len advances ->
  exists e',
    Editor.moveEnd_loop runeAt count advances i e = go.Done e'
    /\ only_caret e e'
    /\ Editor.caret e'
       = Editor.set_col (Editor.set_c_x (Editor.caret e) (Editor.c_x (Editor.caret e')))
                        (Editor.col (Editor.caret e) + Z.of_nat count)
    /\ go.wrap32 (Editor.c_x (Editor.caret e'))
       = go.wrap32 (Editor.c_x (Editor.caret e)
                    + sumZ (firstn count (skipn (Z.to_nat i) advances))).
Proof.
  induction count as [| count IH]; intros i e Hi Hc.
  - exists e. cbn. rewrite !Z.add_0_r. split; [reflexivity |]. split; [apply only_caret_refl |].
    split; [destruct (Editor.caret e); reflexivity | reflexivity].
  - cbn [Editor.moveEnd_loop]. cbv zeta.
    destruct (index_total advances i ltac:(lia)) as [adv Ea]. rewrite Ea. cbn [go.bind].
    apply index_inv in Ea. destruct Ea as [_ Ea].
    match goal with |- context [Editor.moveEnd_loop _ _ _ _ ?e1] => set (e1' := e1) end.
    assert (O1 : only_caret e e1').
    { eapply only_caret_trans; [apply only_caret_set_rr_caret |].
      eapply only_caret_trans; apply only_caret_set_caret. }
    assert (C1 : Editor.caret e1'
                 = Editor.set_col
                     (Editor.set_c_x (Editor.caret e) (fixed.add (Editor.c_x (Editor.caret e)) adv))
                     (Editor.col (Editor.caret e) + 1))
      by reflexivity.
    clearbody e1'.
    destruct (IH (i + 1) e1' ltac:(lia) ltac:(lia)) as (e' & E & O & C & X).
    exists e'. split; [exact E |]. split; [eapply only_caret_trans; eassumption |].
    split.
    + rewrite C, C1. unfold Editor.set_col, Editor.set_c_x.
      cbn [Editor.on Editor.scroll Editor.xoff Editor.c_line Editor.col Editor.c_x Editor.c_y].
      f_equal. lia.
    + rewrite X, C1. cbn [Editor.c_x Editor.set_c_x Editor.set_col].
      rewrite (skipn_nth_error _ _ _ Ea). cbn [firstn]. unfold fixed.add.
      change go.wrap32 with (go.wrap 32). rewrite wrap_add_l by lia. f_equal.
      replace (Z.to_nat (i + 1)) with (S (Z.to_nat i)) by lia.
      unfold sumZ. cbn [fold_right]. lia.
Qed.

Lemma lineEnd_only_caret (e e' : Editor.t) (line : Z) :
  only_caret e e' -> Editor.lineEnd e' line = Editor.lineEnd e line.
Proof. intros H. apply only_caret_frame in H. unfold Editor.lineEnd. destruct H as [-> _]. reflexivity. Qed.

Lemma lineEnd_range (e : Editor.t) (line : Z) : 0 <= Editor.lineEnd e line <= 1.
Proof. unfold Editor.lineEnd. destruct (_ <? _); lia. Qed.

(** [moveStart] on a valid layout, the caret on a line and not beyond
    its end. *)
Lemma moveStart_spec (e : Editor.t) (ln : text.Line) :
  Editor.valid e = true ->
  on_line e (Editor.c_line (Editor.caret e)) ln ->
  Editor.col (Editor.caret e) <= go.len (text.Advances (text.Layout_ ln)) ->
  exists e',
    Editor.moveStart runeAt runeBefore shape reader e = go.Done e'
    /\ only_caret e e'
    /\ Editor.col (Editor.caret e') = 0
    /\ Editor.c_line (Editor.caret e') = Editor.c_line (Editor.caret e)
    /\ Editor.c_y (Editor.caret e') = Editor.c_y (Editor.caret e)
    /\ go.wrap32 (Editor.c_x (Editor.caret e'))
       = go.wrap32 (Editor.c_x (Editor.caret e)
                    - sumZ (firstn (Z.to_nat (Editor.col (Editor.caret e)))
                                   (text.Advances (text.Layout_ ln))))
    /\ Editor.xoff (Editor.caret e') = go.wrap32 (- Editor.c_x (Editor.caret e')).
Proof.
  intros Hv Hl Hc. unfold Editor.moveStart.
  rewrite (makeValid_valid e Hv). cbn [go.bind].
  rewrite (on_line_index _ _ _ Hl). cbn [go.bind].
  assert (L : exists e1,
             Editor.moveStart_loop runeBefore (Z.to_nat (Editor.col (Editor.caret e)))
               (text.Advances (text.Layout_ ln)) (Editor.col (Editor.caret e) - 1) e
             = go.Done e1
             /\ only_caret e e1
             /\ Editor.caret e1 = Editor.set_c_x (Editor.caret e) (Editor.c_x (Editor.caret e1))
             /\ go.wrap32 (Editor.c_x (Editor.caret e1))
                = go.wrap32 (Editor.c_x (Editor.caret e)
                             - sumZ (firstn (Z.to_nat (Editor.col (Editor.caret e)))
                                            (text.Advances (text.Layout_ ln))))).
  { destruct (Z.to_nat (Editor.col (Editor.caret e))) as [| n] eqn:En.
    - exists e. cbn. rewrite Z.sub_0_r. split; [reflexivity |].
      split; [apply only_caret_refl |].
      split; [destruct (Editor.caret e); reflexivity | reflexivity].
    - rewrite <- En. apply moveStart_loop_spec; lia. }
  destruct L as (e1 & -> & O & C & X). cbn [go.bind].
  eexists. split; [reflexivity |].
  split.
  { eapply only_caret_trans; [exact O |].
    eapply only_caret_trans; apply only_caret_set_caret. }
  cbn. rewrite C. cbn. repeat split. rewrite C in X. exact X.
Qed.

(** [moveEnd] on a valid layout with the caret on it. *)
Lemma moveEnd_spec (e : Editor.t) (ln : text.Line) :
  Editor.valid e = true -> known_alignment (Editor.Alignment e) ->
  on_line e (Editor.c_line (Editor.caret e)) ln ->
  0 <= Editor.col (Editor.caret e) <= go.len (text.Advances (text.Layout_ ln)) ->
  let stop := go.len (text.Advances (text.Layout_ ln))
              - Editor.lineEnd e (Editor.c_line (Editor.caret e)) in
  exists e',
    Editor.moveEnd runeAt shape reader e = go.Done e'
    /\ only_caret e e'
    /\ Editor.col (Editor.caret e') = Z.max (Editor.col (Editor.caret e)) stop
    /\ Editor.c_line (Editor.caret e') = Editor.c_line (Editor.caret e)
    /\ Editor.c_y (Editor.caret e') = Editor.c_y (Editor.caret e)
    /\ go.wrap32 (Editor.c_x (Editor.caret e'))
       = go.wrap32 (Editor.c_x (Editor.caret e)
                    + sumZ (firstn (Z.to_nat (stop - Editor.col (Editor.caret e)))
                                   (skipn (Z.to_nat (Editor.col (Editor.caret e)))
                                          (text.Advances (text.Layout_ ln))))).
Proof.
  intros Hv Ha Hl Hc stop. unfold Editor.moveEnd.
  rewrite (makeValid_valid e Hv). cbn [go.bind].
  rewrite (on_line_index _ _ _ Hl). cbn [go.bind]. fold stop.
  pose proof (lineEnd_range e (Editor.c_line (Editor.caret e))) as Hr.
  destruct (moveEnd_loop_spec (text.Advances (text.Layout_ ln))
              (Z.to_nat (stop - Editor.col (Editor.caret e)))
              (Editor.col (Editor.caret e)) e) as (e1 & E & O & C & X);
    [lia | unfold stop; lia |].
  rewrite E. cbn [go.bind].
  pose proof (only_caret_frame _ _ O) as (_ & _ & A1 & V1 & _).
  rewrite A1, V1.
  destruct (align_known _ (text.Width ln) (image.X (Editor.viewSize e)) Ha) as [a ->].
  cbn [go.bind]. eexists. split; [reflexivity |].
  split; [eapply only_caret_trans; [exact O | apply only_caret_set_caret] |].
  cbn. rewrite C. cbn. split; [lia |]. repeat split. rewrite C in X. exact X.
Qed.

Lemma layoutCaret_line_spec (advances : list fixed.Int26_6) (e : Editor.t) :
  forall (idx col : Z) (x : fixed.Int26_6),
  col <= snd (fst (Editor.layoutCaret_line runeAt advances e idx col x))
      <= col + go.len advances.
Proof.
  induction advances as [| adv rest IH]; intros idx col x.
  - cbn. lia.
  - cbn [Editor.layoutCaret_line]. unfold go.len in *. cbn [List.length].
    destruct (_ =? _); [cbn; lia |]. cbv zeta.
    specialize (IH (go.wrap64 (idx + snd (runeAt (Editor.rr e) idx))) (col + 1)
                   (fixed.add x adv)). lia.
Qed.

Lemma layoutCaret_loop_spec (e : Editor.t) (fuel : nat) :
  forall (line idx : Z) (prevDesc : fixed.Int26_6) (y : Z),
  0 <= line < go.len (Editor.lines e) ->
  go.len (Editor.lines e) - line <= Z.of_nat fuel ->
  exists (line' col : Z) (x : fixed.Int26_6) (y' : Z) (ln : text.Line),
    Editor.layoutCaret_loop runeAt fuel e line idx prevDesc y = go.Done (line', col, x, y')
    /\ on_line e line' ln
    /\ 0 <= col <= go.len (text.Advances (text.Layout_ ln)).
Proof.
  induction fuel as [| fuel IH]; intros line idx prevDesc y Hl Hf; [lia |].
  cbn [Editor.layoutCaret_loop].
  destruct (on_line_total e line Hl) as [ln Hln].
  rewrite (on_line_index _ _ _ Hln). cbn [go.bind]. cbv zeta.
  pose proof (layoutCaret_line_spec (text.Advances (text.Layout_ ln)) e idx 0 0) as Hc.
  destruct (Editor.layoutCaret_line runeAt _ e idx 0 0) as [[[found idx'] col] x].
  cbn [fst snd] in Hc.
  destruct found; [eexists _, _, _, _, ln; split; [reflexivity | split; [exact Hln | lia]] |].
  destruct (Z.eqb_spec line (go.len (Editor.lines e) - 1)) as [He | He]; cbn [orb];
    [eexists _, _, _, _, ln; split; [reflexivity | split; [exact Hln | lia]] |].
  destruct (idx' >? _);
    [eexists _, _, _, _, ln; split; [reflexivity | split; [exact Hln | lia]] |].
  apply IH; lia.
Qed.

Lemma layoutCaret_spec (e : Editor.t) :
  (Editor.lines e = [] ->
   Editor.layoutCaret runeAt e = go.Panic go.IndexOutOfRange)
  /\ (Editor.lines e <> [] -> ~ known_alignment (Editor.Alignment e) ->
      Editor.layoutCaret runeAt e = go.Panic (go.UnknownAlignment (Editor.Alignment e)))
  /\ (Editor.lines e <> [] -> known_alignment (Editor.Alignment e) ->
      exists (line col : Z) (x : fixed.Int26_6) (y : Z) (ln : text.Line),
        Editor.layoutCaret runeAt e = go.Done (line, col, x, y)
        /\ on_line e line ln
        /\ 0 <= col <= go.len (text.Advances (text.Layout_ ln))).
Proof.
  unfold Editor.layoutCaret. split; [| split].
  - intros H. cbn [Editor.layoutCaret_loop]. rewrite H. reflexivity.
  - intros Hne Ha.
    destruct (layoutCaret_loop_spec e (S (List.length (Editor.lines e))) 0 0 0 0)
      as (line & col & x & y & ln & -> & Hln & Hc).
    { unfold go.len. destruct (Editor.lines e); [congruence | cbn [List.length]; lia]. }
    { unfold go.len. lia. }
    cbn [go.bind]. rewrite (on_line_index _ _ _ Hln). cbn [go.bind].
    rewrite (align_unknown _ _ _ Ha). reflexivity.
  - intros Hne Ha.
    destruct (layoutCaret_loop_spec e (S (List.length (Editor.lines e))) 0 0 0 0)
      as (line & col & x & y & ln & -> & Hln & Hc).
    { unfold go.len. destruct (Editor.lines e); [congruence | cbn [List.length]; lia]. }
    { unfold go.len. lia. }
    cbn [go.bind]. rewrite (on_line_index _ _ _ Hln). cbn [go.bind].
    destruct (align_known _ (text.Width ln) (image.X (Editor.viewSize e)) Ha) as [a ->].
    cbn [go.bind]. eexists _, _, _, _, ln. split; [reflexivity |]. split; assumption.
Qed.

Lemma layoutText_Done (e : Editor.t) :
  exists dims,
    Editor.layoutText shape reader e
    = go.Done (shape e, dims,
               if negb (Editor.Mask e =? 0) then Editor.set_maskReader e (reader e) else e).
Proof.
  unfold Editor.layoutText. cbv zeta.
  assert (W : Editor.maxWidth (if negb (Editor.Mask e =? 0)
                               then Editor.set_maskReader e (reader e) else e)
              = Editor.maxWidth e) by (destruct (negb _); reflexivity).
  rewrite W.
  destruct (layoutText_soft_spec (Editor.maxWidth e) (shape e) (linesDimens (shape e)))
    as [[_ E] | [_ E]]; rewrite E; cbn [go.bind]; eexists; reflexivity.
Qed.

(** X20.  [makeValid] lays the text out when the layout is not valid
    and does nothing when it is, so that a second call changes nothing.
    A layout that it made is valid, has the lines of the shaper, and has
    the caret on it: the caret line is one of the lines and the caret
    column lies within the advances of that line.  It panics when the
    shaper returns no line at all, on indexing the first line, and when
    the alignment is none of the three; so [NumLines] is never less than
    one after it has laid the text out. *)
Theorem makeValid_puts_the_caret_on_the_layout (e : Editor.t) :
  (Editor.valid e = true -> Editor.makeValid runeAt shape reader e = go.Done e)
  /\ (Editor.valid e = false -> shape e = [] ->
      Editor.makeValid runeAt shape reader e = go.Panic go.IndexOutOfRange)
  /\ (Editor.valid e = false -> shape e <> [] -> ~ known_alignment (Editor.Alignment e) ->
      Editor.makeValid runeAt shape reader e = go.Panic (go.UnknownAlignment (Editor.Alignment e)))
  /\ (Editor.valid e = false -> shape e <> [] -> known_alignment (Editor.Alignment e) ->
      exists e',
        Editor.makeValid runeAt shape reader e = go.Done e'
        /\ Editor.valid e' = true /\ Editor.lines e' = shape e /\ caret_ok e'
        /\ Editor.makeValid runeAt shape reader e' = go.Done e'
        /\ Editor.NumLines runeAt shape reader e = go.Done (go.len (shape e), e')
        /\ 1 <= go.len (shape e)
        /\ Editor.CaretPos runeAt shape reader e
           = go.Done (Editor.c_line (Editor.caret e'), Editor.col (Editor.caret e'), e')
        /\ Editor.Text e' = Editor.Text e /\ Editor.events e' = Editor.events e
        /\ Editor.scrollOff e' = Editor.scrollOff e).
Proof.
  split; [apply makeValid_valid |].
  unfold Editor.NumLines, Editor.CaretPos, Editor.makeValid.
  destruct (layoutText_Done e) as [dims Et].
  set (er := if negb (Editor.Mask e =? 0)
             then Editor.set_maskReader e (reader e) else e) in *.
  assert (Al : Editor.Alignment er = Editor.Alignment e) by (unfold er; destruct (negb _); reflexivity).
  assert (Tx : Editor.Text er = Editor.Text e) by (unfold er; destruct (negb _); reflexivity).
  assert (Ev : Editor.events er = Editor.events e) by (unfold er; destruct (negb _); reflexivity).
  assert (Sc : Editor.scrollOff er = Editor.scrollOff e) by (unfold er; destruct (negb _); reflexivity).
  clearbody er.
  split; [| split].
  - intros Hv Hs. rewrite Hv, Et. cbn [go.bind].
    destruct (layoutCaret_spec (Editor.set_lines_dims er (shape e) dims)) as (P & _).
    rewrite P by exact Hs. reflexivity.
  - intros Hv Hs Ha. rewrite Hv, Et. cbn [go.bind].
    destruct (layoutCaret_spec (Editor.set_lines_dims er (shape e) dims)) as (_ & P & _).
    rewrite P by (try exact Hs; cbn [Editor.Alignment Editor.set_lines_dims]; rewrite Al; exact Ha).
    cbn [Editor.Alignment Editor.set_lines_dims]. rewrite Al. reflexivity.
  - intros Hv Hs Ha. rewrite Hv, Et. cbn [go.bind].
    destruct (layoutCaret_spec (Editor.set_lines_dims er (shape e) dims)) as (_ & _ & P).
    destruct (P Hs) as (line & col & x & y & ln & -> & Hln & Hc);
      [cbn [Editor.Alignment Editor.set_lines_dims]; rewrite Al; exact Ha |].
    cbn [go.bind]. eexists. split; [reflexivity |].
    split; [reflexivity |]. split; [reflexivity |].
    split; [exists ln; split; [exact Hln | exact Hc] |].
    split; [reflexivity |]. split; [reflexivity |].
    split; [unfold go.len; destruct (shape e); [congruence | cbn [List.length]; lia] |].
    split; [reflexivity |]. split; [exact Tx |]. split; [exact Ev | exact Sc].
Qed.

(** ** Moving the caret between lines *)

Ltac caret_moves :=
  repeat first
    [ apply only_caret_refl
    | apply only_caret_set_caret
    | apply only_caret_set_rr_caret
    | eapply only_caret_trans;
      [| first [apply only_caret_set_caret | apply only_caret_set_rr_caret]] ].

Lemma moveToLine_down_spec (line : Z) (fuel : nat) :
  forall (prevDesc : fixed.Int26_6) (e : Editor.t),
  laid_out e ->
  line < go.len (Editor.lines e) ->
  line - Editor.c_line (Editor.caret e) <= Z.of_nat fuel ->
  exists pd e',
    Editor.moveToLine_down runeAt shape reader fuel line prevDesc e = go.Done (pd, e')
    /\ only_caret e e' /\ caret_ok e'
    /\ Editor.c_line (Editor.caret e') = Z.max (Editor.c_line (Editor.caret e)) line.
Proof.
  induction fuel as [| fuel IH]; intros prevDesc e (Hv & Ha & Hc) Hl Hf;
    cbn [Editor.moveToLine_down];
    destruct (Z.ltb_spec (Editor.c_line (Editor.caret e)) line) as [Hlt | Hge];
    try lia;
    try (exists prevDesc, e; split; [reflexivity |];
         split; [apply only_caret_refl | split; [exact Hc | lia]]).
  destruct Hc as (ln & Hon & Hcol).
  destruct (moveEnd_spec e ln Hv Ha Hon Hcol) as (e1 & -> & O1 & _ & L1 & _).
  cbn [go.bind].
  rewrite (on_line_index e1 _ ln) by (rewrite L1; eapply on_line_only_caret; eassumption).
  cbn [go.bind]. cbv zeta.
  match goal with |- context [Editor.moveToLine_down _ _ _ _ _ _ ?x] => set (e2 := x) end.
  assert (O2 : only_caret e e2)
    by (eapply only_caret_trans; [exact O1 |]; unfold e2; caret_moves).
  assert (L2 : Editor.c_line (Editor.caret e2) = Editor.c_line (Editor.caret e) + 1)
    by (unfold e2; cbn; rewrite L1; reflexivity).
  assert (C2 : Editor.col (Editor.caret e2) = 0) by reflexivity.
  clearbody e2.
  pose proof (only_caret_frame _ _ O2) as (F1 & F2 & F3 & _).
  destruct (IH (text.Descent ln) e2) as (pd & e' & E & O & C & L).
  - split; [congruence |]. split; [rewrite F3; exact Ha |].
    destruct (on_line_total e2 (Editor.c_line (Editor.caret e2))) as [ln2 H2].
    { pose proof (on_line_bound _ _ _ Hon). rewrite F1, L2. lia. }
    exists ln2. split; [exact H2 |]. rewrite C2. unfold go.len. lia.
  - rewrite F1. exact Hl.
  - lia.
  - exists pd, e'. split; [exact E |].
    split; [eapply only_caret_trans; eassumption |]. split; [exact C | lia].
Qed.

Lemma moveToLine_up_spec (line : Z) (fuel : nat) :
  forall (prevDesc : fixed.Int26_6) (e : Editor.t),
  Editor.valid e = true ->
  (exists ln, on_line e (Editor.c_line (Editor.caret e)) ln
              /\ Editor.col (Editor.caret e) <= go.len (text.Advances (text.Layout_ ln))) ->
  0 <= line ->
  Editor.c_line (Editor.caret e) - line <= Z.of_nat fuel ->
  exists pd e',
    Editor.moveToLine_up runeAt runeBefore shape reader fuel line prevDesc e = go.Done (pd, e')
    /\ only_caret e e'
    /\ (exists ln, on_line e' (Editor.c_line (Editor.caret e')) ln
                   /\ Editor.col (Editor.caret e') <= go.len (text.Advances (text.Layout_ ln)))
    /\ Editor.c_line (Editor.caret e') = Z.min (Editor.c_line (Editor.caret e)) line.
Proof.
  induction fuel as [| fuel IH]; intros prevDesc e Hv Hc Hl Hf;
    cbn [Editor.moveToLine_up];
    destruct (Z.gtb_spec (Editor.c_line (Editor.caret e)) line) as [Hgt | Hle];
    try lia;
    try (exists prevDesc, e; split; [reflexivity |];
         split; [apply only_caret_refl | split; [exact Hc | lia]]).
  destruct Hc as (ln & Hon & Hcol).
  destruct (moveStart_spec e ln Hv Hon Hcol) as (e1 & -> & O1 & _ & L1 & _).
  cbn [go.bind].
  rewrite (on_line_index e1 _ ln) by (rewrite L1; eapply on_line_only_caret; eassumption).
  cbn [go.bind]. cbv zeta.
  match goal with |- context [go.index (Editor.lines ?x) _] => set (e2 := x) end.
  assert (O2 : only_caret e e2)
    by (eapply only_caret_trans; [exact O1 |]; unfold e2; caret_moves).
  assert (L2 : Editor.c_line (Editor.caret e2) = Editor.c_line (Editor.caret e) - 1)
    by (unfold e2; cbn; rewrite L1; reflexivity).
  clearbody e2.
  pose proof (only_caret_frame _ _ O2) as (F1 & F2 & _).
  destruct (on_line_total e2 (Editor.c_line (Editor.caret e2))) as [ln2 H2].
  { pose proof (on_line_bound _ _ _ Hon). rewrite F1, L2. lia. }
  rewrite (on_line_index _ _ _ H2). cbn [go.bind].
  match goal with |- context [Editor.moveToLine_up _ _ _ _ _ _ _ ?x] => set (e3 := x) end.
  assert (O3 : only_caret e e3)
    by (eapply only_caret_trans; [exact O2 |]; unfold e3; caret_moves).
  assert (L3 : Editor.c_line (Editor.caret e3) = Editor.c_line (Editor.caret e2))
    by reflexivity.
  assert (C3 : Editor.col (Editor.caret e3) = go.len (text.Advances (text.Layout_ ln2)) - 1)
    by reflexivity.
  clearbody e3.
  destruct (IH (text.Descent ln) e3) as (pd & e' & E & O & C & L).
  - pose proof (only_caret_frame _ _ O3) as (_ & -> & _). exact Hv.
  - exists ln2. split; [| lia]. rewrite L3.
    eapply on_line_only_caret; [| exact H2].
    unfold only_caret in *. rewrite O3 at 1. rewrite O2 at 1.
    destruct e as [? ? ? ? ? [? ? ?] ? ? ? ? ? ? ? ? ? ? ? ? ? ? ? ?]. reflexivity.
  - exact Hl.
  - lia.
  - exists pd, e'. split; [exact E |].
    split; [eapply only_caret_trans; eassumption |]. split; [exact C | lia].
Qed.

Lemma moveToLine_closest_spec (x : fixed.Int26_6) (advances : list fixed.Int26_6) :
  forall e : Editor.t,
  let e' := Editor.moveToLine_closest runeAt advances x e in
  only_caret e e'
  /\ Editor.col (Editor.caret e) <= Editor.col (Editor.caret e')
     <= Editor.col (Editor.caret e) + go.len advances
  /\ Editor.c_line (Editor.caret e') = Editor.c_line (Editor.caret e)
  /\ go.wrap32 (Editor.c_x (Editor.caret e'))
     = go.wrap32 (Editor.c_x (Editor.caret e)
                  + sumZ (firstn (Z.to_nat (Editor.col (Editor.caret e')
                                           - Editor.col (Editor.caret e))) advances)).
Proof.
  induction advances as [| adv rest IH]; intros e; cbn [Editor.moveToLine_closest].
  - cbv zeta. split; [apply only_caret_refl |]. unfold go.len. cbn [List.length].
    split; [lia |]. split; [reflexivity |].
    rewrite firstn_nil. unfold sumZ. cbn [fold_right]. rewrite Z.add_0_r. reflexivity.
  - assert (Stay : only_caret e e
             /\ Editor.col (Editor.caret e) <= Editor.col (Editor.caret e)
                <= Editor.col (Editor.caret e) + go.len (adv :: rest)
             /\ Editor.c_line (Editor.caret e) = Editor.c_line (Editor.caret e)
             /\ go.wrap32 (Editor.c_x (Editor.caret e))
                = go.wrap32 (Editor.c_x (Editor.caret e)
                    + sumZ (firstn (Z.to_nat (Editor.col (Editor.caret e)
                                             - Editor.col (Editor.caret e))) (adv :: rest)))).
    { split; [apply only_caret_refl |]. unfold go.len. split; [lia |].
      split; [reflexivity |]. rewrite Z.sub_diag. cbn [Z.to_nat firstn].
      unfold sumZ. cbn [fold_right]. rewrite Z.add_0_r. reflexivity. }
    destruct (_ >=? x); [exact Stay |].
    destruct (_ >=? _); [exact Stay |]. clear Stay. cbv zeta.
    match goal with |- context [Editor.moveToLine_closest _ _ _ ?y] => set (e1 := y) end.
    assert (O1 : only_caret e e1) by (unfold e1; caret_moves).
    assert (C1 : Editor.col (Editor.caret e1) = Editor.col (Editor.caret e) + 1)
      by reflexivity.
    assert (L1 : Editor.c_line (Editor.caret e1) = Editor.c_line (Editor.caret e))
      by reflexivity.
    assert (X1 : Editor.c_x (Editor.caret e1) = fixed.add (Editor.c_x (Editor.caret e)) adv)
      by reflexivity.
    clearbody e1. destruct (IH e1) as (O & C & L & X).
    split; [eapply only_caret_trans; eassumption |].
    unfold go.len in *. cbn [List.length]. split; [lia |]. split; [congruence |].
    rewrite X, X1. unfold fixed.add, go.wrap32. rewrite wrap_add_l by lia.
    replace (Z.to_nat (Editor.col (Editor.caret (Editor.moveToLine_closest runeAt rest x e1))
                       - Editor.col (Editor.caret e)))
      with (S (Z.to_nat (Editor.col (Editor.caret (Editor.moveToLine_closest runeAt rest x e1))
                         - Editor.col (Editor.caret e1)))) by lia.
    cbn [firstn]. unfold sumZ. cbn [fold_right]. f_equal. lia.
Qed.

(** [moveToLine] between two moves of the caret. *)
Lemma moveToLine_spec (e : Editor.t) (x : fixed.Int26_6) (line : Z) :
  laid_out e ->
  exists e' ln a,
    Editor.moveToLine runeAt runeBefore shape reader e x line = go.Done e'
    /\ only_caret e e' /\ laid_out e'
    /\ Editor.c_line (Editor.caret e') = clamp_line e line
    /\ on_line e (clamp_line e line) ln
    /\ 0 <= Editor.col (Editor.caret e')
       <= Z.max 0 (go.len (text.Advances (text.Layout_ ln))
                   - Editor.lineEnd e (clamp_line e line))
    /\ align (Editor.Alignment e) (text.Width ln) (image.X (Editor.viewSize e)) = go.Done a
    /\ go.wrap32 (Editor.c_x (Editor.caret e'))
       = go.wrap32 (a + sumZ (firstn (Z.to_nat (Editor.col (Editor.caret e')))
                                     (text.Advances (text.Layout_ ln))))
    /\ Editor.xoff (Editor.caret e') = fixed.sub x (Editor.c_x (Editor.caret e')).
Proof.
  intros (Hv & Ha & Hc). unfold Editor.moveToLine.
  rewrite (makeValid_valid e Hv). cbn [go.bind]. cbv zeta.
  assert (Hn : 1 <= go.len (Editor.lines e)).
  { destruct Hc as (ln & Hon & _). pose proof (on_line_bound _ _ _ Hon). lia. }
  assert (Hcl : (if (if line <? 0 then 0 else line) >=? go.len (Editor.lines e)
                 then go.len (Editor.lines e) - 1
                 else if line <? 0 then 0 else line) = clamp_line e line).
  { unfold clamp_line. destruct (Z.ltb_spec line 0);
      match goal with |- context [?a >=? ?b] => destruct (Z.geb_spec a b) end; lia. }
  rewrite Hcl. set (tgt := clamp_line e line) in *.
  assert (Ht : 0 <= tgt < go.len (Editor.lines e)) by (unfold tgt, clamp_line; lia).
  clearbody tgt.
  destruct (on_line_total e tgt Ht) as [ln Hln].
  rewrite (on_line_index _ _ _ Hln). cbn [go.bind].
  destruct (moveToLine_down_spec tgt (Z.to_nat (tgt - Editor.c_line (Editor.caret e)))
              (text.Descent ln) e) as (pd1 & e1 & -> & O1 & C1 & L1);
    [split; [exact Hv | split; [exact Ha | exact Hc]] | lia | lia |].
  cbn [go.bind].
  pose proof (only_caret_frame _ _ O1) as (F1 & V1 & _).
  destruct (moveToLine_up_spec tgt (Z.to_nat (Editor.c_line (Editor.caret e1) - tgt)) pd1 e1)
    as (pd2 & e2 & -> & O2 & C2 & L2);
    [congruence | destruct C1 as (l1 & ? & ?); exists l1; split; [assumption | lia]
    | lia | lia |].
  cbn [go.bind].
  assert (O12 : only_caret e e2) by (eapply only_caret_trans; eassumption).
  pose proof (only_caret_frame _ _ O12) as (F2 & V2 & _).
  assert (T2 : Editor.c_line (Editor.caret e2) = tgt) by lia.
  destruct C2 as (l2 & H2 & Hc2).
  assert (l2 = ln).
  { rewrite T2 in H2. destruct H2 as [_ H2], Hln as [_ Hln]. rewrite F2 in H2. congruence. }
  subst l2.
  destruct (moveStart_spec e2 ln) as (e3 & -> & O3 & C3 & L3 & _);
    [congruence | exact H2 | exact Hc2 |].
  cbn [go.bind].
  assert (O13 : only_caret e e3) by (eapply only_caret_trans; eassumption).
  pose proof (only_caret_frame _ _ O13) as (F3 & V3 & A3 & S3 & _).
  rewrite F3, (on_line_index _ _ _ Hln), A3, S3. cbn [go.bind].
  destruct (align_known _ (text.Width ln) (image.X (Editor.viewSize e)) Ha) as [a Ea].
  rewrite Ea. cbn [go.bind].
  set (e4 := Editor.set_caret e3 (Editor.set_c_x (Editor.caret e3) a)).
  assert (O4 : only_caret e e4)
    by (eapply only_caret_trans; [exact O13 | apply only_caret_set_caret]).
  assert (C4 : Editor.col (Editor.caret e4) = 0) by exact C3.
  assert (L4 : Editor.c_line (Editor.caret e4) = tgt) by (rewrite <- T2, <- L3; reflexivity).
  assert (X4 : Editor.c_x (Editor.caret e4) = a) by reflexivity.
  clearbody e4.
  rewrite (lineEnd_only_caret _ _ tgt O4).
  pose proof (lineEnd_range e tgt) as Hr.
  set (advs := firstn _ (text.Advances (text.Layout_ ln))).
  destruct (moveToLine_closest_spec x advs e4) as (O5 & C5 & L5 & X5).
  set (e5 := Editor.moveToLine_closest runeAt advs x e4) in *. clearbody e5.
  assert (O15 : only_caret e e5) by (eapply only_caret_trans; eassumption).
  assert (Hlen : go.len advs
                 = Z.max 0 (Z.min (go.len (text.Advances (text.Layout_ ln)) - Editor.lineEnd e tgt)
                                  (go.len (text.Advances (text.Layout_ ln))))).
  { unfold advs, go.len. rewrite length_firstn. lia. }
  eexists _, ln, a. split; [reflexivity |].
  assert (O6 : only_caret e (Editor.set_caret e5
                 (Editor.set_xoff (Editor.caret e5) (fixed.sub x (Editor.c_x (Editor.caret e5))))))
    by (eapply only_caret_trans; [exact O15 | apply only_caret_set_caret]).
  split; [exact O6 |].
  pose proof (only_caret_frame _ _ O6) as (F6 & V6 & A6 & _).
  split; [| split; [exact (eq_trans L5 L4) |]].
  - split; [congruence |]. split; [rewrite A6; exact Ha |].
    exists ln. split.
    + eapply on_line_only_caret; [exact O6 |].
      replace (Editor.c_line _) with tgt by (symmetry; exact (eq_trans L5 L4)). exact Hln.
    + change (0 <= Editor.col (Editor.caret e5) <= go.len (text.Advances (text.Layout_ ln))).
      unfold go.len in *. lia.
  - split; [exact Hln |].
    split; [change (0 <= Editor.col (Editor.caret e5)
                    <= Z.max 0 (go.len (text.Advances (text.Layout_ ln)) - Editor.lineEnd e tgt));
            unfold go.len in *; lia |].
    split; [exact Ea |]. split; [| reflexivity].
    change (go.wrap32 (Editor.c_x (Editor.caret e5))
            = go.wrap32 (a + sumZ (firstn (Z.to_nat (Editor.col (Editor.caret e5)))
                                          (text.Advances (text.Layout_ ln))))).
    rewrite X5, X4, C4, Z.sub_0_r. unfold advs. rewrite firstn_firstn.
    replace (Nat.min _ _) with (Z.to_nat (Editor.col (Editor.caret e5)))
      by (unfold go.len in *; lia).
    reflexivity.
Qed.

Lemma laid_out_only_caret (e e' : Editor.t) (ln : text.Line) :
  laid_out e -> only_caret e e' ->
  on_line e (Editor.c_line (Editor.caret e')) ln ->
  0 <= Editor.col (Editor.caret e') <= go.len (text.Advances (text.Layout_ ln)) ->
  laid_out e'.
Proof.
  intros (Hv & Ha & _) O Hl Hc.
  pose proof (only_caret_frame _ _ O) as (_ & V & A & _).
  split; [congruence |]. split; [rewrite A; exact Ha |].
  exists ln. split; [eapply on_line_only_caret; eassumption | exact Hc].
Qed.



Lemma movePages_line_range (rest : list text.Line) (y : Z) :
  forall (prevDesc : fixed.Int26_6) (carLine2 y2 : Z),
  carLine2 <= Editor.movePages_line rest y prevDesc carLine2 y2 <= carLine2 + go.len rest.
Proof.
  unfold go.len.
  induction rest as [| l rest IH]; intros prevDesc carLine2 y2;
    cbn [Editor.movePages_line List.length]; [lia |].
  destruct (_ >=? _); [lia |]. cbv zeta. destruct (_ >=? _); [lia |].
  specialize (IH (text.Descent l) (carLine2 + 1)
                 (go.wrap64 (y2 + fixed.Ceil (fixed.add prevDesc (text.Ascent l))))). lia.
Qed.

Lemma moveCoord_line_range (lines : list text.Line) (target : Z) :
  forall (prevDesc : fixed.Int26_6) (carLine y : Z),
  carLine <= Editor.moveCoord_line lines target prevDesc carLine y <= carLine + go.len lines.
Proof.
  unfold go.len.
  induction lines as [| l rest IH]; intros prevDesc carLine y;
    cbn [Editor.moveCoord_line List.length]; [lia |].
  cbv zeta. destruct (_ >=? _); [lia |].
  specialize (IH (text.Descent l) (carLine + 1)
                 (go.wrap64 (y + fixed.Ceil (fixed.add prevDesc (text.Ascent l))))). lia.
Qed.

Lemma firstn_add_skipn {A : Type} (n m : nat) (xs : list A) :
  firstn (n + m) xs = firstn n xs ++ firstn m (skipn n xs).
Proof.
  revert xs. induction n as [| n IH]; intros xs; [reflexivity |].
  destruct xs as [| x xs]; cbn [Nat.add firstn skipn app].
  - rewrite firstn_nil. reflexivity.
  - rewrite IH. reflexivity.
Qed.

Lemma wrap_add_r (w a b : Z) : 0 < w -> go.wrap w (a + go.wrap w b) = go.wrap w (a + b).
Proof.
  intros Hw. rewrite (Z.add_comm a (go.wrap w b)), wrap_add_l by exact Hw.
  rewrite Z.add_comm. reflexivity.
Qed.

(** The place the caret was asked to keep, [x + xoff], after a move
    to a line with [x]. *)
Lemma xoff_keeps (x c : fixed.Int26_6) :
  fixed.add c (fixed.sub (go.wrap32 x) c) = go.wrap32 x.
Proof.
  unfold fixed.add, fixed.sub, go.wrap32.
  rewrite wrap_add_r by lia.
  replace (c + (go.wrap 32 x - c)) with (go.wrap 32 x) by lia.
  apply wrap32_small, wrap32_int32.
Qed.

(** X19.  On a valid layout with the caret on it, [moveStart] puts
    the caret in column 0 of its line and [moveEnd] puts it behind the
    last rune of the line, before the newline on every line but the
    last; a caret already further right is left where it is.  Both move
    only the caret, leave it on the layout and move its [x] by the
    advances of the runes they pass, modulo [2^32]; so [moveStart] after
    [moveEnd] ends where [moveStart] alone ends. *)
Theorem moveStart_and_moveEnd_stay_on_the_line (e : Editor.t) :
  laid_out e ->
  exists (e0 e1 e2 : Editor.t) (ln : text.Line),
    on_line e (Editor.c_line (Editor.caret e)) ln
    /\ Editor.moveStart runeAt runeBefore shape reader e = go.Done e0
    /\ Editor.moveEnd runeAt shape reader e = go.Done e1
    /\ Editor.moveStart runeAt runeBefore shape reader e1 = go.Done e2
    /\ only_caret e e0 /\ only_caret e e1 /\ only_caret e e2
    /\ laid_out e0 /\ laid_out e1 /\ laid_out e2
    /\ Editor.c_line (Editor.caret e0) = Editor.c_line (Editor.caret e)
    /\ Editor.c_line (Editor.caret e1) = Editor.c_line (Editor.caret e)
    /\ Editor.col (Editor.caret e0) = 0
    /\ Editor.col (Editor.caret e1)
       = Z.max (Editor.col (Editor.caret e))
               (go.len (text.Advances (text.Layout_ ln))
                - Editor.lineEnd e (Editor.c_line (Editor.caret e)))
    /\ Editor.col (Editor.caret e2) = 0
    /\ go.wrap32 (Editor.c_x (Editor.caret e0))
       = go.wrap32 (Editor.c_x (Editor.caret e)
                    - sumZ (firstn (Z.to_nat (Editor.col (Editor.caret e)))
                                   (text.Advances (text.Layout_ ln))))
    /\ go.wrap32 (Editor.c_x (Editor.caret e1))
       = go.wrap32 (Editor.c_x (Editor.caret e)
                    + sumZ (firstn (Z.to_nat (Editor.col (Editor.caret e1)
                                             - Editor.col (Editor.caret e)))
                                   (skipn (Z.to_nat (Editor.col (Editor.caret e)))
                                          (text.Advances (text.Layout_ ln)))))
    /\ go.wrap32 (Editor.c_x (Editor.caret e2)) = go.wrap32 (Editor.c_x (Editor.caret e0))
    /\ Editor.xoff (Editor.caret e0) = go.wrap32 (- Editor.c_x (Editor.caret e0)).
Proof.
  intros He. pose proof He as (Hv & Ha & ln & Hon & Hcol).
  destruct (moveStart_spec e ln Hv Hon) as (e0 & E0 & O0 & C0 & L0 & _ & X0 & F0); [lia |].
  destruct (moveEnd_spec e ln Hv Ha Hon Hcol) as (e1 & E1 & O1 & C1 & L1 & _ & X1).
  pose proof (lineEnd_range e (Editor.c_line (Editor.caret e))) as Hr.
  assert (H1 : laid_out e1)
    by (apply (laid_out_only_caret e e1 ln He O1); [rewrite L1; exact Hon | lia]).
  assert (Hon1 : on_line e1 (Editor.c_line (Editor.caret e1)) ln)
    by (rewrite L1; eapply on_line_only_caret; eassumption).
  destruct (moveStart_spec e1 ln (proj1 H1) Hon1) as (e2 & E2 & O2 & C2 & L2 & _ & X2 & _);
    [lia |].
  exists e0, e1, e2, ln.
  split; [exact Hon |]. split; [exact E0 |]. split; [exact E1 |]. split; [exact E2 |].
  split; [exact O0 |]. split; [exact O1 |].
  split; [eapply only_caret_trans; eassumption |].
  split; [apply (laid_out_only_caret e e0 ln He O0); [rewrite L0; exact Hon | lia] |].
  split; [exact H1 |].
  split; [apply (laid_out_only_caret e1 e2 ln H1 O2); [rewrite L2; exact Hon1 | lia] |].
  split; [exact L0 |]. split; [exact L1 |]. split; [exact C0 |]. split; [exact C1 |].
  split; [exact C2 |]. split; [exact X0 |].
  split; [rewrite X1, C1; do 4 f_equal; lia |].
  split; [| exact F0].
  rewrite X2, X0. unfold go.wrap32.
  set (advs := text.Advances (text.Layout_ ln)) in *.
  set (stop := go.len advs - Editor.lineEnd e (Editor.c_line (Editor.caret e))) in *.
  assert (S : sumZ (firstn (Z.to_nat (Editor.col (Editor.caret e1))) advs)
              = sumZ (firstn (Z.to_nat (Editor.col (Editor.caret e))) advs)
                + sumZ (firstn (Z.to_nat (stop - Editor.col (Editor.caret e)))
                               (skipn (Z.to_nat (Editor.col (Editor.caret e))) advs))).
  { rewrite <- sumZ_app, <- firstn_add_skipn. f_equal. f_equal. lia. }
  assert (X1' : go.wrap 32 (Editor.c_x (Editor.caret e1)
                            - sumZ (firstn (Z.to_nat (Editor.col (Editor.caret e1))) advs))
                = go.wrap 32 (go.wrap 32 (Editor.c_x (Editor.caret e1))
                              - sumZ (firstn (Z.to_nat (Editor.col (Editor.caret e1))) advs)))
    by (rewrite wrap_sub_l by lia; reflexivity).
  unfold go.wrap32 in X1. rewrite X1', X1.
  rewrite wrap_sub_l by lia. f_equal. rewrite S. fold stop. lia.
Qed.

(** X21.  On a valid layout with the caret on it, [moveToLine] puts
    the caret on the line asked for, or on the first or the last line
    when there is no such line, and moves nothing but the caret.  The
    column is within the line and, except on the last line, before the
    rune that ends it; the caret [x] is the alignment of the line and
    the advances of the runes before the column, modulo [2^32], and
    [xoff] is what is left to the [x] asked for. *)
Theorem moveToLine_puts_the_caret_on_a_line (e : Editor.t) (x : fixed.Int26_6) (line : Z) :
  laid_out e ->
  exists (e' : Editor.t) (ln : text.Line) (a : fixed.Int26_6),
    Editor.moveToLine runeAt runeBefore shape reader e x line = go.Done e'
    /\ only_caret e e' /\ laid_out e'
    /\ Editor.c_line (Editor.caret e') = clamp_line e line
    /\ (0 <= line < go.len (Editor.lines e) -> Editor.c_line (Editor.caret e') = line)
    /\ on_line e (Editor.c_line (Editor.caret e')) ln
    /\ 0 <= Editor.col (Editor.caret e')
       <= Z.max 0 (go.len (text.Advances (text.Layout_ ln))
                   - Editor.lineEnd e (Editor.c_line (Editor.caret e')))
    /\ align (Editor.Alignment e) (text.Width ln) (image.X (Editor.viewSize e)) = go.Done a
    /\ go.wrap32 (Editor.c_x (Editor.caret e'))
       = go.wrap32 (a + sumZ (firstn (Z.to_nat (Editor.col (Editor.caret e')))
                                     (text.Advances (text.Layout_ ln))))
    /\ Editor.xoff (Editor.caret e') = fixed.sub x (Editor.c_x (Editor.caret e')).
Proof.
  intros He.
  destruct (moveToLine_spec e x line He) as (e' & ln & a & E & O & H & L & Hon & C & A & X & F).
  exists e', ln, a. rewrite L.
  split; [exact E |]. split; [exact O |]. split; [exact H |]. split; [reflexivity |].
  split; [unfold clamp_line; lia |].
  split; [exact Hon |]. split; [exact C |]. split; [exact A |]. split; [exact X | exact F].
Qed.

(** X22.  [moveLines] and [movePages] move the caret to another line
    and keep the place it is to return to: the sum of [x] and [xoff] is
    after the move what it was before.  [moveLines] goes to the line
    [n] lines down, or to the first or the last line when there is no
    such line; [movePages] goes to a line of the layout, and both move
    nothing but the caret. *)
Theorem moveLines_and_movePages_keep_the_column (e : Editor.t) (n : Z) :
  laid_out e ->
  exists e1 e2 : Editor.t,
    Editor.moveLines runeAt runeBefore shape reader e n = go.Done e1
    /\ Editor.movePages runeAt runeBefore shape reader e n = go.Done e2
    /\ only_caret e e1 /\ only_caret e e2 /\ laid_out e1 /\ laid_out e2
    /\ Editor.c_line (Editor.caret e1)
       = clamp_line e (go.wrap64 (Editor.c_line (Editor.caret e) + n))
    /\ 0 <= Editor.c_line (Editor.caret e2) < go.len (Editor.lines e)
    /\ fixed.add (Editor.c_x (Editor.caret e1)) (Editor.xoff (Editor.caret e1))
       = fixed.add (Editor.c_x (Editor.caret e)) (Editor.xoff (Editor.caret e))
    /\ fixed.add (Editor.c_x (Editor.caret e2)) (Editor.xoff (Editor.caret e2))
       = fixed.add (Editor.c_x (Editor.caret e)) (Editor.xoff (Editor.caret e)).
Proof.
  intros He. pose proof He as (Hv & _ & ln & Hon & _).
  pose proof (on_line_bound _ _ _ Hon) as Hb.
  unfold Editor.moveLines, Editor.movePages.
  rewrite (makeValid_valid e Hv). cbn [go.bind]. cbv zeta.
  destruct (moveToLine_spec e (fixed.add (Editor.c_x (Editor.caret e)) (Editor.xoff (Editor.caret e)))
              (go.wrap64 (Editor.c_line (Editor.caret e) + n)) He)
    as (e1 & _ & _ & E1 & O1 & H1 & L1 & _ & _ & _ & _ & F1).
  destruct (on_line_total e 0) as [l0 H0]; [lia |].
  rewrite (on_line_index _ _ _ H0). cbn [go.bind].
  set (carLine2 := Editor.movePages_line _ _ _ _ _).
  assert (R : 0 <= carLine2 < go.len (Editor.lines e)).
  { pose proof (movePages_line_range (tl (Editor.lines e))
                  (go.wrap64 (Editor.c_y (Editor.caret e) + go.wrap64 (n * image.Y (Editor.viewSize e))))
                  0 0 (fixed.Ceil (text.Ascent l0))) as R.
    fold carLine2 in R. unfold go.len in *.
    destruct (Editor.lines e); cbn [tl List.length] in *; lia. }
  clearbody carLine2.
  destruct (moveToLine_spec e (fixed.add (Editor.c_x (Editor.caret e)) (Editor.xoff (Editor.caret e)))
              carLine2 He)
    as (e2 & _ & _ & E2 & O2 & H2 & L2 & _ & _ & _ & _ & F2).
  exists e1, e2.
  split; [exact E1 |]. split; [exact E2 |]. split; [exact O1 |]. split; [exact O2 |].
  split; [exact H1 |]. split; [exact H2 |]. split; [exact L1 |].
  split; [rewrite L2; unfold clamp_line; lia |].
  rewrite F1, F2.
  split; exact (xoff_keeps (Editor.c_x (Editor.caret e) + Editor.xoff (Editor.caret e)) _).
Qed.


(** X24.  [moveCoord] returns on a valid layout with the caret on it,
    for every point, with the caret on a line of the layout and [xoff]
    zero.  It moves nothing but the caret: the queue of events, the
    scroll offset, the text and the state of a drag are what they
    were. *)
Theorem moveCoord_moves_only_the_caret (e : Editor.t) (pos : image.Point) :
  laid_out e ->
  exists e' : Editor.t,
    Editor.moveCoord runeAt runeBefore shape reader e pos = go.Done e'
    /\ only_caret e e' /\ laid_out e'
    /\ 0 <= Editor.c_line (Editor.caret e') < go.len (Editor.lines e)
    /\ Editor.xoff (Editor.caret e') = 0
    /\ Editor.events e' = Editor.events e /\ Editor.prevEvents e' = Editor.prevEvents e
    /\ Editor.scrollOff e' = Editor.scrollOff e /\ Editor.Text e' = Editor.Text e
    /\ Editor.dragging e' = Editor.dragging e
    /\ Editor.startDrag e' = Editor.startDrag e /\ Editor.endDrag e' = Editor.endDrag e.
Proof.
  intros He. pose proof He as (_ & _ & l0 & Hon & _).
  pose proof (on_line_bound _ _ _ Hon) as Hb.
  unfold Editor.moveCoord. cbv zeta.
  set (carLine := Editor.moveCoord_line _ _ _ _ _).
  destruct (moveToLine_spec e (fixed.I (go.wrap64 (image.X pos + image.X (Editor.scrollOff e))))
              carLine He)
    as (e1 & _ & _ & -> & O1 & H1 & L1 & _).
  cbn [go.bind]. eexists. split; [reflexivity |].
  assert (O : only_caret e (Editor.set_caret e1 (Editor.set_xoff (Editor.caret e1) 0)))
    by (eapply only_caret_trans; [exact O1 | apply only_caret_set_caret]).
  split; [exact O |].
  split.
  { destruct H1 as (V1 & A1 & ln & Hl & Hc). split; [exact V1 |]. split; [exact A1 |].
    exists ln. split; [exact Hl | exact Hc]. }
  split; [change (0 <= Editor.c_line (Editor.caret e1) < go.len (Editor.lines e));
          rewrite L1; unfold clamp_line; lia |].
  split; [reflexivity |].
  unfold only_caret in O. rewrite O. repeat split.
Qed.

(** ** Scrolling to the caret *)

Lemma Ceil_int32 (x : Z) : int32 (fixed.Ceil x).
Proof.
  unfold fixed.Ceil. rewrite Z.shiftr_div_pow2 by lia.
  pose proof (wrap32_int32 (x + 63)) as H. unfold int32 in *.
  set (w := go.wrap32 (x + 63)) in *. clearbody w.
  pose proof (Z.div_mod w (2 ^ 6) ltac:(lia)). pose proof (Z.mod_pos_bound w (2 ^ 6) ltac:(lia)).
  change (2 ^ 31) with 2147483648 in *. change (2 ^ 6) with 64 in *. lia.
Qed.

Ltac clamp_step :=
  cbn [image.X image.Y image.Min image.Max Editor.scrollOff Editor.set_scrollOff];
  match goal with
  | |- context [if ?a >? ?b then _ else _] =>
    lazymatch a with
    | context [if _ then _ else _] => fail
    | _ => destruct (Z.gtb_spec a b)
    end
  | |- context [if ?a <? ?b then _ else _] =>
    lazymatch a with
    | context [if _ then _ else _] => fail
    | _ => destruct (Z.ltb_spec a b)
    end
  end.

(** [scrollAbs] in an editor of several lines: no horizontal offset,
    and the vertical one between zero and the height that does not fit
    the view. *)
Lemma scrollAbs_lines (e : Editor.t) (x y : Z) :
  Editor.SingleLine e = false ->
  Editor.scrollAbs e x y
  = go.Done (Editor.set_scrollOff e
               (image.Pt 0 (Z.max 0 (Z.min y (go.wrap64 (image.Y (layout.Size (Editor.dims e))
                                                        - image.Y (Editor.viewSize e))))))).
Proof.
  intros HS. unfold Editor.scrollAbs. rewrite scrollBounds_scrollOff.
  unfold Editor.scrollBounds. rewrite HS. cbn [go.bind].
  set (M := go.wrap64 _). clearbody M.
  set (T := Z.max 0 (Z.min y M)).
  assert (HT : T = Z.max 0 (Z.min y M)) by reflexivity. clearbody T.
  repeat clamp_step;
    cbn [image.X image.Y image.Min image.Max Editor.scrollOff Editor.set_scrollOff];
    try lia;
    try (assert (x = 0) by lia; subst x);
    first [ replace T with 0 by lia; reflexivity
          | replace T with M by lia; reflexivity
          | replace T with y by lia; reflexivity ].
Qed.

(** X26.  In an editor of several lines [scrollToCaret] brings the
    line of the caret into view: afterwards the scroll offset is not
    below the top of the line and the bottom of the line is not below the
    end of the view, given that the line lies within the height of the
    text and is not higher than the view.  It scrolls along the vertical
    axis only and changes nothing but the offset; the sizes are such as
    fit 32 bits. *)
Theorem scrollToCaret_shows_the_line_of_the_caret (e : Editor.t) (ln : text.Line) :
  Editor.SingleLine e = false -> Editor.valid e = true ->
  on_line e (Editor.c_line (Editor.caret e)) ln ->
  int32 (Editor.c_y (Editor.caret e)) -> int32 (image.Y (Editor.scrollOff e)) ->
  int32 (image.Y (Editor.viewSize e)) -> int32 (image.Y (layout.Size (Editor.dims e))) ->
  0 <= caret_top e ln ->
  caret_bottom e ln <= image.Y (layout.Size (Editor.dims e)) ->
  caret_bottom e ln - caret_top e ln <= image.Y (Editor.viewSize e) ->
  exists e' : Editor.t,
    Editor.scrollToCaret (Editor.makeValid runeAt shape reader) e = go.Done e'
    /\ e' = Editor.set_scrollOff e (Editor.scrollOff e')
    /\ image.X (Editor.scrollOff e') = 0
    /\ image.Y (Editor.scrollOff e') <= caret_top e ln
    /\ caret_bottom e ln <= image.Y (Editor.scrollOff e') + image.Y (Editor.viewSize e)
    /\ 0 <= image.Y (Editor.scrollOff e')
    /\ (image.Y (Editor.scrollOff e) <= caret_top e ln ->
        caret_bottom e ln <= image.Y (Editor.scrollOff e) + image.Y (Editor.viewSize e) ->
        0 <= image.Y (Editor.scrollOff e)
           <= image.Y (layout.Size (Editor.dims e)) - image.Y (Editor.viewSize e) ->
        image.Y (Editor.scrollOff e') = image.Y (Editor.scrollOff e)).
Proof.
  intros HS Hv Hon Iy Is IV IH Htop Hbot Hfit.
  unfold Editor.scrollToCaret. rewrite (makeValid_valid e Hv). cbn [go.bind].
  rewrite (on_line_index _ _ _ Hon). cbn [go.bind]. rewrite HS. cbv zeta.
  unfold Editor.scrollRel. rewrite scrollAbs_lines by exact HS.
  eexists. split; [reflexivity |].
  cbn [Editor.scrollOff Editor.set_scrollOff image.X image.Y].
  split; [reflexivity |]. split; [reflexivity |].
  pose proof (Ceil_int32 (text.Ascent ln)) as Ia.
  pose proof (Ceil_int32 (text.Descent ln)) as Id.
  unfold caret_top, caret_bottom, int32 in *.
  set (y := Editor.c_y (Editor.caret e)) in *.
  set (a := fixed.Ceil (text.Ascent ln)) in *. set (d := fixed.Ceil (text.Descent ln)) in *.
  set (s := image.Y (Editor.scrollOff e)) in *.
  set (V := image.Y (Editor.viewSize e)) in *.
  set (H := image.Y (layout.Size (Editor.dims e))) in *.
  clearbody y a d s V H.
  change (2 ^ 31) with 2147483648 in *.
  assert (B : 2147483648 * 8 < 2 ^ 63) by (vm_compute; reflexivity).
  rewrite !(wrap64_small (y - a)), !(wrap64_small (y + d)), !(wrap64_small (s + V)),
          !(wrap64_small (H - V)) by lia.
  rewrite !(wrap64_small (y - a - s)), !(wrap64_small (y + d - (s + V))) by lia.
  destruct (Z.ltb_spec (y - a - s) 0); [rewrite wrap64_small by lia; lia |].
  destruct (Z.gtb_spec (y + d - (s + V)) 0); rewrite wrap64_small by lia; lia.
Qed.

End Caret.

Lemma makeValid_puts_the_caret_on_the_layout_witness :
  exists e',
    Editor.makeValid (fun _ _ => (0, 1)) (fun _ => [sample_line (go.str "ab")])
                     Editor.maskReader_
                     (Editor.set_rr (Editor.configured false 0) (editBuffer.mk (go.str "ab") 1 false))
    = go.Done e'
    /\ Editor.valid e' = true /\ caret_ok e'.
Proof.
  destruct (makeValid_puts_the_caret_on_the_layout
              (fun _ _ => (0, 1)) (fun _ => [sample_line (go.str "ab")])
              Editor.maskReader_
              (Editor.set_rr (Editor.configured false 0) (editBuffer.mk (go.str "ab") 1 false)))
    as (_ & _ & _ & H).
  destruct H as (e' & E & V & _ & C & _).
  - reflexivity.
  - discriminate.
  - left. reflexivity.
  - exists e'. split; [exact E |]. split; [exact V | exact C].
Defined.

(** The sample editor: a valid layout of two lines, the caret at the
    start of the first. *)
Ltac sample_laid_out :=
  split; [reflexivity |]; split; [left; reflexivity |];
  exists (sample_line (go.str "hello"));
  split; [split; [vm_compute; discriminate | reflexivity] |];
  vm_compute; split; discriminate.

Lemma moveStart_and_moveEnd_stay_on_the_line_witness :
  exists e0 e1 : Editor.t,
    Editor.moveStart (fun _ _ => (0, 1)) (fun _ _ => (0, 1)) Editor.lines Editor.maskReader_
                     sample_editor = go.Done e0
    /\ Editor.moveEnd (fun _ _ => (0, 1)) Editor.lines Editor.maskReader_ sample_editor
       = go.Done e1
    /\ Editor.col (Editor.caret e0) = 0
    /\ go.wrap32 (Editor.c_x (Editor.caret e0)) = 0.
Proof.
  destruct (moveStart_and_moveEnd_stay_on_the_line
              (fun _ _ => (0, 1)) (fun _ _ => (0, 1)) Editor.lines Editor.maskReader_
              sample_editor)
    as (e0 & e1 & e2 & ln & Hon & E0 & E1 & _ & _ & _ & _ & _ & _ & _ & _ & _ & C0 & _ & _
        & X0 & _).
  - sample_laid_out.
  - exists e0, e1. split; [exact E0 |]. split; [exact E1 |]. split; [exact C0 |].
    rewrite X0. reflexivity.
Defined.

Lemma moveToLine_puts_the_caret_on_a_line_witness :
  exists e' : Editor.t,
    Editor.moveToLine (fun _ _ => (0, 1)) (fun _ _ => (0, 1)) Editor.lines Editor.maskReader_
                      sample_editor 1280 7 = go.Done e'
    /\ Editor.c_line (Editor.caret e') = 1.
Proof.
  destruct (moveToLine_puts_the_caret_on_a_line
              (fun _ _ => (0, 1)) (fun _ _ => (0, 1)) Editor.lines Editor.maskReader_
              sample_editor 1280 7)
    as (e' & ln & a & E & _ & _ & L & _).
  - sample_laid_out.
  - exists e'. split; [exact E |]. rewrite L. reflexivity.
Defined.

Lemma moveLines_and_movePages_keep_the_column_witness :
  exists e1 e2 : Editor.t,
    Editor.moveLines (fun _ _ => (0, 1)) (fun _ _ => (0, 1)) Editor.lines Editor.maskReader_
                     sample_editor 1 = go.Done e1
    /\ Editor.movePages (fun _ _ => (0, 1)) (fun _ _ => (0, 1)) Editor.lines Editor.maskReader_
                        sample_editor 1 = go.Done e2
    /\ Editor.c_line (Editor.caret e1) = 1
    /\ fixed.add (Editor.c_x (Editor.caret e1)) (Editor.xoff (Editor.caret e1)) = 0.
Proof.
  destruct (moveLines_and_movePages_keep_the_column
              (fun _ _ => (0, 1)) (fun _ _ => (0, 1)) Editor.lines Editor.maskReader_
              sample_editor 1)
    as (e1 & e2 & E1 & E2 & _ & _ & _ & _ & L1 & _ & X1 & _).
  - sample_laid_out.
  - exists e1, e2. split; [exact E1 |]. split; [exact E2 |].
    split; [rewrite L1; reflexivity | rewrite X1; reflexivity].
Defined.


Lemma moveCoord_moves_only_the_caret_witness :
  exists e' : Editor.t,
    Editor.moveCoord (fun _ _ => (0, 1)) (fun _ _ => (0, 1)) Editor.lines Editor.maskReader_
                     sample_editor (image.Pt 25 15) = go.Done e'
    /\ Editor.dragging e' = true /\ Editor.xoff (Editor.caret e') = 0.
Proof.
  destruct (moveCoord_moves_only_the_caret
              (fun _ _ => (0, 1)) (fun _ _ => (0, 1)) Editor.lines Editor.maskReader_
              sample_editor (image.Pt 25 15))
    as (e' & E & _ & _ & _ & X & _ & _ & _ & _ & D & _).
  - sample_laid_out.
  - exists e'. split; [exact E |]. split; [rewrite D; reflexivity | exact X].
Defined.

Lemma scrollToCaret_shows_the_line_of_the_caret_witness :
  exists e' : Editor.t,
    Editor.scrollToCaret
      (Editor.makeValid (fun _ _ => (0, 1)) Editor.lines Editor.maskReader_)
      (Editor.set_caret
         (Editor.set_viewSize
            (Editor.set_lines_dims sample_editor (Editor.lines sample_editor)
               (layout.mkDimensions (image.Pt 50 24) 10))
            (image.Pt 50 12))
         (Editor.mkCaret false false 0 1 0 0 22))
    = go.Done e'
    /\ image.Y (Editor.scrollOff e') = 12.
Proof.
  destruct (scrollToCaret_shows_the_line_of_the_caret
              (fun _ _ => (0, 1)) Editor.lines Editor.maskReader_
              (Editor.set_caret
                 (Editor.set_viewSize
                    (Editor.set_lines_dims sample_editor (Editor.lines sample_editor)
                       (layout.mkDimensions (image.Pt 50 24) 10))
                    (image.Pt 50 12))
                 (Editor.mkCaret false false 0 1 0 0 22))
              (sample_line (go.str "world")))
    as (e' & E & _ & _ & Htop & Hbot & _).
  - reflexivity.
  - reflexivity.
  - split; [vm_compute; discriminate | reflexivity].
  - vm_compute. split; [discriminate | reflexivity].
  - vm_compute. split; [discriminate | reflexivity].
  - vm_compute. split; [discriminate | reflexivity].
  - vm_compute. split; [discriminate | reflexivity].
  - vm_compute. discriminate.
  - vm_compute. discriminate.
  - vm_compute. discriminate.
  - exists e'. split; [exact E |].
    vm_compute in Htop, Hbot.
    assert (H1 : image.Y (Editor.scrollOff e') <= 12) by exact Htop.
    assert (H2 : 24 <= image.Y (Editor.scrollOff e') + 12) by exact Hbot.
    lia.
Defined.

(** ** The layout of an editor without a shaper *)

Lemma nullLayout_loop_spec (last : Z * nat) (reads : list (Z * nat)) :
  forall (n : Z) (buf : go.string),
  nullLayout_loop reads last n buf
  = (go.wrap64 (n + bytes_read (reads ++ [last])), buf ++ runes_read (reads ++ [last])).
Proof.
  unfold bytes_read, runes_read.
  induction reads as [| [r s] rest IH]; intros n buf;
    cbn [nullLayout_loop app List.map flat_map fst snd].
  - unfold sumZ. cbn [fold_right]. rewrite Z.add_0_r, app_nil_r. reflexivity.
  - rewrite IH. unfold go.wrap64. rewrite wrap_add_l by lia.
    rewrite <- app_assoc. unfold sumZ. cbn [fold_right]. rewrite Z.add_assoc. reflexivity.
Qed.

Lemma bytes_read_nonneg (reads : list (Z * nat)) : 0 <= bytes_read reads.
Proof.
  unfold bytes_read, sumZ.
  induction reads as [| p rest IH]; cbn [List.map fold_right]; lia.
Qed.

(** X25.  Without a shaper the text is one line of no width and no
    height: [nullLayout] returns a single line whose text is the runes
    read, followed by the rune that the failing read returned, and whose
    advances are zero, one for each byte read and not one for each rune.
    The dimensions and the padding of this layout are zero. *)
Theorem nullLayout_has_an_advance_for_each_byte (reads : list (Z * nat)) (last : Z * nat) :
  bytes_read (reads ++ [last]) < 2 ^ 63 ->
  exists ln : text.Line,
    nullLayout reads last = Some [ln]
    /\ text.Text (text.Layout_ ln) = runes_read reads ++ utf8.EncodeRune (fst last)
    /\ text.Advances (text.Layout_ ln) = repeat 0 (Z.to_nat (bytes_read (reads ++ [last])))
    /\ go.len (text.Advances (text.Layout_ ln)) = bytes_read reads + Z.of_nat (snd last)
    /\ linesDimens [ln] = layout.zero
    /\ textPadding [ln] = image.ZR.
Proof.
  intros Hb. unfold nullLayout. rewrite nullLayout_loop_spec.
  pose proof (bytes_read_nonneg (reads ++ [last])) as Hn.
  rewrite Z.add_0_l, wrap64_small by lia.
  destruct (Z.ltb_spec (bytes_read (reads ++ [last])) 0) as [Hlt | _]; [lia |].
  eexists. split; [reflexivity |].
  cbn [text.Text text.Advances text.Layout_ app].
  split.
  { unfold runes_read. rewrite flat_map_app. cbn [flat_map]. rewrite app_nil_r. reflexivity. }
  split; [reflexivity |].
  split.
  { unfold go.len. rewrite repeat_length, Z2Nat.id by lia.
    unfold bytes_read. rewrite map_app, sumZ_app. unfold sumZ at 2.
    cbn [List.map fold_right]. lia. }
  split; reflexivity.
Qed.

Lemma nullLayout_has_an_advance_for_each_byte_witness :
  exists ln : text.Line,
    nullLayout [(233, 2%nat); (97, 1%nat)] (0, 0%nat) = Some [ln]
    /\ text.Text (text.Layout_ ln) = [xc3; xa9; x61; x00]
    /\ text.Advances (text.Layout_ ln) = [0; 0; 0].
Proof.
  destruct (nullLayout_has_an_advance_for_each_byte [(233, 2%nat); (97, 1%nat)] (0, 0%nat))
    as (ln & E & T & A & _).
  - vm_compute. reflexivity.
  - exists ln. split; [exact E |]. split; [rewrite T; reflexivity | rewrite A; reflexivity].
Defined.

(** ** The JNI shim *)

Section Shim.
Import ITree.ITree ITree.ITreeFacts.

Lemma ret_call_passes {R : Type} (c : jni.JNI R) :
  eq_itree eq (jni.ret_call c) (ITree.trigger c).
Proof. unfold jni.ret_call. apply bind_ret_r. Qed.

Lemma void_call_passes (c : jni.JNI unit) :
  eq_itree eq (jni.void_call c) (ITree.trigger c).
Proof.
  unfold jni.void_call.
  apply (bind_ret_r' (ITree.trigger c) (fun _ => tt)). intros []. reflexivity.
Qed.

(** C2.  Every exported function of the shim is its table entry and
    nothing else: its body is, up to strong bisimulation, the single
    call of the corresponding [JavaVM] or [JNIEnv] function on the
    arguments it was given, whose answer it returns as it is; the only
    arguments the shim chooses are NULL for [isCopy] and [JNI_ABORT]
    for [mode]. *)
Theorem shim_is_passthrough :
  (forall (R : Type) (c : jni.gio R), eq_itree eq (jni.body c) (jni.passthrough c))
  /\ (forall env arr,
        jni.corresponding (jni.c_GetByteArrayElements env arr)
        = jni.GetByteArrayElements env arr jni.NULL)
  /\ (forall env arr bytes,
        jni.corresponding (jni.c_ReleaseByteArrayElements env arr bytes)
        = jni.ReleaseByteArrayElements env arr bytes jni.JNI_ABORT).
Proof.
  split; [| split; reflexivity].
  intros R c. unfold jni.passthrough.
  destruct c; cbn; first [apply ret_call_passes | apply void_call_passes].
Qed.

End Shim.
